(** * miniHypervisor: a shallow embedding of the KVM monitor

    The development follows [nivoC/mini_hypervisor.c] (the multi-guest
    monitor with the paravirtual file port) and, for hypervisor
    initialisation, also [nivoA/mini_hypervisor.c].

    Conventions.
    - C [int] values are [Z]; [uint64_t] arithmetic is written with its
      wrap-around ([u64]); a [char] is a byte, a [Z] in [0, 256).
    - Guest-physical memory is a finite map from the byte address of an
      aligned quad word to its 64-bit content; an address that was never
      stored to reads as zero (the mapping is anonymous, hence zero filled).
    - Calls into the host kernel (ioctl, open, read, ...) are arguments of
      the embedded functions or operations of the [Host] class: the
      theorems hold for every behaviour of the host. *)

From Stdlib Require Import ZArith List Lia Bool.
From stdpp Require Import base option list gmap.

Local Open Scope Z_scope.

(** ** Machine integers *)

Definition u64 (x : Z) : Z := x mod 2 ^ 64.

(** Conversion of a value to C [int] (two's complement, 32 bits). *)
Definition to_int (x : Z) : Z := (x + 2 ^ 31) mod 2 ^ 32 - 2 ^ 31.

Definition INT_MAX : Z := 2 ^ 31 - 1.

(** ** Long-mode bootstrap ([setup_long_mode]) *)

Module Paging.

Definition PDE64_PRESENT : Z := 1.
Definition PDE64_RW : Z := Z.shiftl 1 1.
Definition PDE64_USER : Z := Z.shiftl 1 2.
Definition PDE64_PS : Z := Z.shiftl 1 7.

Definition CR4_PAE : Z := Z.shiftl 1 5.
Definition CR0_PE : Z := 1.
Definition CR0_PG : Z := Z.shiftl 1 31.
Definition EFER_LME : Z := Z.shiftl 1 8.
Definition EFER_LMA : Z := Z.shiftl 1 10.

Definition SIZE2MB : Z := 2 * 1024 * 1024.

Inductive PageSize := MB2 | KB4.

(** Guest memory, by aligned quad words. *)
Abbreviation memory := (gmap Z Z).

Definition load64 (m : memory) (a : Z) : Z := default 0 (m !! a).
Definition store64 (m : memory) (a v : Z) : memory := <[a := v]> m.

Record kvm_segment := {
  base : Z; limit : Z; present : Z; type : Z;
  dpl : Z; db : Z; s : Z; l : Z; g : Z }.

Record kvm_sregs := {
  cs : kvm_segment; ds : kvm_segment; es : kvm_segment;
  fs : kvm_segment; gs : kvm_segment; ss : kvm_segment;
  cr0 : Z; cr3 : Z; cr4 : Z; efer : Z }.

Definition with_type (sg : kvm_segment) (t : Z) : kvm_segment :=
  {| base := base sg; limit := limit sg; present := present sg; type := t;
     dpl := dpl sg; db := db sg; s := s sg; l := l sg; g := g sg |}.

Definition setup_64bit_code_segment (sregs : kvm_sregs) : kvm_sregs :=
  let segment := {| base := 0; limit := 0xffffffff; present := 1; type := 11;
                    dpl := 0; db := 0; s := 1; l := 1; g := 1 |} in
  let data := with_type segment 3 in
  {| cs := segment; ds := data; es := data; fs := data; gs := data; ss := data;
     cr0 := cr0 sregs; cr3 := cr3 sregs; cr4 := cr4 sregs; efer := efer sregs |}.

Definition pml4_addr : Z := 0.
Definition pdpt_addr : Z := 0x1000.
Definition pd_addr : Z := 0x2000.

(** [for (int i = 0; i < mem_size / SIZE2MB - 1; i++)
      { pd[i] = PRESENT | RW | USER | PS | page_address;
        page_address += SIZE2MB; }]
    [count] is the number of iterations still to run. *)
Fixpoint pd_loop_2mb (count : nat) (i page_address : Z) (m : memory) : memory :=
  match count with
  | O => m
  | S c =>
      let m1 := store64 m (pd_addr + 8 * i)
                  (Z.lor (Z.lor (Z.lor (Z.lor PDE64_PRESENT PDE64_RW) PDE64_USER) PDE64_PS)
                         page_address) in
      pd_loop_2mb c (i + 1) (u64 (page_address + SIZE2MB)) m1
  end.

(** [for (int i = 0; i < mem_size / SIZE2MB; i++)
      { pd[i] = PRESENT | RW | USER | page; page += 0x1000; }] *)
Fixpoint pd_loop_4kb (count : nat) (i page : Z) (m : memory) : memory * Z :=
  match count with
  | O => (m, page)
  | S c =>
      let m1 := store64 m (pd_addr + 8 * i)
                  (Z.lor (Z.lor (Z.lor PDE64_PRESENT PDE64_RW) PDE64_USER) page) in
      pd_loop_4kb c (i + 1) (u64 (page + 0x1000)) m1
  end.

(** [for (int j = 0; j < 512; j++)
      { if (page_address > mem_size) break;
        pt[j] = page_address | PRESENT | RW | USER; page_address += 0x1000; }] *)
Fixpoint pt_fill (mem_size : Z) (count : nat) (j pt_addr page_address : Z) (m : memory)
  : memory * Z :=
  match count with
  | O => (m, page_address)
  | S c =>
      if page_address >? mem_size then (m, page_address)
      else
        let m1 := store64 m (pt_addr + 8 * j)
                    (Z.lor (Z.lor (Z.lor page_address PDE64_PRESENT) PDE64_RW) PDE64_USER) in
        pt_fill mem_size c (j + 1) pt_addr (u64 (page_address + 0x1000)) m1
  end.

(** [~0xFFFUL] *)
Definition PT_ADDR_MASK : Z := u64 (Z.lnot 0xFFF).

(** [for (int i = 0; i < mem_size / SIZE2MB; i++)
      { pt_addr = pd[i] & ~0xFFFUL; pt = mem + pt_addr; <pt_fill> }] *)
Fixpoint pt_loop (mem_size : Z) (count : nat) (i page_address : Z) (m : memory)
  : memory * Z :=
  match count with
  | O => (m, page_address)
  | S c =>
      let pt_addr := Z.land (load64 m (pd_addr + 8 * i)) PT_ADDR_MASK in
      let '(m1, pa1) := pt_fill mem_size 512 0 pt_addr page_address m in
      pt_loop mem_size c (i + 1) pa1 m1
  end.

(** The paging tables written by [setup_long_mode], and the final value of
    its local [page].  [mem_size] is a [size_t]: the loop bounds are
    computed modulo [2^64].  The counters are C [int]s compared with these
    bounds; they stay in range when the bound is at most [INT_MAX]. *)
Definition build_tables (m : memory) (mem_size : Z) (page_size : PageSize) : memory * Z :=
  let page := 0x3000 in
  let m := store64 m (pml4_addr + 8 * 0)
             (Z.lor (Z.lor (Z.lor PDE64_PRESENT PDE64_RW) PDE64_USER) pdpt_addr) in
  let m := store64 m (pdpt_addr + 8 * 0)
             (Z.lor (Z.lor (Z.lor PDE64_PRESENT PDE64_RW) PDE64_USER) pd_addr) in
  match page_size with
  | MB2 =>
      let page := u64 ((page / SIZE2MB + 1) * SIZE2MB) in
      let page_address := page in
      (pd_loop_2mb (Z.to_nat (u64 (mem_size / SIZE2MB - 1))) 0 page_address m, page)
  | KB4 =>
      let '(m, page) := pd_loop_4kb (Z.to_nat (mem_size / SIZE2MB)) 0 page m in
      let page_address := page in
      let '(m, _) := pt_loop mem_size (Z.to_nat (mem_size / SIZE2MB)) 0 page_address m in
      (m, page)
  end.

(** Result of [setup_long_mode]: the guest memory, the special registers
    handed to [KVM_SET_SREGS] (if that call was reached) and the C return
    value. *)
Record slm_result := {
  slm_mem : memory;
  slm_sregs : option kvm_sregs;
  slm_ret : Z }.

(** [get_sregs]: what [ioctl(KVM_GET_SREGS)] yields ([None]: it failed);
    [set_sregs_ok]: whether [ioctl(KVM_SET_SREGS)] succeeds. *)
Definition setup_long_mode (get_sregs : option kvm_sregs) (set_sregs_ok : bool)
    (m : memory) (mem_size : Z) (page_size : PageSize) : slm_result :=
  match get_sregs with
  | None => {| slm_mem := m; slm_sregs := None; slm_ret := -1 |}
  | Some sregs =>
      let '(m1, page) := build_tables m mem_size page_size in
      let sregs :=
        {| cs := cs sregs; ds := ds sregs; es := es sregs;
           fs := fs sregs; gs := gs sregs; ss := ss sregs;
           cr0 := Z.lor CR0_PE CR0_PG; cr3 := pml4_addr; cr4 := CR4_PAE;
           efer := Z.lor EFER_LMA EFER_LME |} in
      let sregs := setup_64bit_code_segment sregs in
      if set_sregs_ok
      then {| slm_mem := m1; slm_sregs := Some sregs; slm_ret := to_int page |}
      else {| slm_mem := m1; slm_sregs := Some sregs; slm_ret := -1 |}
  end.

(** The 4 KiB layout read literally: after the bootstrap every
    page-directory slot [i < mem_size / 2MiB] points, with [PS] clear, at a
    table at [0x3000 + i * 4KiB]; every one of the 512 slots of every such
    table holds a present entry for a 4 KiB frame of guest memory; and the
    value returned is [0x3000 + (mem_size / 2MiB) * 4KiB]. *)
Definition kb4_tables_filled (m : memory) (mem_size : Z) : Prop :=
  forall i j, 0 <= i < mem_size / SIZE2MB -> 0 <= j < 512 ->
    exists frame, 0 <= frame /\ frame + 0x1000 <= mem_size /\
      load64 m (0x3000 + i * 0x1000 + 8 * j)
      = Z.lor (Z.lor (Z.lor frame PDE64_PRESENT) PDE64_RW) PDE64_USER.

Definition kb4_directory_set (m : memory) (mem_size : Z) : Prop :=
  forall i, 0 <= i < mem_size / SIZE2MB ->
    load64 m (pd_addr + 8 * i)
    = Z.lor (Z.lor (Z.lor PDE64_PRESENT PDE64_RW) PDE64_USER) (0x3000 + i * 0x1000).

Definition kb4_layout_literal (sregs : kvm_sregs) (m : memory) (mem_size : Z) : Prop :=
  let r := setup_long_mode (Some sregs) true m mem_size KB4 in
  kb4_directory_set (slm_mem r) mem_size
  /\ kb4_tables_filled (slm_mem r) mem_size
  /\ slm_ret r = 0x3000 + (mem_size / SIZE2MB) * 0x1000.

(** Register state used in examples: everything cleared. *)
Definition zero_segment : kvm_segment :=
  {| base := 0; limit := 0; present := 0; type := 0;
     dpl := 0; db := 0; s := 0; l := 0; g := 0 |}.

Definition zero_sregs : kvm_sregs :=
  {| cs := zero_segment; ds := zero_segment; es := zero_segment;
     fs := zero_segment; gs := zero_segment; ss := zero_segment;
     cr0 := 0; cr3 := 0; cr4 := 0; efer := 0 |}.

End Paging.

(** ** Hypervisor initialisation ([init_hypervisor]) *)

Record hypervisor := {
  kvm_fd : Z;
  kvm_run_mmap_size : Z }.

(** What [init_hypervisor] leaves behind: the structure it filled in, the
    value it returned and the descriptors the process holds open. *)
Record init_result := {
  init_hv : hypervisor;
  init_ret : Z;
  init_fds : gset Z }.

(** In both versions [opened] is the value of [open("/dev/kvm", O_RDWR)] and
    [queried] the value of [ioctl(kvm_fd, KVM_GET_VCPU_MMAP_SIZE, 0)];
    [hv] is the caller's structure and [fds] the descriptors open before
    the call. *)
Module NivoA.

Definition init_hypervisor (hv : hypervisor) (fds : gset Z) (opened queried : Z)
  : init_result :=
  let hv := {| kvm_fd := opened; kvm_run_mmap_size := kvm_run_mmap_size hv |} in
  if kvm_fd hv <? 0 then {| init_hv := hv; init_ret := -1; init_fds := fds |}
  else
    let fds := {[ opened ]} ∪ fds in
    let hv := {| kvm_fd := kvm_fd hv; kvm_run_mmap_size := queried |} in
    if kvm_run_mmap_size hv <? 0
    then {| init_hv := hv; init_ret := -1; init_fds := fds ∖ {[ kvm_fd hv ]} |}
    else {| init_hv := hv; init_ret := 0; init_fds := fds |}.

End NivoA.

Module NivoC.

Definition init_hypervisor (hv : hypervisor) (fds : gset Z) (opened queried : Z)
  : init_result :=
  let hv := {| kvm_fd := opened; kvm_run_mmap_size := kvm_run_mmap_size hv |} in
  if kvm_fd hv <? 0 then {| init_hv := hv; init_ret := -1; init_fds := fds |}
  else
    let fds := {[ opened ]} ∪ fds in
    let hv := {| kvm_fd := kvm_fd hv; kvm_run_mmap_size := queried |} in
    if kvm_run_mmap_size hv <? 0
    then {| init_hv := hv; init_ret := -1; init_fds := fds |}
    else {| init_hv := hv; init_ret := 0; init_fds := fds |}.

End NivoC.

(** ** The paravirtual file engine: data *)

Definition OPEN : Z := 1.
Definition CLOSE : Z := 2.
Definition READ : Z := 3.
Definition WRITE : Z := 4.
Definition FINISH : Z := 0.

Definition EOF : Z := -1.

Definition KVM_EXIT_IO_IN : Z := 0.
Definition KVM_EXIT_IO_OUT : Z := 1.

Definition O_RDONLY : Z := 0.
Definition O_WRONLY : Z := 1.
Definition O_RDWR : Z := 2.
Definition O_CREAT : Z := 64.
Definition O_TRUNC : Z := 512.
Definition O_APPEND : Z := 1024.

(** Conversion to [unsigned] / [mode_t] and to a byte. *)
Definition u32 (x : Z) : Z := x mod 2 ^ 32.
Definition byte (x : Z) : Z := x mod 256.

(** [struct file].  [next] is a pointer to another record ([None] is
    [NULL]); [ime] is the 50-byte name array, a byte that was never stored
    being [None] (the record comes from [malloc]). *)
Record file := {
  fd : Z;
  flags : Z;
  mode : Z;
  cnt : Z;
  next : option Z;
  ime : list (option Z) }.

Definition IME_SIZE : Z := 50.

(** A [struct file**]: the address of the guest's [file_head] or of the
    [next] field of the record at address [a]. *)
Inductive slot := head_slot | next_slot (a : Z).

(** The part of [struct kvm_run] that the monitor looks at.  [io_data] is
    the 32-bit word found at [data_offset] in the run region, as an unsigned
    number; its low byte is what a [char] access sees. *)
Record run_region := {
  exit_reason : Z;
  io_direction : Z;
  io_size : Z;
  io_port : Z;
  io_data : Z;
  suberror : Z }.

(** [struct guest], without the handles that the file engine and the
    console never touch.  [heap] holds the [struct file] records that this
    guest allocated and has not freed, by address, and [heap_next] is the
    address the next [malloc] returns: records are private to the guest
    that allocated them, and an address is not handed out twice. *)
Record guest := {
  pty_master : Z;
  lock : Z;
  id : Z;
  kvm_run : run_region;
  file_head : option Z;
  file_indirect : slot;
  current_file : option Z;
  heap : gmap Z file;
  heap_next : Z }.

Definition set_lock (g : guest) (v : Z) : guest :=
  {| pty_master := pty_master g; lock := v; id := id g; kvm_run := kvm_run g;
     file_head := file_head g; file_indirect := file_indirect g;
     current_file := current_file g; heap := heap g; heap_next := heap_next g |}.

Definition set_kvm_run (g : guest) (v : run_region) : guest :=
  {| pty_master := pty_master g; lock := lock g; id := id g; kvm_run := v;
     file_head := file_head g; file_indirect := file_indirect g;
     current_file := current_file g; heap := heap g; heap_next := heap_next g |}.

Definition set_file_head (g : guest) (v : option Z) : guest :=
  {| pty_master := pty_master g; lock := lock g; id := id g; kvm_run := kvm_run g;
     file_head := v; file_indirect := file_indirect g;
     current_file := current_file g; heap := heap g; heap_next := heap_next g |}.

Definition set_file_indirect (g : guest) (v : slot) : guest :=
  {| pty_master := pty_master g; lock := lock g; id := id g; kvm_run := kvm_run g;
     file_head := file_head g; file_indirect := v;
     current_file := current_file g; heap := heap g; heap_next := heap_next g |}.

Definition set_current_file (g : guest) (v : option Z) : guest :=
  {| pty_master := pty_master g; lock := lock g; id := id g; kvm_run := kvm_run g;
     file_head := file_head g; file_indirect := file_indirect g;
     current_file := v; heap := heap g; heap_next := heap_next g |}.

Definition set_heap (g : guest) (v : gmap Z file) : guest :=
  {| pty_master := pty_master g; lock := lock g; id := id g; kvm_run := kvm_run g;
     file_head := file_head g; file_indirect := file_indirect g;
     current_file := current_file g; heap := v; heap_next := heap_next g |}.

Definition set_heap_next (g : guest) (v : Z) : guest :=
  {| pty_master := pty_master g; lock := lock g; id := id g; kvm_run := kvm_run g;
     file_head := file_head g; file_indirect := file_indirect g;
     current_file := current_file g; heap := heap g; heap_next := v |}.

Definition set_fd (f : file) (v : Z) : file :=
  {| fd := v; flags := flags f; mode := mode f; cnt := cnt f; next := next f; ime := ime f |}.
Definition set_flags (f : file) (v : Z) : file :=
  {| fd := fd f; flags := v; mode := mode f; cnt := cnt f; next := next f; ime := ime f |}.
Definition set_mode (f : file) (v : Z) : file :=
  {| fd := fd f; flags := flags f; mode := v; cnt := cnt f; next := next f; ime := ime f |}.
Definition set_next (f : file) (v : option Z) : file :=
  {| fd := fd f; flags := flags f; mode := mode f; cnt := cnt f; next := v; ime := ime f |}.
Definition set_name (f : file) (c : Z) (name : list (option Z)) : file :=
  {| fd := fd f; flags := flags f; mode := mode f; cnt := c; next := next f; ime := name |}.

(** Accesses to the data word of the run region. *)
Definition data_int (r : run_region) : Z := to_int (io_data r).
Definition data_char (r : run_region) : Z := byte (io_data r).

Definition set_io_data (r : run_region) (v : Z) : run_region :=
  {| exit_reason := exit_reason r; io_direction := io_direction r; io_size := io_size r;
     io_port := io_port r; io_data := v; suberror := suberror r |}.

Definition put_int (g : guest) (v : Z) : guest :=
  set_kvm_run g (set_io_data (kvm_run g) (u32 v)).

Definition put_char (g : guest) (c : Z) : guest :=
  set_kvm_run g (set_io_data (kvm_run g)
                   (io_data (kvm_run g) - byte (io_data (kvm_run g)) + byte c)).

(** ** Undefined behaviour and partial results *)

Inductive ub :=
| OutOfBounds      (* access outside an array *)
| NullDeref        (* access through a null pointer *)
| UseAfterFree     (* access to, or release of, a freed record *)
| Indeterminate    (* use of a value that was never set *)
| NoReturnValue.   (* use of the value of a call that returned none *)

Inductive res (A : Type) :=
| Ok (a : A)
| Fault (u : ub).
Arguments Ok {A} a.
Arguments Fault {A} u.

#[global] Instance res_bind : MBind res :=
  fun A B (f : A -> res B) (m : res A) =>
    match m with Ok a => f a | Fault u => Fault u end.

(** [vm->current_file->...]: the record [current_file] points at. *)
Definition cur (g : guest) : res (Z * file) :=
  match current_file g with
  | None => Fault NullDeref
  | Some a =>
      match heap g !! a with
      | None => Fault UseAfterFree
      | Some f => Ok (a, f)
      end
  end.

(** The C string held in a name array: the bytes before the first NUL. *)
Fixpoint c_string (name : list (option Z)) : res (list Z) :=
  match name with
  | [] => Fault OutOfBounds
  | None :: _ => Fault Indeterminate
  | Some c :: rest =>
      if c =? 0 then Ok [] else str ← c_string rest; Ok (c :: str)
  end.

(** [sprintf("%d")] of an [int]. *)
Fixpoint digits (fuel : nat) (n : Z) (acc : list Z) : list Z :=
  match fuel with
  | O => acc
  | S fuel' =>
      let acc' := (48 + n mod 10) :: acc in
      if n / 10 =? 0 then acc' else digits fuel' (n / 10) acc'
  end.

Definition print_int (n : Z) : list Z :=
  if n <? 0 then 45 :: digits 10 (- n) [] else digits 10 n [].

(** ["vm_%d_"] followed by the guest's name for the file. *)
Definition sandbox_path (vm_id : Z) (name : list Z) : list Z :=
  [118; 109; 95] ++ print_int vm_id ++ [95] ++ name.

(** ** The host operating system

    The calls the monitor makes, as functions of the state of the host:
    [host_access h path] is [access(path, F_OK) == 0]; [host_open] is
    [open(path, flags, mode)]; [host_close] is [close(fd)];
    [host_read h fd] is [read(fd, &c, 1)], giving [Some c] exactly when the
    call returns 1; [host_write h fd c] is [write(fd, &c, 1)]. *)
Class Host (H : Type) := {
  host_access : H -> list Z -> bool;
  host_open : H -> list Z -> Z -> Z -> H * Z;
  host_close : H -> Z -> H * Z;
  host_read : H -> Z -> H * option Z;
  host_write : H -> Z -> Z -> H }.

(** ** The paravirtual file engine: operations

    A handler runs on the state of the host and on its guest.  The only
    points at which it synchronises with the other guests are the two
    semaphore calls, so a handler is a tree: it returns ([Ret]), waits for
    the permit of [file_mutex] and goes on from the host state it then finds
    ([SemWait]), releases the permit likewise ([SemPost]), has undefined
    behaviour ([Undef]) or never leaves a loop ([Diverge]). *)

Inductive proc (H A : Type) : Type :=
| Ret (h : H) (g : guest) (a : A)
| SemWait (h : H) (g : guest) (k : H -> proc H A)
| SemPost (h : H) (g : guest) (k : H -> proc H A)
| Undef (u : ub)
| Diverge.
Arguments Ret {H A} h g a.
Arguments SemWait {H A} h g k.
Arguments SemPost {H A} h g k.
Arguments Undef {H A} u.
Arguments Diverge {H A}.

Fixpoint proc_bind {H A B} (m : proc H A) (f : H -> guest -> A -> proc H B) : proc H B :=
  match m with
  | Ret h g a => f h g a
  | SemWait h g k => SemWait h g (fun h' => proc_bind (k h') f)
  | SemPost h g k => SemPost h g (fun h' => proc_bind (k h') f)
  | Undef u => Undef u
  | Diverge => Diverge
  end.

Definition lift {H A} (r : res (H * guest * A)) : proc H A :=
  match r with
  | Ok (h, g, a) => Ret h g a
  | Fault u => Undef u
  end.

(** Outcome of a walk along the list of records. *)
Inductive scan (A : Type) :=
| Found (a : A)
| NotFound
| Dangling
| OutOfFuel.
Arguments Found {A} a.
Arguments NotFound {A}.
Arguments Dangling {A}.
Arguments OutOfFuel {A}.

(** The record [init_file] returns.  The allocation is taken to succeed
    (when [malloc] fails the process exits); the name array is not
    initialised. *)
Definition init_file : file :=
  {| fd := -1; flags := -1; mode := u32 (-1); cnt := 0; next := None;
     ime := replicate (Z.to_nat IME_SIZE) None |}.

Definition load_slot (vm : guest) (p : slot) : res (option Z) :=
  match p with
  | head_slot => Ok (file_head vm)
  | next_slot b =>
      match heap vm !! b with
      | Some f => Ok (next f)
      | None => Fault UseAfterFree
      end
  end.

Definition store_slot (vm : guest) (p : slot) (v : option Z) : res guest :=
  match p with
  | head_slot => Ok (set_file_head vm v)
  | next_slot b =>
      match heap vm !! b with
      | Some f => Ok (set_heap vm (<[b := set_next f v]> (heap vm)))
      | None => Fault UseAfterFree
      end
  end.

(** [for (current = file_head; current; current = current->next)
      if (current->fd == data) { found; break; }] *)
Fixpoint find_fd (fuel : nat) (hp : gmap Z file) (current : option Z) (data : Z) : scan Z :=
  match fuel with
  | O => OutOfFuel
  | S fuel' =>
      match current with
      | None => NotFound
      | Some a =>
          match hp !! a with
          | None => Dangling
          | Some f => if fd f =? data then Found a else find_fd fuel' hp (next f) data
          end
      end
  end.

(** [for (indirect = &vm->file_head; *indirect; indirect = &( *indirect)->next)
      if ( *indirect == vm->current_file)
        { *indirect = vm->current_file->next; break; }] *)
Fixpoint unlink (fuel : nat) (vm : guest) (indirect : slot) : scan guest :=
  match fuel with
  | O => OutOfFuel
  | S fuel' =>
      match load_slot vm indirect with
      | Fault _ => Dangling
      | Ok None => NotFound
      | Ok (Some a) =>
          if decide (Some a = current_file vm) then
            match heap vm !! a with
            | None => Dangling
            | Some f =>
                match store_slot vm indirect (next f) with
                | Ok vm' => Found vm'
                | Fault _ => Dangling
                end
            end
          else unlink fuel' vm (next_slot a)
      end
  end.

(** [free(p)] *)
Definition free (vm : guest) (p : option Z) : res guest :=
  match p with
  | None => Ok vm
  | Some a =>
      match heap vm !! a with
      | Some _ => Ok (set_heap vm (delete a (heap vm)))
      | None => Fault UseAfterFree
      end
  end.

Section Engine.
Context {H : Type} `{Host H}.

Definition start_file_operation (h : H) (vm : guest) (operation : Z) : proc H Z :=
  SemWait h vm (fun h =>
    let vm := set_lock vm operation in
    if operation =? OPEN then
      let new_file := heap_next vm in
      let vm := set_heap_next (set_heap vm (<[new_file := init_file]> (heap vm)))
                  (new_file + 1) in
      match store_slot vm (file_indirect vm) (Some new_file) with
      | Fault u => Undef u
      | Ok vm =>
          Ret h (set_current_file (set_file_indirect vm (next_slot new_file))
                                  (Some new_file)) 0
      end
    else Ret h vm 0).

Definition end_file_operation (h : H) (vm : guest) : proc H Z :=
  SemPost h vm (fun h => Ret h (set_current_file (set_lock vm 0) None) 0).

Definition check_path_exists (h : H) (vm : guest) : res (H * Z) :=
  '(_, f) ← cur vm;
  name ← c_string (ime f);
  let path := sandbox_path (id vm) name in
  if host_access h path then Ok (host_open h path (flags f) (mode f))
  else Ok (h, -1).

(** The mode [0777] is 511. *)
Definition create_local_copy (h : H) (vm : guest) : res H :=
  '(_, f) ← cur vm;
  name ← c_string (ime f);
  let path := sandbox_path (id vm) name in
  Ok (fst (host_open h path O_CREAT 511)).

Definition set_cur_fd (vm : guest) (v : Z) : res guest :=
  '(a, f) ← cur vm;
  Ok (set_heap vm (<[a := set_fd f v]> (heap vm))).

Definition opened_file_op_flags (h : H) (vm : guest) (data : Z) : proc H Z :=
  lift (
    '(a, f) ← cur vm;
    if flags f =? -1 then
      Ok (h, set_heap vm (<[a := set_flags f data]> (heap vm)), 0)
    else
      let vm := set_heap vm (<[a := set_mode f (u32 data)]> (heap vm)) in
      '(h, local_fd) ← check_path_exists h vm;
      if local_fd <? 0 then
        '(_, f) ← cur vm;
        if negb (Z.land (flags f) (Z.lor (Z.lor (Z.lor O_RDWR O_WRONLY) O_TRUNC) O_APPEND) =? 0)
        then
          h ← create_local_copy h vm;
          '(h, v) ← check_path_exists h vm;
          vm ← set_cur_fd vm v;
          Ok (h, vm, 0)
        else
          name ← c_string (ime f);
          let '(h, v) := host_open h name (flags f) (mode f) in
          vm ← set_cur_fd vm v;
          Ok (h, vm, 0)
      else
        vm ← set_cur_fd vm local_fd;
        Ok (h, vm, 0)).

Definition opened_file_op_send_fd (h : H) (vm : guest) : proc H Z :=
  match cur vm with
  | Fault u => Undef u
  | Ok (_, f) => end_file_operation h (put_int vm (fd f))
  end.

Definition opened_file_op_name (h : H) (vm : guest) (data : Z) : proc H Z :=
  lift (
    '(a, f) ← cur vm;
    if (0 <=? cnt f) && (cnt f <? IME_SIZE) then
      Ok (h, set_heap vm (<[a := set_name f (cnt f + 1)
                                   (<[Z.to_nat (cnt f) := Some data]> (ime f))]> (heap vm)), 0)
    else Fault OutOfBounds).

Definition get_file_descriptor (h : H) (vm : guest) (data : Z) : proc H Z :=
  match find_fd (S (size (heap vm))) (heap vm) (file_head vm) data with
  | Found a => Ret h (set_current_file vm (Some a)) 0
  | NotFound => Ret h vm 0
  | Dangling => Undef UseAfterFree
  | OutOfFuel => Diverge
  end.

Definition close_op_status (h : H) (vm : guest) : proc H Z :=
  match
    (match current_file vm with
     | None => Ok (h, -1)
     | Some _ => '(_, f) ← cur vm; Ok (host_close h (fd f))
     end)
  with
  | Fault u => Undef u
  | Ok (h, status) =>
      match unlink (S (size (heap vm))) vm head_slot with
      | OutOfFuel => Diverge
      | Dangling => Undef UseAfterFree
      | unlinked =>
          let vm := match unlinked with Found vm' => vm' | _ => vm end in
          match free vm (current_file vm) with
          | Fault u => Undef u
          | Ok vm => Ret h (put_int vm status) 0
          end
      end
  end.

Definition read_file (h : H) (vm : guest) : proc H Z :=
  match current_file vm with
  | None => Ret h (put_char vm EOF) 0
  | Some _ =>
      lift ('(_, f) ← cur vm;
            let '(h, r) := host_read h (fd f) in
            Ok (h, put_char vm (match r with Some c => c | None => EOF end), 0))
  end.

Definition write_file (h : H) (vm : guest) (data : Z) : proc H Z :=
  match current_file vm with
  | None => Ret h (put_char vm EOF) 0
  | Some _ =>
      lift ('(_, f) ← cur vm; Ok (host_write h (fd f) data, vm, 0))
  end.

Definition handle_file (h : H) (vm : guest) : proc H Z :=
  let io := kvm_run vm in
  if (io_direction io =? KVM_EXIT_IO_OUT) && (io_size io =? 4) then
    let data := data_int io in
    if lock vm =? 0 then start_file_operation h vm data
    else if lock vm =? OPEN then opened_file_op_flags h vm data
    else if data =? FINISH then end_file_operation h vm
    else get_file_descriptor h vm data
  else if (io_direction io =? KVM_EXIT_IO_OUT) && (io_size io =? 1) then
    let data := data_char io in
    if lock vm =? OPEN then opened_file_op_name h vm data
    else if lock vm =? WRITE then write_file h vm data
    else Ret h vm 0
  else if (io_direction io =? KVM_EXIT_IO_IN) && (io_size io =? 4) then
    if lock vm =? CLOSE then close_op_status h vm
    else if lock vm =? OPEN then opened_file_op_send_fd h vm
    else Ret h vm 0
  else if (io_direction io =? KVM_EXIT_IO_IN) && (io_size io =? 1) then
    if lock vm =? READ then read_file h vm
    else Ret h vm 0
  else Ret h vm 0.

(** *** Exit handlers and the run loop

    A handler's result is [Some v] when it executes [return v] and [None]
    when control runs off the end of its body.  [c0] is whatever the local
    variable [c] of [exit_io] holds before it is assigned. *)
Definition exit_io (c0 : Z) (h : H) (vm : guest) : proc H (option Z) :=
  let io := kvm_run vm in
  if (io_direction io =? KVM_EXIT_IO_OUT) && (io_port io =? 0xE9) then
    let c := data_char io in
    if io_size io =? 1 then Ret (host_write h (pty_master vm) c) vm (Some 0)
    else Undef OutOfBounds
  else if (io_direction io =? KVM_EXIT_IO_IN) && (io_port io =? 0xE9) then
    let '(h, r) := host_read h (pty_master vm) in
    let c := match r with Some c => c | None => c0 end in
    Ret h (put_char vm c) (Some 0)
  else if io_port io =? 0x278 then
    proc_bind (handle_file h vm) (fun h vm _ => Ret h vm None)
  else Ret h vm (Some (-1)).

Definition exit_halt (h : H) (vm : guest) : proc H (option Z) := Ret h vm (Some 1).
Definition exit_shutdown (h : H) (vm : guest) : proc H (option Z) := Ret h vm (Some 1).
Definition exit_internal_error (h : H) (vm : guest) : proc H (option Z) :=
  Ret h vm (Some (-1)).

(** [handlers[exit_reason]]: [None] is an index outside the array, [Some
    None] a null entry. *)
Definition handlers (c0 : Z) (reason : Z)
  : option (option (H -> guest -> proc H (option Z))) :=
  if (reason <? 0) || (17 <? reason) then None
  else if reason =? 2 then Some (Some (exit_io c0))
  else if reason =? 5 then Some (Some exit_halt)
  else if reason =? 8 then Some (Some exit_shutdown)
  else if reason =? 17 then Some (Some exit_internal_error)
  else Some None.

(** [run_guest] along a finite sequence of returns of [ioctl(KVM_RUN)]:
    each gives the value of the call and the run region the guest left.
    The result is the last value of [stop]. *)
Fixpoint run_guest (c0 : Z) (exits : list (Z * run_region)) (stop : Z) (h : H) (vm : guest)
  : proc H Z :=
  match exits with
  | [] => Ret h vm stop
  | (ret, r) :: rest =>
      if stop =? 0 then
        if ret <? 0 then Ret h vm stop
        else
          let vm := set_kvm_run vm r in
          match handlers c0 (exit_reason r) with
          | None => Undef OutOfBounds
          | Some None => run_guest c0 rest (-1) h vm
          | Some (Some handler) =>
              proc_bind (handler h vm) (fun h vm v =>
                match v with
                | None => Undef NoReturnValue
                | Some stop => run_guest c0 rest stop h vm
                end)
          end
      else Ret h vm stop
  end.

End Engine.

(** The file state [init_guest] sets up. *)
Definition init_guest (pty vm_id : Z) (r : run_region) : guest :=
  {| pty_master := pty; lock := 0; id := vm_id; kvm_run := r;
     file_head := None; file_indirect := head_slot; current_file := None;
     heap := ∅; heap_next := 1 |}.

(** ** One guest on its own

    [exec sem p] runs a handler to its end when no other guest interferes;
    [sem] is the value of [file_mutex].  Waiting on a semaphore that holds
    no permit never ends. *)
Inductive outcome (H A : Type) :=
| Finished (sem : Z) (h : H) (g : guest) (a : A)
| Blocked (h : H) (g : guest)
| Crashed (u : ub)
| Looping.
Arguments Finished {H A} sem h g a.
Arguments Blocked {H A} h g.
Arguments Crashed {H A} u.
Arguments Looping {H A}.

Fixpoint exec {H A} (sem : Z) (p : proc H A) : outcome H A :=
  match p with
  | Ret h g a => Finished sem h g a
  | SemWait h g k => if 0 <? sem then exec (sem - 1) (k h) else Blocked h g
  | SemPost h g k => exec (sem + 1) (k h)
  | Undef u => Crashed u
  | Diverge => Looping
  end.

(** The run region at an I/O exit on the file port. *)
Definition file_io (direction size data : Z) : run_region :=
  {| exit_reason := 2; io_direction := direction; io_size := size;
     io_port := 0x278; io_data := data; suberror := 0 |}.

Definition out_dword (v : Z) : run_region := file_io KVM_EXIT_IO_OUT 4 (u32 v).
Definition out_byte (c : Z) : run_region := file_io KVM_EXIT_IO_OUT 1 (byte c).
Definition in_dword : run_region := file_io KVM_EXIT_IO_IN 4 0.
Definition in_byte : run_region := file_io KVM_EXIT_IO_IN 1 0.

(** The exits a guest causes when it sends a name: its bytes, then NUL. *)
Definition send_name (name : list Z) : list run_region :=
  map out_byte name ++ [out_byte 0].

(** Serving a sequence of exits on the file port, one handler after the
    other. *)
Fixpoint serve {H} `{Host H} (sem : Z) (h : H) (vm : guest) (exits : list run_region)
  : outcome H Z :=
  match exits with
  | [] => Finished sem h vm 0
  | r :: rest =>
      match exec sem (handle_file h (set_kvm_run vm r)) with
      | Finished sem h vm _ => serve sem h vm rest
      | other => other
      end
  end.

(** ** A guest among others

    [completes p g a]: the handler [p] comes to its end, leaves the guest in
    state [g] and returns [a], whatever the other guests did to the host
    while it waited. *)
Inductive completes {H A} : proc H A -> guest -> A -> Prop :=
| completes_ret h g a : completes (Ret h g a) g a
| completes_wait h g k h' g' a : completes (k h') g' a -> completes (SemWait h g k) g' a
| completes_post h g k h' g' a : completes (k h') g' a -> completes (SemPost h g k) g' a.

(** [served g]: [g] is the state of a guest between two handlers, some time
    after [init_guest].  The run region changes with every exit. *)
Inductive served {H} `{Host H} : guest -> Prop :=
| served_init pty vm_id r : served (init_guest pty vm_id r)
| served_exit g r : served g -> served (set_kvm_run g r)
| served_file g h g' v : served g -> completes (handle_file h g) g' v -> served g'.

(** ** Several guests and the semaphore

    Each guest has a thread.  Between the two semaphore calls and the
    statements around them the threads interleave freely; the rest of a
    handler touches nothing that another thread reads.  An exit on the
    file port is served by [handle_file]; an I/O exit on any other port by
    [exit_io], which makes no semaphore call there. *)
Inductive thread (H : Type) :=
| InGuest (g : guest)
    (* in [KVM_RUN], or between two handlers *)
| Waiting (g : guest) (k : H -> proc H Z)
    (* inside [sem_wait], which has not returned yet *)
| Acquired (g : guest) (k : H -> proc H Z)
    (* [sem_wait] has returned; the rest of the handler is still to run *)
| Released (g : guest) (k : H -> proc H Z).
    (* [sem_post] has returned; the rest of the handler is still to run *)
Arguments InGuest {H} g.
Arguments Waiting {H} g k.
Arguments Acquired {H} g k.
Arguments Released {H} g k.

(** The [struct guest] of a thread, as it is in memory at that moment. *)
Definition guest_of {H} (t : thread H) : guest :=
  match t with
  | InGuest g | Waiting g _ | Acquired g _ | Released g _ => g
  end.

Definition releasing {H} (t : thread H) : bool :=
  match t with Released _ _ => true | _ => false end.

Record system (H : Type) := {
  file_mutex : Z;
  host : H;
  threads : list (thread H) }.
Arguments file_mutex {H} _.
Arguments host {H} _.
Arguments threads {H} _.

Inductive event (H : Type) :=
| FileExit (i : nat) (r : run_region)  (* guest [i] traps on the file port *)
| Acquire (i : nat)                    (* its [sem_wait] returns *)
| Resume (i : nat)                     (* it runs on after a semaphore call *)
| HostChange (h : H)                   (* anything else that happens on the host *)
| ConsoleExit (i : nat) (c0 : Z) (r : run_region).
                                       (* guest [i] traps on another port *)
Arguments FileExit {H} i r.
Arguments Acquire {H} i.
Arguments Resume {H} i.
Arguments HostChange {H} h.
Arguments ConsoleExit {H} i c0 r.

(** Thread [i] runs the handler [p] up to its next semaphore call. *)
Definition settle {H} (sys : system H) (i : nat) (p : proc H Z) : option (system H) :=
  match p with
  | Ret h g _ =>
      Some {| file_mutex := file_mutex sys; host := h;
              threads := <[i := InGuest g]> (threads sys) |}
  | SemWait h g k =>
      Some {| file_mutex := file_mutex sys; host := h;
              threads := <[i := Waiting g k]> (threads sys) |}
  | SemPost h g k =>
      Some {| file_mutex := file_mutex sys + 1; host := h;
              threads := <[i := Released g k]> (threads sys) |}
  | Undef _ | Diverge => None
  end.

Definition sched {H} `{Host H} (sys : system H) (e : event H) : option (system H) :=
  match e with
  | FileExit i r =>
      match threads sys !! i with
      | Some (InGuest g) => settle sys i (handle_file (host sys) (set_kvm_run g r))
      | _ => None
      end
  | Acquire i =>
      match threads sys !! i with
      | Some (Waiting g k) =>
          if 0 <? file_mutex sys then
            Some {| file_mutex := file_mutex sys - 1; host := host sys;
                    threads := <[i := Acquired g k]> (threads sys) |}
          else None
      | _ => None
      end
  | Resume i =>
      match threads sys !! i with
      | Some (Acquired g k) | Some (Released g k) => settle sys i (k (host sys))
      | _ => None
      end
  | HostChange h =>
      Some {| file_mutex := file_mutex sys; host := h; threads := threads sys |}
  | ConsoleExit i c0 r =>
      match threads sys !! i with
      | Some (InGuest g) =>
          if io_port r =? 0x278 then None
          else
            match exit_io c0 (host sys) (set_kvm_run g r) with
            | Ret h g' _ =>
                Some {| file_mutex := file_mutex sys; host := h;
                        threads := <[i := InGuest g']> (threads sys) |}
            | _ => None
            end
      | _ => None
      end
  end.

Fixpoint sched_all {H} `{Host H} (sys : system H) (es : list (event H)) : option (system H) :=
  match es with
  | [] => Some sys
  | e :: es' =>
      match sched sys e with
      | Some sys' => sched_all sys' es'
      | None => None
      end
  end.

(** [main]: [sem_init(&file_mutex, 0, 1)], then one [init_guest] per image,
    with identifiers counted from 0.  [ptys] gives a console descriptor for
    each guest. *)
Fixpoint boot_guests (next_id : Z) (ptys : list Z) : list guest :=
  match ptys with
  | [] => []
  | pty :: rest => init_guest pty next_id (file_io 0 0 0) :: boot_guests (next_id + 1) rest
  end.

Definition boot {H} (h : H) (ptys : list Z) : system H :=
  {| file_mutex := 1; host := h; threads := map InGuest (boot_guests 0 ptys) |}.

Inductive reachable {H} `{Host H} : system H -> Prop :=
| reachable_boot h ptys : reachable (boot h ptys)
| reachable_step sys e sys' : reachable sys -> sched sys e = Some sys' -> reachable sys'.

(** [file_lock] of guest [i] differs from IDLE. *)
Definition mid_operation {H} (sys : system H) (i : nat) : Prop :=
  exists t, threads sys !! i = Some t /\ lock (guest_of t) <> 0.

(** ** A small host for examples

    Paths in [toy_files] exist; opening a path in [toy_denied] fails; a
    successful [open] returns [toy_next_fd]; [O_CREAT] creates a missing
    file.  Files are empty and writes are dropped. *)
Record toy_host := {
  toy_files : list (list Z);
  toy_denied : list (list Z);
  toy_next_fd : Z }.

#[global] Instance toy_Host : Host toy_host := {
  host_access h path := bool_decide (path ∈ toy_files h);
  host_open h path fl md :=
    if bool_decide (path ∈ toy_denied h) then (h, -1)
    else if bool_decide (path ∈ toy_files h) then
      ({| toy_files := toy_files h; toy_denied := toy_denied h;
          toy_next_fd := toy_next_fd h + 1 |}, toy_next_fd h)
    else if Z.land fl O_CREAT =? 0 then (h, -1)
    else
      ({| toy_files := path :: toy_files h; toy_denied := toy_denied h;
          toy_next_fd := toy_next_fd h + 1 |}, toy_next_fd h);
  host_close h d := (h, 0);
  host_read h d := (h, None);
  host_write h d c := h }.

(** ** States used in examples *)

Definition toy0 : toy_host := {| toy_files := []; toy_denied := []; toy_next_fd := 3 |}.

(** The run region at a one-byte input exit on the console port. *)
Definition console_in : run_region :=
  {| exit_reason := 2; io_direction := KVM_EXIT_IO_IN; io_size := 1;
     io_port := 0xE9; io_data := 0; suberror := 0 |}.

(** Guest 0 after [OUT dword OPEN] and the name "p": the state in which the
    engine expects the flags. *)
Definition open_named : guest :=
  Eval vm_compute in
    match serve 1 toy0 (init_guest 5 0 in_byte) (out_dword OPEN :: send_name [112]) with
    | Finished _ _ vm _ => vm
    | _ => init_guest 5 0 in_byte
    end.

Definition open_named_file : file :=
  Eval vm_compute in default init_file (heap open_named !! 1).

(** Guest 0 right after [OUT dword OPEN], before any byte of the name. *)
Definition open_started : guest :=
  Eval vm_compute in
    match serve 1 toy0 (init_guest 5 0 in_byte) [out_dword OPEN] with
    | Finished _ _ vm _ => vm
    | _ => init_guest 5 0 in_byte
    end.

Definition open_started_file : file :=
  Eval vm_compute in default init_file (heap open_started !! 1).

(** Guest 0 after its first [OUT dword CLOSE]. *)
Definition close_started : guest :=
  set_lock (set_kvm_run (init_guest 5 0 in_byte) (out_dword CLOSE)) CLOSE.

(** The descriptor that [opened_file_op_flags] arrives at once the mode is
    in, and the host state it leaves, for a record whose name array reads
    [name]: the two calls of [check_path_exists], [create_local_copy] and
    the plain [open], put together. *)
Definition resolve {H} `{Host H} (h : H) (vm_id : Z) (name : list Z) (fl md : Z) : H * Z :=
  let path := sandbox_path vm_id name in
  let '(h, local_fd) :=
    if host_access h path then host_open h path fl md else (h, -1) in
  if local_fd <? 0 then
    if negb (Z.land fl (Z.lor (Z.lor (Z.lor O_RDWR O_WRONLY) O_TRUNC) O_APPEND) =? 0) then
      let h := fst (host_open h path O_CREAT 511) in
      if host_access h path then host_open h path fl md else (h, -1)
    else host_open h name fl md
  else (h, local_fd).

(** A host on which the guest-0 copy of the file "p" exists but cannot be
    opened, next to a readable "p". *)
Definition toy_denied_copy : toy_host :=
  {| toy_files := [sandbox_path 0 [112]; [112]];
     toy_denied := [sandbox_path 0 [112]];
     toy_next_fd := 3 |}.

(** ** Predicates on handlers and on the set of guests *)

(** A handler that makes no semaphore call. *)
Definition quiet {H A} (p : proc H A) : Prop :=
  match p with
  | SemWait _ _ _ | SemPost _ _ _ => False
  | _ => True
  end.

(** ... and does not touch the lock. *)
Definition keeps_lock {H A} (vm : guest) (p : proc H A) : Prop :=
  match p with
  | Ret _ vm' _ => lock vm' = lock vm
  | SemWait _ _ _ | SemPost _ _ _ => False
  | _ => True
  end.

(** What a call of [handle_file] does to the lock and to the semaphore:
    it returns with the lock as it was, or it starts an operation from the
    idle state by waiting for the permit, or it ends the operation in
    progress by posting the permit and then clearing the lock. *)
Definition lock_effect {H} (vm : guest) (p : proc H Z) : Prop :=
  match p with
  | Ret _ vm' _ => lock vm' = lock vm
  | SemWait _ g k => g = vm /\ lock vm = 0 /\ forall h', quiet (k h')
  | SemPost _ g k =>
      lock vm <> 0 /\ lock g = lock vm
      /\ forall h', exists g', k h' = Ret h' g' 0 /\ lock g' = 0 /\ current_file g' = None
  | Undef _ | Diverge => True
  end.

(** A thread holds the permit of [file_mutex] from the return of
    [sem_wait] on; between handlers this shows as a lock other than IDLE. *)
Definition holds_permit {H} (t : thread H) : bool :=
  match t with
  | InGuest g => negb (lock g =? 0)
  | Acquired _ _ => true
  | Waiting _ _ | Released _ _ => false
  end.

Fixpoint permits_held {H} (ts : list (thread H)) : Z :=
  match ts with
  | [] => 0
  | t :: rest => (if holds_permit t then 1 else 0) + permits_held rest
  end.

(** What is left of the handler of a thread stopped at a semaphore call. *)
Definition thread_ok {H} (t : thread H) : Prop :=
  match t with
  | InGuest _ => True
  | Waiting g k | Acquired g k => lock g = 0 /\ forall h, quiet (k h)
  | Released g k =>
      forall h, exists g', k h = Ret h g' 0 /\ lock g' = 0 /\ current_file g' = None
  end.

Definition token_invariant {H} (sys : system H) : Prop :=
  0 <= file_mutex sys
  /\ file_mutex sys + permits_held (threads sys) <= 1
  /\ Forall thread_ok (threads sys).

(** Guest 0 runs a whole OPEN of the file "p" up to the [sem_post] of
    [end_file_operation]; guest 1 then starts an OPEN of its own. *)
Definition overlap_schedule : list (event toy_host) :=
  [ FileExit 0 (out_dword OPEN); Acquire 0; Resume 0;
    FileExit 0 (out_byte 112); FileExit 0 (out_byte 0);
    FileExit 0 (out_dword O_RDONLY); FileExit 0 (out_dword 0);
    FileExit 0 in_dword;
    FileExit 1 (out_dword OPEN); Acquire 1; Resume 1 ].

(** ** The list of open files

    [chain hp p l]: starting from the pointer [p] and following [next], one
    meets exactly the records at the addresses [l], all of them live and
    distinct, and then [NULL]. *)
Inductive chain (hp : gmap Z file) : option Z -> list Z -> Prop :=
| chain_nil : chain hp None []
| chain_cons a f l :
    hp !! a = Some f -> a ∉ l -> chain hp (next f) l -> chain hp (Some a) (a :: l).

(** The addresses of the records linked from [p], as far as [fuel] goes. *)
Fixpoint files_from (fuel : nat) (hp : gmap Z file) (p : option Z) : list Z :=
  match fuel with
  | O => []
  | S fuel' =>
      match p with
      | None => []
      | Some a =>
          match hp !! a with
          | None => []
          | Some f => a :: files_from fuel' hp (next f)
          end
      end
  end.

(** [g.files]: the records reached from [file_head]. *)
Definition files (vm : guest) : list Z :=
  files_from (size (heap vm)) (heap vm) (file_head vm).

(** The slot a new record has to be linked into. *)
Definition tail_slot (l : list Z) : slot :=
  match last l with
  | None => head_slot
  | Some b => next_slot b
  end.

(** The list is well formed: [l] is the chain from [file_head], it holds
    every live record, addresses were handed out below [heap_next], and
    [file_indirect] is the tail slot, unless the record it points into has
    been freed. *)
Definition files_ok (vm : guest) (l : list Z) : Prop :=
  chain (heap vm) (file_head vm) l
  /\ (forall a, is_Some (heap vm !! a) -> a ∈ l)
  /\ (forall a, a ∈ l -> a < heap_next vm)
  /\ (file_indirect vm = tail_slot l
      \/ exists b, file_indirect vm = next_slot b /\ heap vm !! b = None /\ b < heap_next vm).

(** [current_file] against the lock and a list [l] of records. *)
Definition current_ok (vm : guest) (l : list Z) : Prop :=
  (lock vm = 0 -> current_file vm = None)
  /\ (lock vm = OPEN -> exists a, current_file vm = Some a /\ a ∈ l)
  /\ (lock vm <> 0 -> lock vm <> OPEN ->
      current_file vm = None
      \/ exists a, current_file vm = Some a
                   /\ (a ∈ l \/ (lock vm = CLOSE /\ heap vm !! a = None))).

Definition guest_ok (vm : guest) : Prop :=
  exists l, files_ok vm l /\ current_ok vm l.

(** A pointer slot that does not lie inside one of the records [l]. *)
Definition slot_outside (p : slot) (l : list Z) : Prop :=
  match p with
  | head_slot => True
  | next_slot b => b ∉ l
  end.

(** The guest after a handler that changed nothing of the list but the
    contents of records. *)
Definition same_frame (vm vm' : guest) : Prop :=
  lock vm' = lock vm /\ current_file vm' = current_file vm
  /\ file_head vm' = file_head vm /\ file_indirect vm' = file_indirect vm
  /\ heap_next vm' = heap_next vm
  /\ forall x, next <$> heap vm' !! x = next <$> heap vm !! x.

Definition keeps_frame {H A} (vm : guest) (p : proc H A) : Prop :=
  match p with
  | Ret _ vm' _ => same_frame vm vm'
  | SemWait _ _ _ | SemPost _ _ _ => False
  | _ => True
  end.

(** The lock and [current_file] as the specification relates them, with
    the cases the engine adds: an operation other than OPEN has no
    [current_file] until a descriptor has been matched, and CLOSE keeps
    pointing at the record it has just freed. *)
Definition lock_file_invariant (vm : guest) : Prop :=
  (lock vm = 0 /\ current_file vm = None)
  \/ (lock vm = OPEN /\ exists a, current_file vm = Some a /\ a ∈ files vm)
  \/ (lock vm <> 0 /\ lock vm <> OPEN
      /\ (current_file vm = None
          \/ exists a, current_file vm = Some a
                       /\ (a ∈ files vm \/ (lock vm = CLOSE /\ heap vm !! a = None)))).

(** The invariant of the specification, word for word. *)
Definition lock_file_invariant_literal (vm : guest) : Prop :=
  (lock vm = 0 /\ current_file vm = None)
  \/ ((lock vm = OPEN \/ lock vm = CLOSE \/ lock vm = READ \/ lock vm = WRITE)
      /\ exists a, current_file vm = Some a /\ a ∈ files vm).

(** ** The guest's side of the file port ([nivoC/guest.c])

    A guest routine runs against the monitor: every port instruction traps,
    [handle_file] serves the exit, and the guest goes on with what the
    handler left in the run region.  [gprog H A] is such a routine, run on
    the value of [file_mutex], the host and the guest's [struct guest]. *)
Definition gprog (H A : Type) : Type := Z -> H -> guest -> outcome H A.

#[global] Instance gprog_ret {H} : MRet (gprog H) :=
  fun A (a : A) sem h vm => Finished sem h vm a.

#[global] Instance gprog_bind {H} : MBind (gprog H) :=
  fun A B (f : A -> gprog H B) (m : gprog H A) sem h vm =>
    match m sem h vm with
    | Finished sem h vm a => f a sem h vm
    | Blocked h vm => Blocked h vm
    | Crashed u => Crashed u
    | Looping => Looping
    end.

(** The file state of a guest: everything but the run region, which every
    exit overwrites. *)
Definition norm (vm : guest) : guest := set_kvm_run vm (file_io 0 0 0).

Section GuestApi.
Context {H : Type} `{Host H}.

(** One trap on the file port: the run region [r] describes the access.
    The trap is served by [handle_file] and the guest is resumed after it:
    the value [exit_io] hands to the run loop on this port plays no part
    here. *)
Definition trap (r : run_region) : gprog H guest :=
  fun sem h vm =>
    match exec sem (handle_file h (set_kvm_run vm r)) with
    | Finished sem h vm _ => Finished sem h vm vm
    | Blocked h vm => Blocked h vm
    | Crashed u => Crashed u
    | Looping => Looping
    end.

(** The data area of the run region is written by the exits themselves: an
    output puts the value sent there (one byte of it for [outb]), an input
    leaves there what the area held, and the handler may overwrite it.
    After an input the guest gets what the area holds then. *)
Definition out_byte_over (held value : Z) : run_region :=
  file_io KVM_EXIT_IO_OUT 1 (held - byte held + byte value).
Definition in_dword_over (held : Z) : run_region := file_io KVM_EXIT_IO_IN 4 held.
Definition in_byte_over (held : Z) : run_region := file_io KVM_EXIT_IO_IN 1 held.

(** [out(PARALLEL_PORT, value)] and [outb(PARALLEL_PORT, value)] *)
Definition port_out (value : Z) : gprog H unit :=
  _ ← trap (out_dword value); mret tt.

Definition port_outb (value : Z) : gprog H unit :=
  fun sem h vm =>
    (_ ← trap (out_byte_over (io_data (kvm_run vm)) value); mret tt) sem h vm.

(** [in(PARALLEL_PORT)] and [inb(PARALLEL_PORT)]; the [char] is kept as a
    byte. *)
Definition port_in : gprog H Z :=
  fun sem h vm =>
    (vm' ← trap (in_dword_over (io_data (kvm_run vm))); mret (data_int (kvm_run vm')))
      sem h vm.

Definition port_inb : gprog H Z :=
  fun sem h vm =>
    (vm' ← trap (in_byte_over (io_data (kvm_run vm))); mret (data_char (kvm_run vm')))
      sem h vm.

(** [for (int i = 0; file_name[i]; i++) outb(PARALLEL_PORT, file_name[i]);]
    The list holds the characters of the string; it ends where the list
    ends or at the first NUL. *)
Fixpoint send_chars (file_name : list Z) : gprog H unit :=
  match file_name with
  | [] => mret tt
  | c :: rest =>
      if byte c =? 0 then mret tt
      else _ ← port_outb c; send_chars rest
  end.

Definition guest_open (file_name : list Z) (flags mode : Z) : gprog H Z :=
  _ ← port_out OPEN;
  _ ← send_chars file_name;
  _ ← port_outb 0;
  _ ← port_out flags;
  _ ← port_out mode;
  port_in.

Definition guest_close (fd : Z) : gprog H Z :=
  _ ← port_out CLOSE;
  _ ← port_out fd;
  status ← port_in;
  _ ← port_out FINISH;
  mret status.

(** [for (int i = 0; i < count; i++)
      { char c = inb(PARALLEL_PORT); if (c == EOF) break; my_buf[i] = c; ret++; }]
    The result is what was stored in the buffer; [ret] is its length. *)
Fixpoint read_loop (count : nat) : gprog H (list Z) :=
  match count with
  | O => mret []
  | S count' =>
      c ← port_inb;
      if c =? byte EOF then mret []
      else buf ← read_loop count'; mret (c :: buf)
  end.

Definition guest_read (fd : Z) (count : nat) : gprog H (list Z) :=
  _ ← port_out READ;
  _ ← port_out fd;
  buf ← read_loop count;
  _ ← port_out FINISH;
  mret buf.

(** [for (int i = 0; i < count; i++) { outb(PARALLEL_PORT, my_buf[i]); ret++; }] *)
Fixpoint write_loop (buf : list Z) : gprog H Z :=
  match buf with
  | [] => mret 0
  | c :: rest => _ ← port_outb c; ret ← write_loop rest; mret (ret + 1)
  end.

Definition guest_write (fd : Z) (buf : list Z) : gprog H Z :=
  _ ← port_out WRITE;
  _ ← port_out fd;
  ret ← write_loop buf;
  _ ← port_out FINISH;
  mret ret.

(** What the same accesses do when made on the host directly: bytes read
    from descriptor [d] until [count] are in, the host has no more, or the
    byte read is 0xFF; bytes written to [d] one after the other. *)
Fixpoint read_stream (count : nat) (h : H) (d : Z) : H * list Z :=
  match count with
  | O => (h, [])
  | S count' =>
      let '(h1, r) := host_read h d in
      match r with
      | None => (h1, [])
      | Some c =>
          if byte c =? byte EOF then (h1, [])
          else let '(h2, buf) := read_stream count' h1 d in (h2, byte c :: buf)
      end
  end.

Fixpoint write_stream (buf : list Z) (h : H) (d : Z) : H :=
  match buf with
  | [] => h
  | c :: rest => write_stream rest (host_write h d (byte c)) d
  end.

End GuestApi.

(** A host that keeps the bytes written to each descriptor and serves reads
    from a fixed input, for examples. *)
Record tape_host := {
  tape_input : list Z;
  tape_output : list (Z * Z);
  tape_files : list (list Z);
  tape_next_fd : Z }.

#[global] Instance tape_Host : Host tape_host := {
  host_access h path := bool_decide (path ∈ tape_files h);
  host_open h path fl md :=
    if bool_decide (path ∈ tape_files h) then
      ({| tape_input := tape_input h; tape_output := tape_output h;
          tape_files := tape_files h; tape_next_fd := tape_next_fd h + 1 |},
       tape_next_fd h)
    else if Z.land fl O_CREAT =? 0 then (h, -1)
    else
      ({| tape_input := tape_input h; tape_output := tape_output h;
          tape_files := path :: tape_files h; tape_next_fd := tape_next_fd h + 1 |},
       tape_next_fd h);
  host_close h d := (h, 0);
  host_read h d :=
    match tape_input h with
    | [] => (h, None)
    | c :: rest =>
        ({| tape_input := rest; tape_output := tape_output h;
            tape_files := tape_files h; tape_next_fd := tape_next_fd h |}, Some c)
    end;
  host_write h d c :=
    {| tape_input := tape_input h; tape_output := tape_output h ++ [(d, c)];
       tape_files := tape_files h; tape_next_fd := tape_next_fd h |} }.

(** A guest routine that leaves the list of open files well formed
    whenever it returns. *)
Definition keeps_ok {H A} (p : gprog H A) : Prop :=
  forall sem h vm sem' h' vm' v,
    guest_ok vm -> p sem h vm = Finished sem' h' vm' v -> guest_ok vm'.

(** The guest after handlers that changed nothing of the list but the
    contents of the record at [a], its link apart. *)
Definition only_record (a : Z) (vm vm' : guest) : Prop :=
  file_head vm' = file_head vm /\ file_indirect vm' = file_indirect vm
  /\ heap_next vm' = heap_next vm /\ id vm' = id vm
  /\ (forall x, x <> a -> heap vm' !! x = heap vm !! x)
  /\ next <$> heap vm' !! a = next <$> heap vm !! a.

(** The record at [a] is live and holds the descriptor [d]. *)
Definition has_fd (hp : gmap Z file) (d a : Z) : bool :=
  match hp !! a with
  | Some f => fd f =? d
  | None => false
  end.

(** What is left of a handler after a semaphore call hands the host on as
    it finds it, and makes no further semaphore call. *)
Definition passes_host {H} (k : H -> proc H Z) : Prop :=
  forall h, match k h with
            | Ret h' _ _ => h' = h
            | SemWait _ _ _ | SemPost _ _ _ => False
            | _ => True
            end.

Definition thread_passes {H} (t : thread H) : Prop :=
  match t with
  | InGuest _ => True
  | Waiting _ k | Acquired _ k | Released _ k => passes_host k
  end.

(** ** A guest with one open file, for examples

    The host serves the bytes "Hi", 0xFF and "!" to whoever reads, and
    knows the file "p".  Guest 0 opens "p" read-only. *)
Definition tape0 : tape_host :=
  {| tape_input := [72; 105; 255; 33]; tape_output := [];
     tape_files := [[112]]; tape_next_fd := 3 |}.

Definition opened_run : outcome tape_host Z :=
  Eval vm_compute in guest_open [112] O_RDONLY 0 1 tape0 (init_guest 5 0 in_byte).

Definition opened_guest : guest :=
  match opened_run with
  | Finished _ _ vm _ => vm
  | _ => init_guest 5 0 in_byte
  end.

Definition opened_host : tape_host :=
  match opened_run with
  | Finished _ h _ _ => h
  | _ => tape0
  end.

(** Guest 0 on [tape0] and on the empty host [toy0], once the name and the
    flags of an OPEN are in: "p" read-only; "q" with [O_CREAT] alone; "o"
    with [O_WRONLY | O_CREAT | O_TRUNC]. *)
Definition flags_sent (h : tape_host) (name : list Z) (fl : Z) : guest :=
  match serve 1 h (init_guest 5 0 in_byte)
          (out_dword OPEN :: send_name name ++ [out_dword fl]) with
  | Finished _ _ vm _ => vm
  | _ => init_guest 5 0 in_byte
  end.

Definition own_copy_host : tape_host :=
  {| tape_input := []; tape_output := [];
     tape_files := [sandbox_path 0 [112]; [112]]; tape_next_fd := 3 |}.

(** The run region at a one-byte output exit on the console port, at a
    HLT exit and at an exit on a port nobody serves. *)
Definition console_out (c : Z) : run_region :=
  {| exit_reason := 2; io_direction := KVM_EXIT_IO_OUT; io_size := 1;
     io_port := 0xE9; io_data := c; suberror := 0 |}.

Definition halt_exit : run_region :=
  {| exit_reason := 5; io_direction := 0; io_size := 0;
     io_port := 0; io_data := 0; suberror := 0 |}.

Definition stray_port_exit : run_region :=
  {| exit_reason := 2; io_direction := KVM_EXIT_IO_OUT; io_size := 1;
     io_port := 0x80; io_data := 0; suberror := 0 |}.

(** [KVM_EXIT_DEBUG], for which the table has no handler. *)
Definition debug_exit : run_region :=
  {| exit_reason := 4; io_direction := 0; io_size := 0;
     io_port := 0; io_data := 0; suberror := 0 |}.

(** Guest 0 next to guest 1 on [tape0], once the name and the flags of its
    OPEN of "p" are in; the mode is what the next exit brings. *)
Definition open_schedule : list (event tape_host) :=
  [ FileExit 0 (out_dword OPEN); Acquire 0; Resume 0;
    FileExit 0 (out_byte 112); FileExit 0 (out_byte 0);
    FileExit 0 (out_dword O_RDONLY) ].

(** ** Setting guests up ([nivoC/mini_hypervisor.c])

    The kernel's answers to the calls [init_guest] makes, in the order in
    which it makes them: a descriptor or status below zero is a failed
    call, and so is [None] for a mapping ([MAP_FAILED]) or for the block of
    special registers. *)
Module Setup.

Record kernel := {
  kvm_create_vm : Z;
  mmap_memory : option Z;
  kvm_set_user_memory_region : Z;
  kvm_create_vcpu : Z;
  mmap_kvm_run : option Z;
  kvm_get_sregs : option Paging.kvm_sregs;
  kvm_set_sregs : bool;
  kvm_get_regs : Z;
  kvm_set_regs : Z }.

Definition create_guest (k : kernel) : Z :=
  if kvm_create_vm k <? 0 then -1 else 0.

Definition create_memory_region (k : kernel) : Z :=
  match mmap_memory k with
  | None => -1
  | Some _ => if kvm_set_user_memory_region k <? 0 then -1 else 0
  end.

Definition create_vcpu (k : kernel) : Z :=
  if kvm_create_vcpu k <? 0 then -1 else 0.

Definition create_kvm_run (k : kernel) : Z :=
  match mmap_kvm_run k with
  | None => -1
  | Some _ => 0
  end.

Definition setup_registers (k : kernel) : Z :=
  if kvm_get_regs k <? 0 then -1
  else if kvm_set_regs k <? 0 then -1
  else 0.

(** What a call of [init_guest] leaves: the value returned, the guest
    structure once its file state has been set, the guest memory and the
    static counter [incId]. *)
Record setup := {
  setup_ret : Z;
  setup_guest : option guest;
  setup_mem : Paging.memory;
  setup_incId : Z }.

(** [init_guest].  The memory is a fresh anonymous mapping, all zero.
    [pty] and [r] stand for what the fields [pty_master] and [*kvm_run]
    happen to hold.  The result is [None] when [incId++] overflows. *)
Definition init_guest (k : kernel) (mem_size : Z) (page_size : Paging.PageSize)
    (pty : Z) (r : run_region) (incId : Z) : option setup :=
  let failed m := Some {| setup_ret := -1; setup_guest := None;
                          setup_mem := m; setup_incId := incId |} in
  if create_guest k <? 0 then failed ∅
  else if create_memory_region k <? 0 then failed ∅
  else if create_vcpu k <? 0 then failed ∅
  else if create_kvm_run k <? 0 then failed ∅
  else
    let lm := Paging.setup_long_mode (kvm_get_sregs k) (kvm_set_sregs k) ∅ mem_size page_size in
    let starting_address := Paging.slm_ret lm in
    if starting_address <? 0 then failed (Paging.slm_mem lm)
    else if setup_registers k <? 0 then failed (Paging.slm_mem lm)
    else if incId =? INT_MAX then None
    else Some {| setup_ret := starting_address;
                 setup_guest := Some (init_guest pty incId r);
                 setup_mem := Paging.slm_mem lm;
                 setup_incId := incId + 1 |}.

(** One image of the command line: whether [fopen] and [malloc] succeed,
    and what the guest then meets. *)
Record image := {
  fopen_ok : bool;
  malloc_ok : bool;
  img_kernel : kernel;
  img_pty : Z;
  img_run : run_region }.

Inductive started :=
| Exit                                   (* [exit(EXIT_FAILURE)] *)
| Overflow                               (* [incId++] at [INT_MAX] *)
| Started (guests : list (guest * Z)).   (* each with its starting address *)

(** The loop of [main] over the images:
    [fopen], [malloc], [init_guest], [start_guest]. *)
Fixpoint start_guests (images : list image) (memory : Z) (page_size : Paging.PageSize)
    (incId : Z) : started :=
  match images with
  | [] => Started []
  | img :: rest =>
      if negb (fopen_ok img) then Exit
      else if negb (malloc_ok img) then Exit
      else
        match init_guest (img_kernel img) memory page_size (img_pty img) (img_run img) incId with
        | None => Overflow
        | Some s =>
            if setup_ret s <? 0 then Exit
            else
              match setup_guest s with
              | None => Exit
              | Some vm =>
                  match start_guests rest memory page_size (setup_incId s) with
                  | Started guests => Started ((vm, setup_ret s) :: guests)
                  | other => other
                  end
              end
        end
  end.

(** A kernel that grants every call. *)
Definition willing : kernel :=
  {| kvm_create_vm := 4; mmap_memory := Some 4096; kvm_set_user_memory_region := 0;
     kvm_create_vcpu := 5; mmap_kvm_run := Some 8192;
     kvm_get_sregs := Some Paging.zero_sregs; kvm_set_sregs := true;
     kvm_get_regs := 0; kvm_set_regs := 0 |}.

Definition willing_image : image :=
  {| fopen_ok := true; malloc_ok := true; img_kernel := willing;
     img_pty := 5; img_run := in_byte |}.

End Setup.

(** The number a string of decimal digits reads as, continuing from [v]. *)
Fixpoint decimal_value (ds : list Z) (v : Z) : Z :=
  match ds with
  | [] => v
  | c :: rest => decimal_value rest (v * 10 + (c - 48))
  end.

(** A guest set up by a willing kernel with 8 MiB under [MB2], and two
    such guests started one after the other. *)
Definition first_setup : Setup.setup :=
  Eval vm_compute in
    default {| Setup.setup_ret := -1; Setup.setup_guest := None;
               Setup.setup_mem := ∅; Setup.setup_incId := 0 |}
      (Setup.init_guest Setup.willing (4 * Paging.SIZE2MB) Paging.MB2 5 in_byte 0).

Definition two_guests : list (guest * Z) :=
  Eval vm_compute in
    match Setup.start_guests [Setup.willing_image; Setup.willing_image]
            (4 * Paging.SIZE2MB) Paging.MB2 0 with
    | Setup.Started guests => guests
    | _ => []
    end.

(** ** The console of [nivoA] ([nivoA/mini_hypervisor.c])

    [nivoA] talks to the standard streams of the monitor: [putchar] writes
    to descriptor 1 and [getchar] reads from descriptor 0; at the end of
    the input [getchar] returns [EOF].  The handler works on the run region
    and returns its value with the host and the region it leaves; the
    diagnostics it prints on the error stream are left out. *)
Module NivoAConsole.

Definition store_char (r : run_region) (c : Z) : run_region :=
  set_io_data r (io_data r - byte (io_data r) + byte c).

Section Console.
Context {H : Type} `{Host H}.

Definition handle_io (h : H) (r : run_region) : H * run_region * Z :=
  if io_port r =? 0xE9 then
    if io_direction r =? KVM_EXIT_IO_OUT then
      (host_write h 1 (data_char r), r, 0)
    else if io_direction r =? KVM_EXIT_IO_IN then
      let '(h, got) := host_read h 0 in
      let c := match got with Some c => c | None => EOF end in
      (h, store_char r c, 0)
    else (h, r, -1)
  else (h, r, -1).

End Console.

End NivoAConsole.

(** ** The guest's console routines ([nivoC/guest.c])

    A result of [None] stands for undefined behaviour: signed overflow, a
    division by zero, an index outside an array; for [scan_int] also for
    an input that ends before the newline. *)
Module GuestConsole.

(** [static char digits[] = "0123456789ABCDEF";] with its terminator *)
Definition digits : list Z :=
  [48; 49; 50; 51; 52; 53; 54; 55; 56; 57; 65; 66; 67; 68; 69; 70; 0].

(** [do { buf[i++] = digits[x % base]; } while ((x /= base) != 0);]
    [buf] holds the characters stored so far, in the order of the array,
    which has 16 places; [x] and [base] are taken as [uint32_t].  The 17th
    turn of the loop cannot store. *)
Fixpoint printint_loop (turns : nat) (x base : Z) (buf : list Z) : option (list Z) :=
  match turns with
  | O => None
  | S turns' =>
      if 16 <=? Z.of_nat (length buf) then None
      else if base =? 0 then None
      else
        match digits !! Z.to_nat (x mod base) with
        | None => None
        | Some c =>
            let buf := buf ++ [c] in
            if x / base =? 0 then Some buf
            else printint_loop turns' (x / base) base buf
        end
  end.

(** [printint(1, xx, base, sgn)]: the characters handed to [putc], in the
    order of the calls. *)
Definition printint (xx base sgn : Z) : option (list Z) :=
  let neg := negb (sgn =? 0) && (xx <? 0) in
  if neg && (xx =? - 2 ^ 31) then None
  else
    let x := if neg then u32 (- xx) else u32 xx in
    match printint_loop 17 x (u32 base) [] with
    | None => None
    | Some buf =>
        if neg then
          if 16 <=? Z.of_nat (length buf) then None else Some (rev (buf ++ [45]))
        else Some (rev buf)
    end.

(** A [char] as the signed value the comparisons and the arithmetic see. *)
Definition schar (c : Z) : Z := if byte c <? 128 then byte c else byte c - 256.

Definition in_int (x : Z) : bool := (- 2 ^ 31 <=? x) && (x <=? INT_MAX).

(** [while ((c = getchar()) != '\n') { num *= 10; num += c - '0'; }]
    [input] lists what [getchar] returns, call by call; the result is the
    number and the input left. *)
Fixpoint scan_int_loop (input : list Z) (num : Z) : option (Z * list Z) :=
  match input with
  | [] => None
  | c :: rest =>
      if schar c =? 10 then Some (num, rest)
      else if negb (in_int (num * 10)) then None
      else if negb (in_int (num * 10 + (schar c - 48))) then None
      else scan_int_loop rest (num * 10 + (schar c - 48))
  end.

Definition scan_int (input : list Z) : option (Z * list Z) := scan_int_loop input 0.

End GuestConsole.

(** ** The guest's arithmetic ([nivoB/guest.c]) *)
Module NivoB.

(** [for (int i = 2; i <= n; i++) result *= i;]
    The product overflows in the twelfth turn, so thirteen are enough. *)
Fixpoint factorial_loop (turns : nat) (i result n : Z) : option Z :=
  match turns with
  | O => None
  | S turns' =>
      if i <=? n then
        if INT_MAX <? result * i then None
        else factorial_loop turns' (i + 1) (result * i) n
      else Some result
  end.

Definition factorial (n : Z) : option Z := factorial_loop 13 2 1 n.

(** [for (int i = 5; i * i <= n; i += 6)
      if (n % i == 0 || n % (i + 2) == 0) return 0;
    return 1;]
    [i * i] overflows from 46341 on, so the loop takes fewer than 7725
    turns. *)
Fixpoint is_prime_loop (fuel : nat) (i n : Z) : option Z :=
  match fuel with
  | O => None
  | S fuel' =>
      if INT_MAX <? i * i then None
      else if i * i <=? n then
        if (n mod i =? 0) || (n mod (i + 2) =? 0) then Some 0
        else is_prime_loop fuel' (i + 6) n
      else Some 1
  end.

Definition is_prime (n : Z) : option Z :=
  if n <=? 1 then Some 0
  else if n <=? 3 then Some 1
  else if (n mod 2 =? 0) || (n mod 3 =? 0) then Some 0
  else is_prime_loop (Z.to_nat 7725) 5 n.

End NivoB.

(** * Part II: properties *)

(** ** Machine integers *)

Lemma u64_small x : 0 <= x < 2 ^ 64 -> u64 x = x.
Proof. intros H. unfold u64. now apply Z.mod_small. Qed.

Lemma to_int_small x : - 2 ^ 31 <= x < 2 ^ 31 -> to_int x = x.
Proof. intros H. unfold to_int. rewrite Z.mod_small; lia. Qed.

Section PagingFacts.
Import Paging.

(** ** Paging: loads and stores *)

Lemma load64_store64_eq (m : memory) a v : load64 (store64 m a v) a = v.
Proof. unfold load64, store64. now rewrite lookup_insert_eq. Qed.

Lemma load64_store64_ne (m : memory) a b v :
  a <> b -> load64 (store64 m a v) b = load64 m b.
Proof. intros H. unfold load64, store64. now rewrite lookup_insert_ne. Qed.

(** ** Paging: the 2 MiB layout *)

Lemma pd_loop_2mb_other c : forall i pa (m : memory) a,
  (forall j, i <= j < i + Z.of_nat c -> a <> pd_addr + 8 * j) ->
  load64 (pd_loop_2mb c i pa m) a = load64 m a.
Proof.
  induction c as [|c IH]; intros i pa m a Ha; [reflexivity|].
  cbn [pd_loop_2mb]. rewrite IH.
  - apply load64_store64_ne. intros E. apply (Ha i); [lia | now symmetry].
  - intros j Hj. apply Ha. lia.
Qed.

Lemma pd_loop_2mb_entry c : forall i pa (m : memory) j,
  0 <= pa -> pa + Z.of_nat c * SIZE2MB <= 2 ^ 64 ->
  i <= j < i + Z.of_nat c ->
  load64 (pd_loop_2mb c i pa m) (pd_addr + 8 * j)
  = Z.lor (Z.lor (Z.lor (Z.lor PDE64_PRESENT PDE64_RW) PDE64_USER) PDE64_PS)
          (pa + (j - i) * SIZE2MB).
Proof.
  induction c as [|c IH]; intros i pa m j Hpa Hb Hj; [lia|].
  cbn [pd_loop_2mb].
  assert (HS : 0 < SIZE2MB) by (unfold SIZE2MB; lia).
  destruct (Z.eq_dec j i) as [->|Hne].
  - rewrite pd_loop_2mb_other by (intros k Hk; lia).
    rewrite load64_store64_eq. f_equal. lia.
  - rewrite u64_small by nia.
    rewrite IH by nia. f_equal. lia.
Qed.

(** C2. Under [MB2], for [mem_size] a positive multiple of 2 MiB (within the
    range of the [int] loop counter), once both register ioctls succeed
    [setup_long_mode] has written
    [PD[i] = PRESENT | RW | USER | PS | (0x200000 + i * 2MiB)] for every
    [i] in [[0, mem_size / 2MiB - 1)], has left every later slot of the page
    directory as it was, and returns [0x200000], which is the first 2 MiB
    boundary strictly after [0x3000]. *)
Theorem C2_setup_long_mode_MB2 (sregs : kvm_sregs) (m : memory) (mem_size : Z) :
  0 < mem_size ->
  mem_size mod SIZE2MB = 0 ->
  mem_size / SIZE2MB - 1 <= INT_MAX ->
  let r := setup_long_mode (Some sregs) true m mem_size MB2 in
  (forall i, 0 <= i < mem_size / SIZE2MB - 1 ->
     load64 (slm_mem r) (pd_addr + 8 * i)
     = Z.lor (Z.lor (Z.lor (Z.lor PDE64_PRESENT PDE64_RW) PDE64_USER) PDE64_PS)
             (0x200000 + i * SIZE2MB))
  /\ (forall i, mem_size / SIZE2MB - 1 <= i ->
        load64 (slm_mem r) (pd_addr + 8 * i) = load64 m (pd_addr + 8 * i))
  /\ slm_ret r = 0x200000
  /\ (0x3000 < 0x200000 /\ 0x200000 mod SIZE2MB = 0
      /\ forall b, 0x3000 < b -> b mod SIZE2MB = 0 -> 0x200000 <= b).
Proof.
  intros Hpos Hmul Hint.
  assert (Hn : 1 <= mem_size / SIZE2MB).
  { apply Z.div_le_lower_bound; [reflexivity|].
    apply Z.mod_divide in Hmul; [|discriminate].
    destruct Hmul as [q Hq]. unfold SIZE2MB in *. lia. }
  unfold INT_MAX in Hint.
  cbn [setup_long_mode build_tables slm_mem slm_ret].
  change (u64 ((12288 / SIZE2MB + 1) * SIZE2MB)) with 0x200000.
  rewrite (u64_small (mem_size / SIZE2MB - 1)) by lia.
  cbn [slm_mem slm_ret].
  split; [|split; [|split]].
  - intros i Hi. rewrite pd_loop_2mb_entry.
    + f_equal. lia.
    + lia.
    + rewrite Z2Nat.id by lia. unfold SIZE2MB in *. lia.
    + rewrite Z2Nat.id by lia. lia.
  - intros i Hi. rewrite pd_loop_2mb_other by (intros j Hj; rewrite Z2Nat.id in Hj by lia; lia).
    rewrite !load64_store64_ne; [reflexivity | |]; unfold pd_addr, pdpt_addr, pml4_addr; lia.
  - reflexivity.
  - split; [reflexivity|]. split; [reflexivity|].
    intros b Hb Hmod. apply Z.mod_divide in Hmod; [|discriminate].
    destruct Hmod as [q Hq]. unfold SIZE2MB in Hq. lia.
Qed.

Lemma C2_setup_long_mode_MB2_witness :
  0 < 2 * SIZE2MB /\ (2 * SIZE2MB) mod SIZE2MB = 0 /\ (2 * SIZE2MB) / SIZE2MB - 1 <= INT_MAX
  /\ load64 (slm_mem (setup_long_mode (Some zero_sregs) true ∅ (2 * SIZE2MB) MB2))
              (pd_addr + 8 * 0)
     = Z.lor (Z.lor (Z.lor (Z.lor PDE64_PRESENT PDE64_RW) PDE64_USER) PDE64_PS)
             (0x200000 + 0 * SIZE2MB).
Proof.
  split; [reflexivity|]. split; [reflexivity|]. split; [discriminate|].
  apply (C2_setup_long_mode_MB2 zero_sregs ∅ (2 * SIZE2MB));
    [reflexivity | reflexivity | discriminate | vm_compute; split; [discriminate | reflexivity]].
Defined.

(** ** Paging: the 4 KiB layout *)

Lemma page_aligned_bits a n :
  a mod 0x1000 = 0 -> 0 <= n < 12 -> Z.testbit a n = false.
Proof.
  intros Ha Hn. change 0x1000 with (2 ^ 12) in Ha.
  rewrite <- (Z.mod_pow2_bits_low a 12 n) by lia.
  rewrite Ha. apply Z.bits_0.
Qed.

Lemma u64_high_bits a n : 0 <= a < 2 ^ 64 -> 64 <= n -> Z.testbit a n = false.
Proof.
  intros Ha Hn. rewrite <- (Z.mod_small a (2 ^ 64)) by lia.
  apply Z.mod_pow2_bits_high. lia.
Qed.

Lemma PT_ADDR_MASK_bits n :
  0 <= n -> Z.testbit PT_ADDR_MASK n = (12 <=? n) && (n <? 64).
Proof.
  intros Hn. change PT_ADDR_MASK with (Z.shiftl (Z.ones 52) 12).
  rewrite Z.shiftl_spec by lia.
  destruct (Z.leb_spec 12 n) as [H|H]; cbn [andb].
  - rewrite Z.testbit_ones_nonneg by lia.
    destruct (Z.ltb_spec (n - 12) 52), (Z.ltb_spec n 64); (reflexivity || lia).
  - apply Z.testbit_neg_r. lia.
Qed.

Lemma flags_bits n :
  0 <= n ->
  Z.testbit (Z.lor (Z.lor PDE64_PRESENT PDE64_RW) PDE64_USER) n = (n <? 3).
Proof.
  intros Hn. change (Z.lor (Z.lor PDE64_PRESENT PDE64_RW) PDE64_USER) with (Z.ones 3).
  apply Z.testbit_ones_nonneg; lia.
Qed.

(** The address field of a page-directory entry built from a page-aligned
    address is that address. *)
Lemma pde_address a :
  0 <= a < 2 ^ 64 -> a mod 0x1000 = 0 ->
  Z.land (Z.lor (Z.lor (Z.lor PDE64_PRESENT PDE64_RW) PDE64_USER) a) PT_ADDR_MASK = a.
Proof.
  intros Ha Hal. apply Z.bits_inj'. intros n Hn.
  rewrite Z.land_spec, Z.lor_spec, flags_bits, PT_ADDR_MASK_bits by lia.
  destruct (Z.leb_spec 12 n) as [H12|H12].
  - destruct (Z.ltb_spec n 64) as [H64|H64]; cbn [andb].
    + destruct (Z.ltb_spec n 3); [lia|]. cbn [orb]. now rewrite andb_true_r.
    + rewrite andb_false_r. symmetry. now apply u64_high_bits.
  - cbn [andb]. rewrite andb_false_r. symmetry. apply page_aligned_bits; [assumption | lia].
Qed.

(** ... and its page-size bit is clear. *)
Lemma pde_ps_clear a :
  a mod 0x1000 = 0 ->
  Z.land (Z.lor (Z.lor (Z.lor PDE64_PRESENT PDE64_RW) PDE64_USER) a) PDE64_PS = 0.
Proof.
  intros Hal. apply Z.bits_inj'. intros n Hn.
  rewrite Z.land_spec, Z.lor_spec, flags_bits, Z.bits_0 by lia.
  change PDE64_PS with (Z.shiftl 1 7).
  destruct (Z.eq_dec n 7) as [->|Hne].
  - rewrite (page_aligned_bits a 7) by (assumption || lia). reflexivity.
  - rewrite Z.shiftl_spec by lia.
    destruct (Z.lt_ge_cases n 7).
    + rewrite (Z.testbit_neg_r 1) by lia. apply andb_false_r.
    + replace (n - 7) with (Z.succ (n - 8)) by lia.
      rewrite (Z.bits_above_log2 1) by (cbn; lia). apply andb_false_r.
Qed.

Lemma pd_loop_4kb_other c : forall i page (m : memory) a,
  (forall j, i <= j < i + Z.of_nat c -> a <> pd_addr + 8 * j) ->
  load64 (fst (pd_loop_4kb c i page m)) a = load64 m a.
Proof.
  induction c as [|c IH]; intros i page m a Ha; [reflexivity|].
  cbn [pd_loop_4kb]. rewrite IH.
  - apply load64_store64_ne. intros E. apply (Ha i); [lia | now symmetry].
  - intros j Hj. apply Ha. lia.
Qed.

Lemma pd_loop_4kb_entry c : forall i page (m : memory) j,
  0 <= page -> page + Z.of_nat c * 0x1000 <= 2 ^ 64 ->
  i <= j < i + Z.of_nat c ->
  load64 (fst (pd_loop_4kb c i page m)) (pd_addr + 8 * j)
  = Z.lor (Z.lor (Z.lor PDE64_PRESENT PDE64_RW) PDE64_USER) (page + (j - i) * 0x1000).
Proof.
  induction c as [|c IH]; intros i page m j Hpa Hb Hj; [lia|].
  cbn [pd_loop_4kb].
  destruct (Z.eq_dec j i) as [->|Hne].
  - rewrite pd_loop_4kb_other by (intros k Hk; lia).
    rewrite load64_store64_eq. f_equal. lia.
  - rewrite u64_small by lia.
    rewrite IH by lia. f_equal. lia.
Qed.

Lemma pd_loop_4kb_page c : forall i page (m : memory),
  0 <= page -> page + Z.of_nat c * 0x1000 < 2 ^ 64 ->
  snd (pd_loop_4kb c i page m) = page + Z.of_nat c * 0x1000.
Proof.
  induction c as [|c IH]; intros i page m Hpa Hb; cbn [pd_loop_4kb snd]; [lia|].
  rewrite u64_small by lia. rewrite IH by lia. lia.
Qed.

Lemma pt_fill_other ms c : forall j pt pa (m : memory) a,
  (forall j', j <= j' < j + Z.of_nat c -> a <> pt + 8 * j') ->
  load64 (fst (pt_fill ms c j pt pa m)) a = load64 m a.
Proof.
  induction c as [|c IH]; intros j pt pa m a Ha; [reflexivity|].
  cbn [pt_fill]. destruct (pa >? ms); [reflexivity|].
  rewrite IH.
  - apply load64_store64_ne. intros E. apply (Ha j); [lia | now symmetry].
  - intros j' Hj'. apply Ha. lia.
Qed.

Lemma pt_fill_entry ms c : forall j pt pa (m : memory) j',
  0 <= pa -> pa + Z.of_nat c * 0x1000 < 2 ^ 64 ->
  j <= j' < j + Z.of_nat c ->
  pa + (j' - j) * 0x1000 <= ms ->
  load64 (fst (pt_fill ms c j pt pa m)) (pt + 8 * j')
  = Z.lor (Z.lor (Z.lor (pa + (j' - j) * 0x1000) PDE64_PRESENT) PDE64_RW) PDE64_USER.
Proof.
  induction c as [|c IH]; intros j pt pa m j' Hpa Hb Hj Hms; [lia|].
  cbn [pt_fill]. destruct (Z.gtb_spec pa ms) as [Hgt|Hle]; [lia|].
  destruct (Z.eq_dec j' j) as [->|Hne].
  - rewrite pt_fill_other by (intros k Hk; lia).
    rewrite load64_store64_eq. do 3 f_equal. lia.
  - rewrite u64_small by lia.
    rewrite IH by lia. do 3 f_equal. lia.
Qed.

Lemma pt_fill_page ms c : forall j pt pa (m : memory),
  0 <= pa -> pa + Z.of_nat c * 0x1000 < 2 ^ 64 ->
  (snd (pt_fill ms c j pt pa m) = pa + Z.of_nat c * 0x1000
   \/ ms < snd (pt_fill ms c j pt pa m))
  /\ pa <= snd (pt_fill ms c j pt pa m) <= pa + Z.of_nat c * 0x1000.
Proof.
  induction c as [|c IH]; intros j pt pa m Hpa Hb; cbn [pt_fill snd]; [lia|].
  destruct (Z.gtb_spec pa ms) as [Hgt|Hle]; cbn [snd]; [lia|].
  rewrite u64_small by lia.
  specialize (IH (j + 1) pt (pa + 0x1000)
                 (store64 m (pt + 8 * j)
                    (Z.lor (Z.lor (Z.lor pa PDE64_PRESENT) PDE64_RW) PDE64_USER))).
  lia.
Qed.

Lemma table_addr_aligned i : (0x3000 + i * 0x1000) mod 0x1000 = 0.
Proof. replace (0x3000 + i * 0x1000) with ((3 + i) * 0x1000) by lia. apply Z.mod_mul. lia. Qed.

(** The page-table loop, started at table [i] with [c] tables to go.  [L]
    is the address the frames are counted from; slot [k] of the contiguous
    run of tables lives at [0x3000 + 8 * k]. *)
Lemma pt_loop_spec ms L c : forall i pa (m : memory),
  0 <= i -> i + Z.of_nat c <= 512 ->
  0 <= L -> L + 512 * (i + Z.of_nat c) * 0x1000 < 2 ^ 64 ->
  (forall i', i <= i' < i + Z.of_nat c ->
     load64 m (pd_addr + 8 * i')
     = Z.lor (Z.lor (Z.lor PDE64_PRESENT PDE64_RW) PDE64_USER) (0x3000 + i' * 0x1000)) ->
  0 <= pa -> (pa = L + 512 * i * 0x1000 \/ ms < pa) -> pa <= L + 512 * i * 0x1000 ->
  (forall a, a < 0x3000 + 0x1000 * i \/ 0x3000 + 0x1000 * (i + Z.of_nat c) <= a ->
     load64 (fst (pt_loop ms c i pa m)) a = load64 m a)
  /\ (forall k, 512 * i <= k < 512 * (i + Z.of_nat c) -> L + k * 0x1000 <= ms ->
        load64 (fst (pt_loop ms c i pa m)) (0x3000 + 8 * k)
        = Z.lor (Z.lor (Z.lor (L + k * 0x1000) PDE64_PRESENT) PDE64_RW) PDE64_USER).
Proof.
  induction c as [|c IH]; intros i pa m Hi Hic HL Hb Hpd Hpa Hst Hle.
  { split; [reflexivity | intros k Hk; lia]. }
  cbn [pt_loop].
  rewrite (Hpd i) by lia.
  rewrite pde_address by (apply table_addr_aligned || lia).
  pose proof (pt_fill_page ms 512 0 (0x3000 + i * 0x1000) pa m Hpa) as Hpage.
  pose proof (pt_fill_other ms 512 0 (0x3000 + i * 0x1000) pa m) as Hother.
  pose proof (pt_fill_entry ms 512 0 (0x3000 + i * 0x1000) pa m) as Hentry.
  destruct (pt_fill ms 512 0 (0x3000 + i * 0x1000) pa m) as [m1 pa1].
  cbn [fst snd] in Hpage, Hother, Hentry.
  change (Z.of_nat 512) with 512 in Hpage, Hother, Hentry.
  destruct Hpage as [Hpa1 Hrange]; [lia|].
  destruct (IH (i + 1) pa1 m1) as [IHa IHk]; try lia.
  { intros i' Hi'. rewrite Hother by (intros j' Hj'; unfold pd_addr; lia).
    apply Hpd. lia. }
  split.
  - intros a Ha. rewrite IHa by lia. apply Hother. intros j' Hj'. lia.
  - intros k Hk Hms.
    destruct (Z.lt_ge_cases k (512 * (i + 1))) as [Hlow|Hhigh].
    + rewrite IHa by lia.
      replace (0x3000 + 8 * k) with (0x3000 + i * 0x1000 + 8 * (k - 512 * i)) by lia.
      assert (Hpa_eq : pa = L + 512 * i * 0x1000) by lia.
      rewrite Hentry by lia. do 3 f_equal. lia.
    + apply IHk; lia.
Qed.

Lemma multiple_of_2mb (mem_size : Z) :
  0 < mem_size -> mem_size mod SIZE2MB = 0 ->
  1 <= mem_size / SIZE2MB /\ mem_size = (mem_size / SIZE2MB) * SIZE2MB.
Proof.
  intros Hpos Hmul. apply Z.mod_divide in Hmul; [|discriminate].
  destruct Hmul as [q Hq]. subst mem_size.
  rewrite Z.div_mul by discriminate. unfold SIZE2MB in *. lia.
Qed.

(** A slot whose frame would start above [mem_size] is not written. *)
Lemma pt_fill_beyond ms c : forall j pt pa (m : memory) j',
  0 <= pa -> pa + Z.of_nat c * 0x1000 < 2 ^ 64 ->
  j <= j' -> ms < pa + (j' - j) * 0x1000 ->
  load64 (fst (pt_fill ms c j pt pa m)) (pt + 8 * j') = load64 m (pt + 8 * j').
Proof.
  induction c as [|c IH]; intros j pt pa m j' Hpa Hb Hj Hms; [reflexivity|].
  cbn [pt_fill]. destruct (Z.gtb_spec pa ms) as [Hgt|Hle]; [reflexivity|].
  assert (Hne : j' <> j) by (intros ->; lia).
  rewrite u64_small by lia. rewrite IH by lia.
  apply load64_store64_ne. lia.
Qed.

Lemma pt_loop_beyond ms L c : forall i pa (m : memory),
  0 <= i -> i + Z.of_nat c <= 512 ->
  0 <= L -> L + 512 * (i + Z.of_nat c) * 0x1000 < 2 ^ 64 ->
  (forall i', i <= i' < i + Z.of_nat c ->
     load64 m (pd_addr + 8 * i')
     = Z.lor (Z.lor (Z.lor PDE64_PRESENT PDE64_RW) PDE64_USER) (0x3000 + i' * 0x1000)) ->
  0 <= pa -> (pa = L + 512 * i * 0x1000 \/ ms < pa) -> pa <= L + 512 * i * 0x1000 ->
  forall k, 512 * i <= k < 512 * (i + Z.of_nat c) -> ms < L + k * 0x1000 ->
    load64 (fst (pt_loop ms c i pa m)) (0x3000 + 8 * k) = load64 m (0x3000 + 8 * k).
Proof.
  induction c as [|c IH]; intros i pa m Hi Hic HL Hb Hpd Hpa Hst Hle k Hk Hms; [lia|].
  cbn [pt_loop].
  rewrite (Hpd i) by lia.
  rewrite pde_address by (apply table_addr_aligned || lia).
  pose proof (pt_fill_page ms 512 0 (0x3000 + i * 0x1000) pa m Hpa) as Hpage.
  pose proof (pt_fill_other ms 512 0 (0x3000 + i * 0x1000) pa m) as Hother.
  pose proof (pt_fill_beyond ms 512 0 (0x3000 + i * 0x1000) pa m) as Hbeyond.
  destruct (pt_fill ms 512 0 (0x3000 + i * 0x1000) pa m) as [m1 pa1] eqn:Efill.
  cbn [fst snd] in Hpage, Hother, Hbeyond.
  change (Z.of_nat 512) with 512 in Hpage, Hother, Hbeyond.
  destruct Hpage as [Hpa1 Hrange]; [lia|].
  assert (Hpd1 : forall i', i + 1 <= i' < i + 1 + Z.of_nat c ->
            load64 m1 (pd_addr + 8 * i')
            = Z.lor (Z.lor (Z.lor PDE64_PRESENT PDE64_RW) PDE64_USER) (0x3000 + i' * 0x1000)).
  { intros i' Hi'. rewrite Hother by (intros j' Hj'; unfold pd_addr; lia).
    apply Hpd. lia. }
  destruct (Z.lt_ge_cases k (512 * (i + 1))) as [Hlow|Hhigh].
  - destruct (pt_loop_spec ms L c (i + 1) pa1 m1) as [IHa _]; try lia; try assumption.
    rewrite IHa by lia.
    replace (0x3000 + 8 * k) with (0x3000 + i * 0x1000 + 8 * (k - 512 * i)) by lia.
    apply Hbeyond; lia.
  - rewrite (IH (i + 1) pa1 m1) by (assumption || lia).
    apply Hother. intros j' Hj'. lia.
Qed.

Lemma build_tables_KB4 (m : memory) (mem_size : Z) :
  0 < mem_size ->
  mem_size mod SIZE2MB = 0 ->
  mem_size / SIZE2MB <= 512 ->
  snd (build_tables m mem_size KB4) = 0x3000 + (mem_size / SIZE2MB) * 0x1000
  /\ (forall i, 0 <= i < mem_size / SIZE2MB ->
        load64 (fst (build_tables m mem_size KB4)) (pd_addr + 8 * i)
        = Z.lor (Z.lor (Z.lor PDE64_PRESENT PDE64_RW) PDE64_USER) (0x3000 + i * 0x1000))
  /\ (forall k, 0 <= k < 512 * (mem_size / SIZE2MB) ->
        0x3000 + (mem_size / SIZE2MB) * 0x1000 + k * 0x1000 <= mem_size ->
        load64 (fst (build_tables m mem_size KB4)) (0x3000 + 8 * k)
        = Z.lor (Z.lor (Z.lor (0x3000 + (mem_size / SIZE2MB) * 0x1000 + k * 0x1000)
                              PDE64_PRESENT) PDE64_RW) PDE64_USER).
Proof.
  intros Hpos Hmul Hcap.
  assert (Hn : 1 <= mem_size / SIZE2MB).
  { apply Z.div_le_lower_bound; [reflexivity|].
    apply Z.mod_divide in Hmul; [|discriminate].
    destruct Hmul as [q Hq]. unfold SIZE2MB in *. lia. }
  unfold build_tables.
  set (n := mem_size / SIZE2MB) in *.
  set (m0 := store64 (store64 m _ _) _ _).
  pose proof (pd_loop_4kb_page (Z.to_nat n) 0 0x3000 m0) as Hpage.
  pose proof (pd_loop_4kb_entry (Z.to_nat n) 0 0x3000 m0) as Hentry.
  destruct (pd_loop_4kb (Z.to_nat n) 0 0x3000 m0) as [m1 page].
  cbn [fst snd] in Hpage, Hentry. rewrite Z2Nat.id in Hpage, Hentry by lia.
  rewrite Hpage by lia.
  destruct (pt_loop_spec mem_size (0x3000 + n * 0x1000) (Z.to_nat n) 0
              (0x3000 + n * 0x1000) m1) as [Hkeep Hslots]; rewrite ?Z2Nat.id by lia; try lia.
  { intros i Hi. rewrite Hentry by lia. f_equal. lia. }
  rewrite Z2Nat.id in Hkeep, Hslots by lia.
  destruct (pt_loop mem_size (Z.to_nat n) 0 (0x3000 + n * 0x1000) m1) as [m2 pa2].
  cbn [fst snd] in *.
  split; [reflexivity|]. split.
  - intros i Hi. rewrite Hkeep by (unfold pd_addr; lia).
    rewrite Hentry by lia. f_equal. lia.
  - intros k Hk Hfit. apply Hslots; lia.
Qed.

(** What the fill loops leave alone: the slots whose frame would start
    above [mem_size], and the directory entries from [mem_size / 2MiB] on. *)
Lemma build_tables_KB4_rest (m : memory) (mem_size : Z) :
  0 < mem_size ->
  mem_size mod SIZE2MB = 0 ->
  mem_size / SIZE2MB <= 512 ->
  (forall k, 0 <= k < 512 * (mem_size / SIZE2MB) ->
     mem_size < 0x3000 + (mem_size / SIZE2MB) * 0x1000 + k * 0x1000 ->
     load64 (fst (build_tables m mem_size KB4)) (0x3000 + 8 * k) = load64 m (0x3000 + 8 * k))
  /\ (forall i, mem_size / SIZE2MB <= i < 512 ->
        load64 (fst (build_tables m mem_size KB4)) (pd_addr + 8 * i)
        = load64 m (pd_addr + 8 * i)).
Proof.
  intros Hpos Hmul Hcap.
  destruct (multiple_of_2mb mem_size Hpos Hmul) as [Hn Hsize].
  unfold build_tables.
  set (n := mem_size / SIZE2MB) in *.
  set (m0 := store64 (store64 m _ _) _ _).
  assert (Hm0 : forall a, 0x2000 <= a -> load64 m0 a = load64 m a).
  { intros a Ha. subst m0.
    rewrite !load64_store64_ne; [reflexivity | |]; unfold pdpt_addr, pml4_addr; lia. }
  pose proof (pd_loop_4kb_page (Z.to_nat n) 0 0x3000 m0) as Hpage.
  pose proof (pd_loop_4kb_entry (Z.to_nat n) 0 0x3000 m0) as Hentry.
  pose proof (pd_loop_4kb_other (Z.to_nat n) 0 0x3000 m0) as Hpdother.
  destruct (pd_loop_4kb (Z.to_nat n) 0 0x3000 m0) as [m1 page].
  cbn [fst snd] in Hpage, Hentry, Hpdother. rewrite Z2Nat.id in Hpage, Hentry by lia.
  rewrite Hpage by lia.
  assert (Hpd : forall i, 0 <= i < 0 + n ->
            load64 m1 (pd_addr + 8 * i)
            = Z.lor (Z.lor (Z.lor PDE64_PRESENT PDE64_RW) PDE64_USER) (0x3000 + i * 0x1000)).
  { intros i Hi. rewrite Hentry by lia. f_equal. lia. }
  pose proof (pt_loop_beyond mem_size (0x3000 + n * 0x1000) (Z.to_nat n) 0
                (0x3000 + n * 0x1000) m1) as Hbeyond.
  rewrite Z2Nat.id in Hbeyond by lia.
  destruct (pt_loop_spec mem_size (0x3000 + n * 0x1000) (Z.to_nat n) 0
              (0x3000 + n * 0x1000) m1) as [Hkeep _]; rewrite ?Z2Nat.id by lia;
    try lia; try exact Hpd.
  rewrite Z2Nat.id in Hkeep by lia.
  destruct (pt_loop mem_size (Z.to_nat n) 0 (0x3000 + n * 0x1000) m1) as [m2 pa2].
  cbn [fst snd] in *. split.
  - intros k Hk Hms. rewrite Hbeyond; try lia; try exact Hpd.
    rewrite Hpdother by (intros j Hj; rewrite Z2Nat.id in Hj by lia; unfold pd_addr; lia).
    apply Hm0. lia.
  - intros i Hi. rewrite Hkeep by (unfold pd_addr; lia).
    rewrite Hpdother by (intros j Hj; rewrite Z2Nat.id in Hj by lia; lia).
    apply Hm0. unfold pd_addr. lia.
Qed.

(** C3 (as amended).  Under [KB4], for [mem_size] a positive multiple of
    2 MiB of at most 512 * 2 MiB (the capacity of the single page directory),
    once both register ioctls succeed: [PD[i]], for every [i] below
    [mem_size / 2MiB], is [PRESENT | RW | USER | (0x3000 + i * 4KiB)], so it
    points at the table at that address and has [PS] clear, and the later
    entries of the directory are left as they were; the slots of the
    tables, taken in order (slot [j] of table [i] is number [512 * i + j]),
    hold [PRESENT | RW | USER] entries for the successive 4 KiB frames that
    start at the load address, for every frame that begins below
    [mem_size], and every slot whose frame would begin above [mem_size] is
    left as it was: with [n = mem_size / 2MiB] these are the slots after
    number [511 * n - 3], the last [n + 2]; and the value returned is the
    load address [0x3000 + (mem_size / 2MiB) * 4KiB]. *)
Theorem C3_setup_long_mode_KB4 (sregs : kvm_sregs) (m : memory) (mem_size : Z) :
  0 < mem_size ->
  mem_size mod SIZE2MB = 0 ->
  mem_size / SIZE2MB <= 512 ->
  let r := setup_long_mode (Some sregs) true m mem_size KB4 in
  let load_addr := 0x3000 + (mem_size / SIZE2MB) * 0x1000 in
  (forall i, 0 <= i < mem_size / SIZE2MB ->
     load64 (slm_mem r) (pd_addr + 8 * i)
     = Z.lor (Z.lor (Z.lor PDE64_PRESENT PDE64_RW) PDE64_USER) (0x3000 + i * 0x1000)
     /\ Z.land (load64 (slm_mem r) (pd_addr + 8 * i)) PT_ADDR_MASK = 0x3000 + i * 0x1000
     /\ Z.land (load64 (slm_mem r) (pd_addr + 8 * i)) PDE64_PS = 0)
  /\ (forall i, mem_size / SIZE2MB <= i < 512 ->
        load64 (slm_mem r) (pd_addr + 8 * i) = load64 m (pd_addr + 8 * i))
  /\ (forall i j, 0 <= i < mem_size / SIZE2MB -> 0 <= j < 512 ->
        load_addr + (512 * i + j) * 0x1000 < mem_size ->
        load64 (slm_mem r) (0x3000 + i * 0x1000 + 8 * j)
        = Z.lor (Z.lor (Z.lor (load_addr + (512 * i + j) * 0x1000) PDE64_PRESENT) PDE64_RW)
                PDE64_USER)
  /\ (forall i j, 0 <= i < mem_size / SIZE2MB -> 0 <= j < 512 ->
        mem_size < load_addr + (512 * i + j) * 0x1000 ->
        load64 (slm_mem r) (0x3000 + i * 0x1000 + 8 * j)
        = load64 m (0x3000 + i * 0x1000 + 8 * j))
  /\ (forall k, 511 * (mem_size / SIZE2MB) - 3 < k < 512 * (mem_size / SIZE2MB) ->
        load64 (slm_mem r) (0x3000 + 8 * k) = load64 m (0x3000 + 8 * k))
  /\ slm_ret r = load_addr.
Proof.
  intros Hpos Hmul Hcap.
  destruct (build_tables_KB4 m mem_size Hpos Hmul Hcap) as (Hpage & Hpd & Hslots).
  destruct (build_tables_KB4_rest m mem_size Hpos Hmul Hcap) as (Hfree & Hlater).
  destruct (multiple_of_2mb mem_size Hpos Hmul) as [Hn1 Hsize].
  unfold setup_long_mode.
  destruct (build_tables m mem_size KB4) as [m2 page].
  cbn [fst snd] in Hpage, Hpd, Hslots, Hfree, Hlater. cbn [slm_mem slm_ret]. subst page.
  assert (Hn : 0 <= mem_size / SIZE2MB) by (apply Z.div_pos; [lia | reflexivity]).
  split; [|split; [|split; [|split; [|split]]]].
  - intros i Hi. rewrite (Hpd i Hi).
    split; [reflexivity|]. split.
    + apply pde_address; [lia | apply table_addr_aligned].
    + apply pde_ps_clear, table_addr_aligned.
  - exact Hlater.
  - intros i j Hi Hj Hfit.
    replace (0x3000 + i * 0x1000 + 8 * j) with (0x3000 + 8 * (512 * i + j)) by lia.
    apply Hslots; lia.
  - intros i j Hi Hj Hout.
    replace (0x3000 + i * 0x1000 + 8 * j) with (0x3000 + 8 * (512 * i + j)) by lia.
    apply Hfree; lia.
  - intros k Hk. apply Hfree; [lia|]. unfold SIZE2MB in *. lia.
  - apply to_int_small. lia.
Qed.

Lemma C3_setup_long_mode_KB4_witness :
  0 < SIZE2MB /\ SIZE2MB mod SIZE2MB = 0 /\ SIZE2MB / SIZE2MB <= 512
  /\ slm_ret (setup_long_mode (Some zero_sregs) true ∅ SIZE2MB KB4) = 0x4000.
Proof.
  split; [reflexivity|]. split; [reflexivity|]. split; [discriminate|].
  apply (C3_setup_long_mode_KB4 zero_sregs ∅ SIZE2MB);
    [reflexivity | reflexivity | discriminate].
Defined.

(** C3 (as stated) fails.  With 2 MiB of memory the single page table is not
    full: slot 509 is never written, because the frames are counted from the
    load address [0x4000] and only 509 of them start at or below [mem_size].
    With 513 * 2 MiB the directory itself runs into the first page table:
    slot 512 of the directory is at [0x3000] and is overwritten by slot 0 of
    table 0. *)
Lemma C3_literal_layout_fails :
  ~ kb4_layout_literal zero_sregs ∅ SIZE2MB
  /\ ~ kb4_layout_literal zero_sregs ∅ (513 * SIZE2MB).
Proof.
  split.
  - intros (_ & Hfull & _).
    destruct (Hfull 0 509) as (frame & _ & _ & Hslot); [vm_compute; split; congruence ..|].
    assert (E : load64 (slm_mem (setup_long_mode (Some zero_sregs) true ∅ SIZE2MB KB4))
                  (0x3000 + 0 * 0x1000 + 8 * 509) = 0) by (vm_compute; reflexivity).
    rewrite E in Hslot. symmetry in Hslot.
    apply Z.lor_eq_0_iff in Hslot. destruct Hslot as [_ Hslot]. discriminate Hslot.
  - intros (Hdir & _ & _).
    assert (Hi : 0 <= 512 < 513 * SIZE2MB / SIZE2MB) by (vm_compute; split; congruence).
    specialize (Hdir 512 Hi).
    assert (E : load64 (slm_mem (setup_long_mode (Some zero_sregs) true ∅ (513 * SIZE2MB) KB4))
                  (pd_addr + 8 * 512) = 0x204007) by (vm_compute; reflexivity).
    rewrite E in Hdir. discriminate Hdir.
Qed.

End PagingFacts.

(** ** Hypervisor initialisation *)

Lemma nivoA_init_releases (hv : hypervisor) (fds : gset Z) (opened queried : Z) :
  0 <= opened -> opened ∉ fds -> queried < 0 ->
  init_ret (NivoA.init_hypervisor hv fds opened queried) = -1
  /\ init_fds (NivoA.init_hypervisor hv fds opened queried) = fds.
Proof.
  intros Ho Hfresh Hq. unfold NivoA.init_hypervisor. cbn [kvm_fd kvm_run_mmap_size].
  destruct (Z.ltb_spec opened 0); [lia|].
  destruct (Z.ltb_spec queried 0); [|lia].
  cbn [init_ret init_fds]. split; [reflexivity | set_solver].
Qed.

Lemma nivoC_init_stores (hv : hypervisor) (fds : gset Z) (opened queried : Z) :
  0 <= opened -> 0 <= queried ->
  NivoC.init_hypervisor hv fds opened queried
  = {| init_hv := {| kvm_fd := opened; kvm_run_mmap_size := queried |};
       init_ret := 0; init_fds := {[ opened ]} ∪ fds |}.
Proof.
  intros Ho Hq. unfold NivoC.init_hypervisor. cbn [kvm_fd kvm_run_mmap_size].
  destruct (Z.ltb_spec opened 0); [lia|].
  destruct (Z.ltb_spec queried 0); [lia|]. reflexivity.
Qed.

(** C9.  In [nivoC] a failed size query leaves the control descriptor open:
    with [open] returning [3] and the ioctl returning [-1],
    [init_hypervisor] returns [-1] and descriptor [3] is still held, whereas
    the [nivoA] version closes it on the same path. *)
Theorem C9_nivoC_init_keeps_kvm_fd_open :
  let hv0 := {| kvm_fd := 0; kvm_run_mmap_size := 0 |} in
  init_ret (NivoC.init_hypervisor hv0 ∅ 3 (-1)) = -1
  /\ 3 ∈ init_fds (NivoC.init_hypervisor hv0 ∅ 3 (-1))
  /\ init_ret (NivoA.init_hypervisor hv0 ∅ 3 (-1)) = -1
  /\ 3 ∉ init_fds (NivoA.init_hypervisor hv0 ∅ 3 (-1)).
Proof.
  cbn. split; [reflexivity|]. split; [set_solver|]. split; [reflexivity | set_solver].
Qed.

(** ** Bytes of the data area *)

(** Replacing the low byte of a word. *)
Lemma byte_over (held value : Z) : byte (held - byte held + byte value) = byte value.
Proof.
  unfold byte.
  pose proof (Z.div_mod held 256 ltac:(lia)) as E.
  replace (held - held mod 256 + value mod 256)
    with (value mod 256 + (held / 256) * 256) by lia.
  rewrite Z.mod_add by lia. apply Z.mod_mod. lia.
Qed.

(** ** Paging: what the tables cover and what is left alone *)

Section PagingExtent.
Import Paging.

(** X1.  Whatever the page size, for a memory of at most 512 * 2 MiB the tables
    lie below the address returned for the image: the two root entries are
    in place at the end, and no word at or above the returned address has
    been written. *)
Theorem setup_long_mode_tables_below_image
    (sregs : kvm_sregs) (m : memory) (mem_size : Z) (page_size : PageSize) :
  0 < mem_size ->
  mem_size mod SIZE2MB = 0 ->
  mem_size / SIZE2MB <= 512 ->
  let r := setup_long_mode (Some sregs) true m mem_size page_size in
  load64 (slm_mem r) pml4_addr
  = Z.lor (Z.lor (Z.lor PDE64_PRESENT PDE64_RW) PDE64_USER) pdpt_addr
  /\ load64 (slm_mem r) pdpt_addr
     = Z.lor (Z.lor (Z.lor PDE64_PRESENT PDE64_RW) PDE64_USER) pd_addr
  /\ 0x3000 < slm_ret r
  /\ forall a, slm_ret r <= a -> load64 (slm_mem r) a = load64 m a.
Proof.
  intros Hpos Hmul Hcap.
  destruct (multiple_of_2mb mem_size Hpos Hmul) as [Hn _].
  destruct page_size.
  - cbn [setup_long_mode build_tables slm_mem slm_ret].
    change (u64 ((12288 / SIZE2MB + 1) * SIZE2MB)) with 0x200000.
    rewrite (u64_small (mem_size / SIZE2MB - 1)) by lia.
    cbn [slm_mem slm_ret]. change (to_int 2097152) with 2097152.
    assert (Hout : forall a, a < pd_addr \/ 0x200000 <= a ->
              load64 (pd_loop_2mb (Z.to_nat (mem_size / SIZE2MB - 1)) 0 2097152
                        (store64 (store64 m (pml4_addr + 8 * 0)
                           (Z.lor (Z.lor (Z.lor PDE64_PRESENT PDE64_RW) PDE64_USER) pdpt_addr))
                           (pdpt_addr + 8 * 0)
                           (Z.lor (Z.lor (Z.lor PDE64_PRESENT PDE64_RW) PDE64_USER) pd_addr))) a
              = load64 (store64 (store64 m (pml4_addr + 8 * 0)
                           (Z.lor (Z.lor (Z.lor PDE64_PRESENT PDE64_RW) PDE64_USER) pdpt_addr))
                           (pdpt_addr + 8 * 0)
                           (Z.lor (Z.lor (Z.lor PDE64_PRESENT PDE64_RW) PDE64_USER) pd_addr)) a).
    { intros a Ha. apply pd_loop_2mb_other. intros j Hj.
      rewrite Z2Nat.id in Hj by lia. unfold pd_addr in *. lia. }
    split; [|split; [|split]].
    + rewrite Hout by (unfold pml4_addr, pd_addr; lia).
      rewrite load64_store64_ne by (unfold pml4_addr, pdpt_addr; lia).
      change (pml4_addr + 8 * 0) with pml4_addr. apply load64_store64_eq.
    + rewrite Hout by (unfold pdpt_addr, pd_addr; lia).
      change (pdpt_addr + 8 * 0) with pdpt_addr. apply load64_store64_eq.
    + lia.
    + intros a Ha. rewrite Hout by lia.
      rewrite !load64_store64_ne; [reflexivity | |]; unfold pdpt_addr, pml4_addr; lia.
  - unfold setup_long_mode, build_tables.
    set (n := mem_size / SIZE2MB) in *.
    set (m0 := store64 (store64 m _ _) _ _).
    pose proof (pd_loop_4kb_page (Z.to_nat n) 0 0x3000 m0) as Hpage.
    pose proof (pd_loop_4kb_entry (Z.to_nat n) 0 0x3000 m0) as Hentry.
    pose proof (pd_loop_4kb_other (Z.to_nat n) 0 0x3000 m0) as Hpdother.
    destruct (pd_loop_4kb (Z.to_nat n) 0 0x3000 m0) as [m1 page].
    cbn [fst snd] in Hpage, Hentry, Hpdother. rewrite Z2Nat.id in Hpage, Hentry by lia.
    rewrite Hpage by lia.
    destruct (pt_loop_spec mem_size (0x3000 + n * 0x1000) (Z.to_nat n) 0
                (0x3000 + n * 0x1000) m1) as [Hkeep _]; rewrite ?Z2Nat.id by lia; try lia.
    { intros i Hi. rewrite Hentry by lia. f_equal. lia. }
    rewrite Z2Nat.id in Hkeep by lia.
    destruct (pt_loop mem_size (Z.to_nat n) 0 (0x3000 + n * 0x1000) m1) as [m2 pa2].
    cbn [fst snd slm_mem slm_ret] in *.
    rewrite to_int_small by lia.
    assert (Hout : forall a, a < pd_addr \/ 0x3000 + n * 0x1000 <= a ->
              load64 m2 a = load64 m0 a).
    { intros a Ha. rewrite Hkeep by (unfold pd_addr in Ha; lia).
      apply Hpdother. intros j Hj. rewrite Z2Nat.id in Hj by lia. unfold pd_addr in *. lia. }
    subst m0. split; [|split; [|split]].
    + rewrite Hout by (unfold pml4_addr, pd_addr; lia).
      rewrite load64_store64_ne by (unfold pml4_addr, pdpt_addr; lia).
      change (pml4_addr + 8 * 0) with pml4_addr. apply load64_store64_eq.
    + rewrite Hout by (unfold pdpt_addr, pd_addr; lia).
      change (pdpt_addr + 8 * 0) with pdpt_addr. apply load64_store64_eq.
    + lia.
    + intros a Ha. rewrite Hout by lia.
      rewrite !load64_store64_ne; [reflexivity | |]; unfold pdpt_addr, pml4_addr; lia.
Qed.

(** X2.  Under [MB2] the superpages entered in the page directory lie inside
    guest memory and cover it from the address returned for the image to
    its end: every address in that range falls into the frame of exactly
    the entry [(a - 0x200000) / 2MiB]. *)
Theorem mb2_superpages_cover_image_area
    (sregs : kvm_sregs) (m : memory) (mem_size a : Z) :
  0 < mem_size ->
  mem_size mod SIZE2MB = 0 ->
  mem_size / SIZE2MB - 1 <= INT_MAX ->
  0x200000 <= a < mem_size ->
  let r := setup_long_mode (Some sregs) true m mem_size MB2 in
  let i := (a - 0x200000) / SIZE2MB in
  let frame := 0x200000 + i * SIZE2MB in
  0 <= i < mem_size / SIZE2MB - 1
  /\ load64 (slm_mem r) (pd_addr + 8 * i)
     = Z.lor (Z.lor (Z.lor (Z.lor PDE64_PRESENT PDE64_RW) PDE64_USER) PDE64_PS) frame
  /\ frame <= a < frame + SIZE2MB
  /\ slm_ret r <= frame /\ frame + SIZE2MB <= mem_size.
Proof.
  intros Hpos Hmul Hint Ha.
  destruct (multiple_of_2mb mem_size Hpos Hmul) as [Hn Hsize].
  unfold INT_MAX in Hint.
  cbn zeta.
  pose proof (Z.div_mod (a - 0x200000) SIZE2MB ltac:(discriminate)) as Hdm.
  pose proof (Z.mod_pos_bound (a - 0x200000) SIZE2MB ltac:(reflexivity)) as Hmb.
  set (i := (a - 0x200000) / SIZE2MB) in *.
  assert (Hi : 0 <= i < mem_size / SIZE2MB - 1).
  { unfold SIZE2MB in *. split; [lia|].
    apply Z.nle_gt. intros Hge. nia. }
  split; [exact Hi|].
  cbn [setup_long_mode build_tables slm_mem slm_ret].
  change (u64 ((12288 / SIZE2MB + 1) * SIZE2MB)) with 0x200000.
  rewrite (u64_small (mem_size / SIZE2MB - 1)) by lia.
  cbn [slm_mem slm_ret]. change (to_int 2097152) with 2097152.
  split; [|split; [|split]].
  - rewrite pd_loop_2mb_entry.
    + f_equal. lia.
    + lia.
    + rewrite Z2Nat.id by lia. unfold SIZE2MB in *. lia.
    + rewrite Z2Nat.id by lia. lia.
  - unfold SIZE2MB in *. lia.
  - unfold SIZE2MB in *. lia.
  - unfold SIZE2MB in *. nia.
Qed.

(** X3.  Under [KB4] the break test [page_address > mem_size] lets one entry too
    many through: slot [511 * n - 3] of the run of page tables ([n] is
    [mem_size / 2MiB]) holds a present entry for the frame that starts at
    [mem_size], the first byte past guest memory.  The slots after it are
    left as they were. *)
Theorem kb4_maps_one_frame_past_memory
    (sregs : kvm_sregs) (m : memory) (mem_size : Z) :
  0 < mem_size ->
  mem_size mod SIZE2MB = 0 ->
  mem_size / SIZE2MB <= 512 ->
  let r := setup_long_mode (Some sregs) true m mem_size KB4 in
  let n := mem_size / SIZE2MB in
  load64 (slm_mem r) (0x3000 + 8 * (511 * n - 3))
  = Z.lor (Z.lor (Z.lor mem_size PDE64_PRESENT) PDE64_RW) PDE64_USER
  /\ forall k, 511 * n - 3 < k < 512 * n ->
       load64 (slm_mem r) (0x3000 + 8 * k) = load64 m (0x3000 + 8 * k).
Proof.
  intros Hpos Hmul Hcap.
  destruct (multiple_of_2mb mem_size Hpos Hmul) as [Hn Hsize].
  cbn zeta.
  destruct (build_tables_KB4 m mem_size Hpos Hmul Hcap) as (_ & _ & Hslots).
  unfold setup_long_mode. revert Hslots. unfold build_tables.
  set (n := mem_size / SIZE2MB) in *.
  set (m0 := store64 (store64 m _ _) _ _).
  pose proof (pd_loop_4kb_page (Z.to_nat n) 0 0x3000 m0) as Hpage.
  pose proof (pd_loop_4kb_entry (Z.to_nat n) 0 0x3000 m0) as Hentry.
  pose proof (pd_loop_4kb_other (Z.to_nat n) 0 0x3000 m0) as Hpdother.
  destruct (pd_loop_4kb (Z.to_nat n) 0 0x3000 m0) as [m1 page].
  cbn [fst snd] in Hpage, Hentry, Hpdother. rewrite Z2Nat.id in Hpage, Hentry by lia.
  rewrite Hpage by lia.
  pose proof (pt_loop_beyond mem_size (0x3000 + n * 0x1000) (Z.to_nat n) 0
                (0x3000 + n * 0x1000) m1) as Hbeyond.
  rewrite Z2Nat.id in Hbeyond by lia.
  destruct (pt_loop mem_size (Z.to_nat n) 0 (0x3000 + n * 0x1000) m1) as [m2 pa2].
  cbn [fst snd slm_mem]. intros Hslots. split.
  - rewrite Hslots by (unfold SIZE2MB in *; lia).
    do 3 f_equal. unfold SIZE2MB in *. lia.
  - intros k Hk. rewrite Hbeyond; try (unfold SIZE2MB in *; lia).
    + rewrite Hpdother by (intros j Hj; rewrite Z2Nat.id in Hj by lia; unfold pd_addr; lia).
      subst m0. rewrite !load64_store64_ne; [reflexivity | |]; unfold pdpt_addr, pml4_addr; lia.
    + intros i Hi. rewrite Hentry by lia. f_equal. lia.
Qed.

Lemma pd_loop_2mb_keeps c : forall i pa (m : memory) a,
  is_Some (m !! a) -> is_Some (pd_loop_2mb c i pa m !! a).
Proof.
  induction c as [|c IH]; intros i pa m a Ha; [exact Ha|].
  cbn [pd_loop_2mb]. apply IH. unfold store64.
  destruct (decide (pd_addr + 8 * i = a)) as [->|Hne].
  - rewrite lookup_insert_eq. eauto.
  - now rewrite lookup_insert_ne.
Qed.

Lemma pd_loop_2mb_written c : forall i pa (m : memory) j,
  i <= j < i + Z.of_nat c -> is_Some (pd_loop_2mb c i pa m !! (pd_addr + 8 * j)).
Proof.
  induction c as [|c IH]; intros i pa m j Hj; [lia|].
  cbn [pd_loop_2mb].
  destruct (Z.eq_dec j i) as [->|Hne].
  - apply pd_loop_2mb_keeps. unfold store64. rewrite lookup_insert_eq. eauto.
  - apply IH. lia.
Qed.

(** X4.  Under [MB2] with less than 2 MiB of memory the loop bound
    [mem_size / SIZE2MB - 1] wraps to [2^64 - 1]: the loop stores a
    directory entry for every [int] index, and from index [2^18] on the
    words stored lie at or beyond [mem_size], outside the guest's memory. *)
Theorem mb2_below_2mb_writes_past_memory
    (sregs : kvm_sregs) (ok : bool) (m : memory) (mem_size j : Z) :
  0 <= mem_size < SIZE2MB ->
  2 ^ 18 <= j <= INT_MAX ->
  mem_size <= pd_addr + 8 * j
  /\ is_Some (slm_mem (setup_long_mode (Some sregs) ok m mem_size MB2) !! (pd_addr + 8 * j)).
Proof.
  intros Hsize Hj. unfold INT_MAX in Hj.
  split; [unfold SIZE2MB, pd_addr in *; lia|].
  assert (E : slm_mem (setup_long_mode (Some sregs) ok m mem_size MB2)
              = fst (build_tables m mem_size MB2)).
  { unfold setup_long_mode. destruct (build_tables m mem_size MB2) as [m1 page].
    now destruct ok. }
  rewrite E. cbn [build_tables fst].
  rewrite Z.div_small by exact Hsize.
  change (u64 (0 - 1)) with (2 ^ 64 - 1).
  apply pd_loop_2mb_written. rewrite Z2Nat.id by lia. lia.
Qed.

End PagingExtent.

Lemma setup_long_mode_tables_below_image_witness :
  0 < Paging.SIZE2MB /\ Paging.SIZE2MB mod Paging.SIZE2MB = 0
  /\ Paging.SIZE2MB / Paging.SIZE2MB <= 512
  /\ 0x3000 < Paging.slm_ret
                (Paging.setup_long_mode (Some Paging.zero_sregs) true ∅ Paging.SIZE2MB Paging.KB4).
Proof.
  split; [reflexivity|]. split; [reflexivity|]. split; [discriminate|].
  apply (setup_long_mode_tables_below_image Paging.zero_sregs ∅ Paging.SIZE2MB Paging.KB4);
    [reflexivity | reflexivity | discriminate].
Defined.

Lemma mb2_superpages_cover_image_area_witness :
  0 < 4 * Paging.SIZE2MB /\ (4 * Paging.SIZE2MB) mod Paging.SIZE2MB = 0
  /\ 0x200000 <= 0x5FFFFF < 4 * Paging.SIZE2MB
  /\ Paging.load64
       (Paging.slm_mem
          (Paging.setup_long_mode (Some Paging.zero_sregs) true ∅ (4 * Paging.SIZE2MB) Paging.MB2))
       (Paging.pd_addr + 8 * ((0x5FFFFF - 0x200000) / Paging.SIZE2MB))
     = Z.lor (Z.lor (Z.lor (Z.lor Paging.PDE64_PRESENT Paging.PDE64_RW) Paging.PDE64_USER)
                Paging.PDE64_PS)
             (0x200000 + (0x5FFFFF - 0x200000) / Paging.SIZE2MB * Paging.SIZE2MB).
Proof.
  split; [reflexivity|]. split; [reflexivity|].
  split; [split; [discriminate | reflexivity]|].
  apply (mb2_superpages_cover_image_area Paging.zero_sregs ∅ (4 * Paging.SIZE2MB) 0x5FFFFF);
    [reflexivity | reflexivity | discriminate | split; [discriminate | reflexivity]].
Defined.

Lemma kb4_maps_one_frame_past_memory_witness :
  0 < Paging.SIZE2MB /\ Paging.SIZE2MB mod Paging.SIZE2MB = 0
  /\ Paging.load64
       (Paging.slm_mem
          (Paging.setup_long_mode (Some Paging.zero_sregs) true ∅ Paging.SIZE2MB Paging.KB4))
       (0x3000 + 8 * (511 * (Paging.SIZE2MB / Paging.SIZE2MB) - 3))
     = Z.lor (Z.lor (Z.lor Paging.SIZE2MB Paging.PDE64_PRESENT) Paging.PDE64_RW)
             Paging.PDE64_USER.
Proof.
  split; [reflexivity|]. split; [reflexivity|].
  apply (kb4_maps_one_frame_past_memory Paging.zero_sregs ∅ Paging.SIZE2MB);
    [reflexivity | reflexivity | discriminate].
Defined.

Lemma mb2_below_2mb_writes_past_memory_witness :
  1024 * 1024 <= Paging.pd_addr + 8 * 2 ^ 18
  /\ is_Some (Paging.slm_mem
                (Paging.setup_long_mode (Some Paging.zero_sregs) true ∅ (1024 * 1024) Paging.MB2)
              !! (Paging.pd_addr + 8 * 2 ^ 18)).
Proof.
  apply (mb2_below_2mb_writes_past_memory Paging.zero_sregs true ∅ (1024 * 1024) (2 ^ 18));
    [split; [discriminate | reflexivity] | split; discriminate].
Defined.
(** ** Setting guests up *)

Section SetupFacts.

(** X5.  [init_guest] is all or nothing: either it returns [-1], has assigned
    no identifier and leaves [incId] as it was, or every call it made was
    granted, the value returned is the non-negative address
    [setup_long_mode] gave, the guest starts idle with an empty list of
    files and the identifier [incId], and [incId] has grown by one. *)
Theorem init_guest_all_or_nothing
    (k : Setup.kernel) (mem_size : Z) (page_size : Paging.PageSize)
    (pty : Z) (r : run_region) (incId : Z) (s : Setup.setup) :
  Setup.init_guest k mem_size page_size pty r incId = Some s ->
  (Setup.setup_ret s = -1 /\ Setup.setup_guest s = None /\ Setup.setup_incId s = incId)
  \/ (0 <= Setup.setup_ret s
      /\ Setup.setup_ret s
         = Paging.slm_ret (Paging.setup_long_mode (Setup.kvm_get_sregs k) true ∅ mem_size page_size)
      /\ Setup.setup_guest s = Some (init_guest pty incId r)
      /\ Setup.setup_incId s = incId + 1
      /\ 0 <= Setup.kvm_create_vm k /\ is_Some (Setup.mmap_memory k)
      /\ 0 <= Setup.kvm_set_user_memory_region k /\ 0 <= Setup.kvm_create_vcpu k
      /\ is_Some (Setup.mmap_kvm_run k) /\ is_Some (Setup.kvm_get_sregs k)
      /\ Setup.kvm_set_sregs k = true /\ 0 <= Setup.kvm_get_regs k /\ 0 <= Setup.kvm_set_regs k).
Proof.
  unfold Setup.init_guest, Setup.create_guest, Setup.create_memory_region, Setup.create_vcpu,
    Setup.create_kvm_run, Setup.setup_registers.
  destruct (Z.ltb_spec (Setup.kvm_create_vm k) 0) as [|Hvm];
    [intros [= <-]; left; now repeat split|].
  destruct (Setup.mmap_memory k) as [mem|]; [|intros [= <-]; left; now repeat split].
  destruct (Z.ltb_spec (Setup.kvm_set_user_memory_region k) 0) as [|Hreg];
    [intros [= <-]; left; now repeat split|].
  destruct (Z.ltb_spec (Setup.kvm_create_vcpu k) 0) as [|Hcpu];
    [intros [= <-]; left; now repeat split|].
  destruct (Setup.mmap_kvm_run k) as [run|]; [|intros [= <-]; left; now repeat split].
  change (0 <? 0) with false. cbv iota.
  destruct (Z.ltb_spec (Paging.slm_ret
              (Paging.setup_long_mode (Setup.kvm_get_sregs k) (Setup.kvm_set_sregs k) ∅ mem_size page_size)) 0)
    as [|Haddr]; [intros [= <-]; left; now repeat split|].
  destruct (Z.ltb_spec (Setup.kvm_get_regs k) 0) as [|Hget];
    [intros [= <-]; left; now repeat split|].
  destruct (Z.ltb_spec (Setup.kvm_set_regs k) 0) as [|Hset];
    [intros [= <-]; left; now repeat split|].
  change (0 <? 0) with false. cbv iota.
  destruct (incId =? INT_MAX); [discriminate|].
  intros [= <-]. right. cbn [Setup.setup_ret Setup.setup_guest Setup.setup_incId].
  unfold Paging.setup_long_mode in Haddr |- *.
  destruct (Setup.kvm_get_sregs k) as [sregs|]; [|cbn in Haddr; lia].
  destruct (Paging.build_tables ∅ mem_size page_size) as [m1 page].
  destruct (Setup.kvm_set_sregs k); [|cbn in Haddr; lia].
  repeat split; eauto.
Qed.

Lemma init_guest_started
    (k : Setup.kernel) (mem_size : Z) (page_size : Paging.PageSize)
    (pty : Z) (r : run_region) (incId : Z) (s : Setup.setup) :
  Setup.init_guest k mem_size page_size pty r incId = Some s ->
  0 <= Setup.setup_ret s ->
  Setup.setup_guest s = Some (init_guest pty incId r) /\ Setup.setup_incId s = incId + 1.
Proof.
  unfold Setup.init_guest.
  repeat match goal with
         | |- context [if ?c then _ else _] => destruct c
         end;
    try discriminate; intros [= <-]; cbn [Setup.setup_ret Setup.setup_guest Setup.setup_incId];
    intros Hret; try lia; now split.
Qed.

Lemma start_guests_ids (images : list Setup.image) memory page_size : forall incId guests,
  Setup.start_guests images memory page_size incId = Setup.Started guests ->
  length guests = length images
  /\ forall i vm a, guests !! i = Some (vm, a) ->
       id vm = incId + Z.of_nat i
       /\ lock vm = 0 /\ current_file vm = None /\ files vm = []
       /\ file_indirect vm = head_slot.
Proof.
  induction images as [|img rest IH]; intros incId guests; cbn [Setup.start_guests].
  { intros [= <-]. split; [reflexivity|]. intros i vm a Hi. now rewrite lookup_nil in Hi. }
  destruct (Setup.fopen_ok img); [|discriminate].
  destruct (Setup.malloc_ok img); [|discriminate]. cbn [negb].
  destruct (Setup.init_guest _ _ _ _ _ _) as [s|] eqn:Einit; [|discriminate].
  destruct (Z.ltb_spec (Setup.setup_ret s) 0) as [|Hret]; [discriminate|].
  destruct (init_guest_started _ _ _ _ _ _ _ Einit Hret) as [Hg Hid].
  rewrite Hg, Hid.
  destruct (Setup.start_guests rest memory page_size (incId + 1)) as [| |gs] eqn:Erest;
    try discriminate.
  intros [= <-]. destruct (IH _ _ Erest) as [Hlen Hgs].
  split; [cbn [length]; now rewrite Hlen|].
  intros [|i] vm a Hi.
  - cbn in Hi. injection Hi as <- <-. cbn. split; [lia | now repeat split].
  - cbn in Hi. destruct (Hgs i vm a Hi) as (Hidv & Hrest).
    split; [lia | exact Hrest].
Qed.

(** X6.  The guests that [main] starts carry the identifiers 0, 1, 2, ... in
    the order of the command line, one per image, and each starts idle
    with an empty list of files. *)
Theorem guests_are_numbered_in_order
    (images : list Setup.image) (memory : Z) (page_size : Paging.PageSize)
    (guests : list (guest * Z)) :
  Setup.start_guests images memory page_size 0 = Setup.Started guests ->
  length guests = length images
  /\ forall i vm a, guests !! i = Some (vm, a) ->
       id vm = Z.of_nat i
       /\ lock vm = 0 /\ current_file vm = None /\ files vm = []
       /\ file_indirect vm = head_slot.
Proof.
  intros Hs. destruct (start_guests_ids images memory page_size 0 guests Hs) as [Hlen Hgs].
  split; [exact Hlen|]. intros i vm a Hi. exact (Hgs i vm a Hi).
Qed.

End SetupFacts.

(** ** The name space of a guest *)

Lemma decimal_value_app (ds1 ds2 : list Z) : forall v,
  decimal_value (ds1 ++ ds2) v = decimal_value ds2 (decimal_value ds1 v).
Proof. induction ds1 as [|c ds1 IH]; intros v; [reflexivity | apply IH]. Qed.

Lemma digits_S (fuel : nat) (n : Z) (acc : list Z) :
  digits (S fuel) n acc
  = if n / 10 =? 0 then (48 + n mod 10) :: acc
    else digits fuel (n / 10) ((48 + n mod 10) :: acc).
Proof. reflexivity. Qed.

Lemma digits_spec (fuel : nat) : forall n acc,
  0 <= n < 10 ^ Z.of_nat (S fuel) ->
  exists ds,
    digits (S fuel) n acc = ds ++ acc
    /\ Forall (fun c => 48 <= c <= 57) ds
    /\ ds <> []
    /\ forall v, decimal_value ds v = v * 10 ^ Z.of_nat (length ds) + n.
Proof.
  induction fuel as [|fuel IH]; intros n acc Hn.
  - change (10 ^ Z.of_nat 1) with 10 in Hn.
    exists [48 + n mod 10]. rewrite digits_S.
    assert (n / 10 = 0) by (apply Z.div_small; lia).
    assert (n mod 10 = n) by (apply Z.mod_small; lia).
    destruct (Z.eqb_spec (n / 10) 0); [|lia].
    split; [reflexivity|]. split; [repeat constructor; lia|]. split; [discriminate|].
    intros v. cbn. lia.
  - pose proof (Z.div_mod n 10 ltac:(lia)) as Hdm.
    pose proof (Z.mod_pos_bound n 10 ltac:(lia)) as Hmb.
    rewrite digits_S.
    destruct (Z.eqb_spec (n / 10) 0) as [E|E].
    + exists [48 + n mod 10].
      split; [reflexivity|]. split; [repeat constructor; lia|]. split; [discriminate|].
      intros v. cbn. lia.
    + assert (Hq : 0 <= n / 10 < 10 ^ Z.of_nat (S fuel)).
      { split; [apply Z.div_pos; lia|].
        apply Z.div_lt_upper_bound; [lia|].
        replace (Z.of_nat (S (S fuel))) with (Z.of_nat (S fuel) + 1) in Hn by lia.
        rewrite Z.pow_add_r in Hn by lia. lia. }
      destruct (IH (n / 10) ((48 + n mod 10) :: acc) Hq) as (ds & Hds & Hall & Hne & Hval).
      exists (ds ++ [48 + n mod 10]).
      split; [rewrite Hds, <- app_assoc; reflexivity|].
      split; [apply Forall_app; split; [exact Hall | repeat constructor; lia]|].
      split; [now destruct ds|].
      intros v. rewrite decimal_value_app, Hval. cbn [decimal_value].
      rewrite length_app. cbn [length].
      replace (Z.of_nat (length ds + 1)) with (Z.of_nat (length ds) + 1) by lia.
      rewrite Z.pow_add_r by lia. lia.
Qed.

Lemma digits_injective (n n' : Z) :
  0 <= n < 10 ^ 10 -> 0 <= n' < 10 ^ 10 ->
  digits 10 n [] = digits 10 n' [] -> n = n'.
Proof.
  intros Hn Hn' E.
  destruct (digits_spec 9 n [] Hn) as (ds & Hds & _ & _ & Hval).
  destruct (digits_spec 9 n' [] Hn') as (ds' & Hds' & _ & _ & Hval').
  rewrite Hds, Hds', !app_nil_r in E. subst ds'.
  specialize (Hval 0). specialize (Hval' 0). lia.
Qed.

Lemma print_int_chars (n : Z) :
  - 2 ^ 31 <= n < 2 ^ 31 -> Forall (fun c => c <> 95) (print_int n).
Proof.
  intros Hn. unfold print_int.
  destruct (Z.ltb_spec n 0).
  - destruct (digits_spec 9 (- n) []) as (ds & Hds & Hall & _); [lia|].
    rewrite Hds, app_nil_r. constructor; [discriminate|].
    eapply Forall_impl; [exact Hall|]. cbn. intros c Hc. lia.
  - destruct (digits_spec 9 n []) as (ds & Hds & Hall & _); [lia|].
    rewrite Hds, app_nil_r.
    eapply Forall_impl; [exact Hall|]. cbn. intros c Hc. lia.
Qed.

Lemma print_int_injective (n n' : Z) :
  - 2 ^ 31 <= n < 2 ^ 31 -> - 2 ^ 31 <= n' < 2 ^ 31 ->
  print_int n = print_int n' -> n = n'.
Proof.
  intros Hn Hn'. unfold print_int.
  destruct (Z.ltb_spec n 0), (Z.ltb_spec n' 0).
  - intros [= E]. apply digits_injective in E; lia.
  - destruct (digits_spec 9 n' []) as (ds & Hds & Hall & Hne & _); [lia|].
    rewrite Hds, app_nil_r. destruct Hall as [|c ds Hc _]; [contradiction|].
    intros [= E _]. lia.
  - destruct (digits_spec 9 n []) as (ds & Hds & Hall & Hne & _); [lia|].
    rewrite Hds, app_nil_r. destruct Hall as [|c ds Hc _]; [contradiction|].
    intros [= E _]. lia.
  - intros E. apply digits_injective in E; lia.
Qed.

Lemma split_at_separator (sep : Z) (p1 : list Z) : forall p2 n1 n2,
  Forall (fun c => c <> sep) p1 -> Forall (fun c => c <> sep) p2 ->
  p1 ++ sep :: n1 = p2 ++ sep :: n2 -> p1 = p2 /\ n1 = n2.
Proof.
  induction p1 as [|c p1 IH]; intros p2 n1 n2 H1 H2 E.
  - destruct p2 as [|c2 p2]; [now injection E|].
    injection E as E _. inversion H2; subst. contradiction.
  - inversion H1 as [|? ? Hc H1']; subst.
    destruct p2 as [|c2 p2]; [injection E as E _; contradiction|].
    injection E as -> E. inversion H2 as [|? ? Hc2 H2']; subst.
    destruct (IH _ _ _ H1' H2' E) as [-> ->]. now split.
Qed.



Lemma init_guest_all_or_nothing_witness :
  (Setup.setup_ret first_setup = -1 /\ Setup.setup_guest first_setup = None
   /\ Setup.setup_incId first_setup = 0)
  \/ (0 <= Setup.setup_ret first_setup
      /\ Setup.setup_ret first_setup
         = Paging.slm_ret (Paging.setup_long_mode (Setup.kvm_get_sregs Setup.willing) true ∅
                             (4 * Paging.SIZE2MB) Paging.MB2)
      /\ Setup.setup_guest first_setup = Some (init_guest 5 0 in_byte)
      /\ Setup.setup_incId first_setup = 0 + 1
      /\ 0 <= Setup.kvm_create_vm Setup.willing /\ is_Some (Setup.mmap_memory Setup.willing)
      /\ 0 <= Setup.kvm_set_user_memory_region Setup.willing
      /\ 0 <= Setup.kvm_create_vcpu Setup.willing
      /\ is_Some (Setup.mmap_kvm_run Setup.willing)
      /\ is_Some (Setup.kvm_get_sregs Setup.willing)
      /\ Setup.kvm_set_sregs Setup.willing = true
      /\ 0 <= Setup.kvm_get_regs Setup.willing /\ 0 <= Setup.kvm_set_regs Setup.willing).
Proof.
  apply (init_guest_all_or_nothing Setup.willing (4 * Paging.SIZE2MB) Paging.MB2 5 in_byte 0
           first_setup).
  vm_compute. reflexivity.
Defined.

Lemma guests_are_numbered_in_order_witness :
  length two_guests = length [Setup.willing_image; Setup.willing_image]
  /\ forall i vm a, two_guests !! i = Some (vm, a) ->
       id vm = Z.of_nat i
       /\ lock vm = 0 /\ current_file vm = None /\ files vm = []
       /\ file_indirect vm = head_slot.
Proof.
  apply (guests_are_numbered_in_order [Setup.willing_image; Setup.willing_image]
           (4 * Paging.SIZE2MB) Paging.MB2 two_guests).
  vm_compute. reflexivity.
Defined.
(** X8.  [nivoA]: [init_hypervisor] either succeeds, holding the one descriptor
    it opened and having stored it with the size, or fails holding none
    that was not held before. *)
Theorem nivoA_init_hypervisor_balanced
    (hv : hypervisor) (fds : gset Z) (opened queried : Z) :
  opened ∉ fds ->
  let r := NivoA.init_hypervisor hv fds opened queried in
  (init_ret r = 0 /\ init_fds r = {[ opened ]} ∪ fds
   /\ 0 <= opened /\ 0 <= queried
   /\ init_hv r = {| kvm_fd := opened; kvm_run_mmap_size := queried |})
  \/ (init_ret r = -1 /\ init_fds r = fds /\ (opened < 0 \/ queried < 0)).
Proof.
  intros Hfresh. cbv zeta. unfold NivoA.init_hypervisor. cbn [kvm_fd kvm_run_mmap_size].
  destruct (Z.ltb_spec opened 0).
  - right. cbn [init_ret init_fds]. repeat split. now left.
  - destruct (Z.ltb_spec queried 0).
    + right. cbn [init_ret init_fds]. split; [reflexivity|]. split; [set_solver | now right].
    + left. cbn [init_ret init_fds init_hv]. now repeat split.
Qed.

Lemma nivoA_init_hypervisor_balanced_witness :
  let r := NivoA.init_hypervisor {| kvm_fd := 0; kvm_run_mmap_size := 0 |} ∅ 3 (-1) in
  (init_ret r = 0 /\ init_fds r = {[ 3 ]} ∪ ∅
   /\ 0 <= 3 /\ 0 <= -1
   /\ init_hv r = {| kvm_fd := 3; kvm_run_mmap_size := -1 |})
  \/ (init_ret r = -1 /\ init_fds r = ∅ /\ (3 < 0 \/ -1 < 0)).
Proof.
  apply (nivoA_init_hypervisor_balanced {| kvm_fd := 0; kvm_run_mmap_size := 0 |} ∅ 3 (-1)).
  set_solver.
Defined.

(** ** The console of [nivoA] *)

Section NivoAConsoleFacts.
Context {H : Type} `{Host H}.


End NivoAConsoleFacts.

(** ** The guest's console routines: numbers out and in *)

Lemma digit_char (d : Z) :
  0 <= d < 10 -> GuestConsole.digits !! Z.to_nat d = Some (48 + d).
Proof.
  intros Hd.
  assert (E : d = 0 \/ d = 1 \/ d = 2 \/ d = 3 \/ d = 4 \/ d = 5 \/ d = 6 \/ d = 7
              \/ d = 8 \/ d = 9) by lia.
  repeat (destruct E as [E | E]); subst d; reflexivity.
Qed.

Lemma printint_loop_decimal (k : nat) : forall turns x buf,
  0 <= x < 10 ^ Z.of_nat (S k) ->
  (S k <= turns)%nat -> (length buf + S k <= 16)%nat ->
  exists ds,
    GuestConsole.printint_loop turns x 10 buf = Some (buf ++ ds)
    /\ Forall (fun c => 48 <= c <= 57) ds
    /\ forall v, 0 <= v -> decimal_value (rev ds) v = v * 10 ^ Z.of_nat (length ds) + x.
Proof.
  induction k as [|k IH]; intros turns x buf Hx Hturns Hlen;
    (destruct turns as [|turns]; [lia|]); cbn [GuestConsole.printint_loop];
    (destruct (Z.leb_spec 16 (Z.of_nat (length buf))); [lia|]);
    change (10 =? 0) with false; cbv iota;
    pose proof (Z.div_mod x 10 ltac:(lia)) as Hdm;
    pose proof (Z.mod_pos_bound x 10 ltac:(lia)) as Hmb;
    rewrite (digit_char (x mod 10)) by lia.
  - change (10 ^ Z.of_nat 1) with 10 in Hx.
    assert (x / 10 = 0) by (apply Z.div_small; lia).
    destruct (Z.eqb_spec (x / 10) 0); [|lia].
    exists [48 + x mod 10]. split; [reflexivity|].
    split; [repeat constructor; lia|]. intros v Hv. cbn. lia.
  - destruct (Z.eqb_spec (x / 10) 0) as [E|E].
    + exists [48 + x mod 10]. split; [reflexivity|].
      split; [repeat constructor; lia|]. intros v Hv. cbn. lia.
    + assert (Hq : 0 <= x / 10 < 10 ^ Z.of_nat (S k)).
      { split; [apply Z.div_pos; lia|].
        apply Z.div_lt_upper_bound; [lia|].
        replace (Z.of_nat (S (S k))) with (Z.of_nat (S k) + 1) in Hx by lia.
        rewrite Z.pow_add_r in Hx by lia. lia. }
      destruct (IH turns (x / 10) (buf ++ [48 + x mod 10]) Hq) as (ds & Hds & Hall & Hval).
      { lia. }
      { rewrite length_app. cbn [length]. lia. }
      exists ((48 + x mod 10) :: ds).
      split; [rewrite Hds, <- app_assoc; reflexivity|].
      split; [constructor; [lia | exact Hall]|].
      intros v Hv. cbn [rev length]. rewrite decimal_value_app, Hval by exact Hv.
      cbn [decimal_value].
      replace (Z.of_nat (S (length ds))) with (Z.of_nat (length ds) + 1) by lia.
      rewrite Z.pow_add_r by lia. lia.
Qed.

Lemma decimal_value_ge (ds : list Z) : forall v,
  Forall (fun c => 48 <= c <= 57) ds -> 0 <= v -> v <= decimal_value ds v.
Proof.
  induction ds as [|c ds IH]; intros v Hall Hv; [cbn; lia|].
  inversion Hall as [|? ? Hc Hrest]; subst. cbn [decimal_value].
  specialize (IH (v * 10 + (c - 48)) Hrest). lia.
Qed.

Lemma scan_int_loop_digits (ds : list Z) : forall num rest,
  Forall (fun c => 48 <= c <= 57) ds -> 0 <= num ->
  decimal_value ds num <= INT_MAX ->
  GuestConsole.scan_int_loop (ds ++ 10 :: rest) num = Some (decimal_value ds num, rest).
Proof.
  induction ds as [|c ds IH]; intros num rest Hall Hnum Hmax; [reflexivity|].
  inversion Hall as [|? ? Hc Hrest]; subst.
  cbn [app GuestConsole.scan_int_loop decimal_value] in *.
  assert (Hs : GuestConsole.schar c = c).
  { unfold GuestConsole.schar, byte. rewrite Z.mod_small by lia.
    destruct (Z.ltb_spec c 128); [reflexivity | lia]. }
  rewrite Hs. destruct (Z.eqb_spec c 10); [lia|].
  pose proof (decimal_value_ge ds (num * 10 + (c - 48)) Hrest ltac:(lia)) as Hge.
  unfold GuestConsole.in_int, INT_MAX in *.
  destruct (Z.leb_spec (- 2 ^ 31) (num * 10)); [|lia].
  destruct (Z.leb_spec (num * 10) (2 ^ 31 - 1)); [|lia].
  destruct (Z.leb_spec (- 2 ^ 31) (num * 10 + (c - 48))); [|lia].
  destruct (Z.leb_spec (num * 10 + (c - 48)) (2 ^ 31 - 1)); [|lia].
  cbn [andb negb]. apply IH; [exact Hrest | lia | exact Hmax].
Qed.

(** X28.  What [printint] prints for a non-negative [int] in base 10 is a
    string of decimal digits that [scan_int], reading it back up to a
    newline, turns into the same number, without overflow on the way. *)
Theorem scan_int_reads_back_printint (xx : Z) :
  0 <= xx <= INT_MAX ->
  exists chars,
    GuestConsole.printint xx 10 1 = Some chars
    /\ Forall (fun c => 48 <= c <= 57) chars
    /\ forall rest, GuestConsole.scan_int (chars ++ 10 :: rest) = Some (xx, rest).
Proof.
  intros Hxx. unfold INT_MAX in Hxx. unfold GuestConsole.printint.
  destruct (Z.ltb_spec xx 0); [lia|]. rewrite andb_false_r. cbv iota.
  assert (Hu : u32 xx = xx) by (unfold u32; apply Z.mod_small; lia).
  rewrite Hu. change (u32 10) with 10.
  destruct (printint_loop_decimal 9 17 xx []) as (ds & Hds & Hall & Hval);
    [lia | lia | cbn [length]; lia |].
  rewrite Hds. cbn [app].
  exists (rev ds). split; [reflexivity|].
  split; [now apply Forall_rev|].
  intros rest. unfold GuestConsole.scan_int.
  specialize (Hval 0 ltac:(lia)). cbn in Hval.
  rewrite scan_int_loop_digits.
  - now rewrite Hval.
  - now apply Forall_rev.
  - lia.
  - rewrite Hval. unfold INT_MAX. lia.
Qed.

Lemma scan_int_reads_back_printint_witness :
  exists chars,
    GuestConsole.printint 1203 10 1 = Some chars
    /\ Forall (fun c => 48 <= c <= 57) chars
    /\ forall rest, GuestConsole.scan_int (chars ++ 10 :: rest) = Some (1203, rest).
Proof.
  apply (scan_int_reads_back_printint 1203). split; [lia | discriminate].
Defined.

(** ** The guest's arithmetic *)

Lemma fact_Z (m : nat) : Z.of_nat (fact (S m)) = Z.of_nat (S m) * Z.of_nat (fact m).
Proof. change (fact (S m)) with (S m * fact m)%nat. apply Nat2Z.inj_mul. Qed.

(** X29.  [factorial] returns [n!] for every [n] up to 12, with 1 for
    [n <= 1]; from 13 on the product overflows [int]. *)
Theorem factorial_exact_up_to_12 (n : Z) :
  NivoB.factorial n = if n <=? 12 then Some (Z.of_nat (fact (Z.to_nat n))) else None.
Proof.
  unfold NivoB.factorial.
  destruct (Z.leb_spec n 12) as [Hle|Hgt].
  - destruct (Z.le_gt_cases n 1) as [H1|H1].
    + cbn [NivoB.factorial_loop]. destruct (Z.leb_spec 2 n); [lia|].
      assert (E : Z.to_nat n = 0%nat \/ Z.to_nat n = 1%nat) by lia.
      destruct E as [-> | ->]; reflexivity.
    + assert (E : n = 2 \/ n = 3 \/ n = 4 \/ n = 5 \/ n = 6 \/ n = 7 \/ n = 8 \/ n = 9
                  \/ n = 10 \/ n = 11 \/ n = 12) by lia.
      repeat (destruct E as [E | E]);
        subst n; set (m := Z.to_nat _); vm_compute in m; subst m;
        rewrite !fact_Z; reflexivity.
  - cbn [NivoB.factorial_loop].
    repeat (match goal with
            | |- context [?i <=? n] => destruct (Z.leb_spec i n); [|lia]
            end; cbn).
    reflexivity.
Qed.

Lemma divisor_factor (d n m : Z) :
  (d | n) -> 0 < m -> d mod m = 0 -> n mod m = 0.
Proof.
  intros Hdn Hm Hd. apply Z.mod_divide; [lia|].
  apply Z.mod_divide in Hd; [|lia]. eapply Z.divide_trans; eassumption.
Qed.

Lemma no_small_divisor_prime (n i : Z) :
  1 < n -> 0 < i -> n < i * i ->
  (forall d, 1 < d < i -> ~ (d | n)) -> Z.prime n.
Proof.
  intros Hn Hi Hsq Hnone. split; [exact Hn|].
  intros d Hd [q Hq].
  destruct (Z.lt_ge_cases d i) as [Hlt|Hge]; [apply (Hnone d); [lia | now exists q]|].
  assert (Hqpos : 1 < q) by nia.
  assert (Hqi : q < i) by nia.
  apply (Hnone q); [lia|]. exists d. lia.
Qed.

Lemma is_prime_loop_spec (fuel : nat) : forall k n,
  0 <= k <= 7723 -> 7725 <= Z.of_nat fuel + k ->
  3 < n -> n mod 2 <> 0 -> n mod 3 <> 0 ->
  (forall d, 1 < d < 6 * k + 5 -> ~ (d | n)) ->
  k = 0 \/ (6 * k - 1) * (6 * k - 1) <= n ->
  match NivoB.is_prime_loop fuel (6 * k + 5) n with
  | Some v => (v = 1 /\ Z.prime n) \/ (v = 0 /\ ~ Z.prime n)
  | None => 46337 * 46337 <= n /\ forall d, 1 < d < 46343 -> ~ (d | n)
  end.
Proof.
  induction fuel as [|fuel IH]; intros k n Hk Hfuel Hn H2 H3 Hnone Hprev; [lia|].
  cbn [NivoB.is_prime_loop]. unfold INT_MAX.
  destruct (Z.ltb_spec (2 ^ 31 - 1) ((6 * k + 5) * (6 * k + 5))) as [Hov|Hov].
  { assert (k = 7723) by nia. subst k. split; [lia | exact Hnone]. }
  assert (Hkmax : k <= 7722) by nia.
  destruct (Z.leb_spec ((6 * k + 5) * (6 * k + 5)) n) as [Hsq|Hsq].
  - destruct (Z.eqb_spec (n mod (6 * k + 5)) 0) as [E1|E1].
    + right. split; [reflexivity|]. intros [_ Hp].
      apply (Hp (6 * k + 5)); [nia|].
      apply Z.mod_divide; [lia | exact E1].
    + destruct (Z.eqb_spec (n mod (6 * k + 5 + 2)) 0) as [E2|E2].
      * right. split; [reflexivity|]. intros [_ Hp].
        apply (Hp (6 * k + 5 + 2)); [nia|].
        apply Z.mod_divide; [lia | exact E2].
      * cbn [orb].
        replace (6 * k + 5 + 6) with (6 * (k + 1) + 5) by lia.
        apply IH; try assumption; try lia.
        intros d Hd Hdiv.
        destruct (Z.lt_ge_cases d (6 * k + 5)) as [Hlt|Hge];
          [apply (Hnone d); [lia | exact Hdiv]|].
        assert (Ed : d = 6 * k + 5 \/ d = 6 * k + 6 \/ d = 6 * k + 7 \/ d = 6 * k + 8
                     \/ d = 6 * k + 9 \/ d = 6 * k + 10) by lia.
        destruct Ed as [-> | [-> | [-> | [-> | [-> | ->]]]]].
        -- apply E1. apply Z.mod_divide; [lia | exact Hdiv].
        -- apply H2. apply (divisor_factor (6 * k + 6) n 2 Hdiv); [lia|].
           replace (6 * k + 6) with ((3 * k + 3) * 2) by lia. apply Z.mod_mul. lia.
        -- apply E2. apply Z.mod_divide; [lia|].
           replace (6 * k + 5 + 2) with (6 * k + 7) by lia. exact Hdiv.
        -- apply H2. apply (divisor_factor (6 * k + 8) n 2 Hdiv); [lia|].
           replace (6 * k + 8) with ((3 * k + 4) * 2) by lia. apply Z.mod_mul. lia.
        -- apply H3. apply (divisor_factor (6 * k + 9) n 3 Hdiv); [lia|].
           replace (6 * k + 9) with ((2 * k + 3) * 3) by lia. apply Z.mod_mul. lia.
        -- apply H2. apply (divisor_factor (6 * k + 10) n 2 Hdiv); [lia|].
           replace (6 * k + 10) with ((3 * k + 5) * 2) by lia. apply Z.mod_mul. lia.
  - left. split; [reflexivity|].
    apply (no_small_divisor_prime n (6 * k + 5)); [lia | lia | lia | exact Hnone].
Qed.

(** X30.  [is_prime] is right whenever it returns: 1 for a prime and 0 for
    any other number.  It fails to return only on a number of at least
    46337 squared with no divisor below 46343, where the test [i * i <= n]
    overflows. *)
Theorem is_prime_decides_primality (n : Z) :
  match NivoB.is_prime n with
  | Some v => (v = 1 /\ Z.prime n) \/ (v = 0 /\ ~ Z.prime n)
  | None => 46337 * 46337 <= n /\ forall d, 1 < d < 46343 -> ~ (d | n)
  end.
Proof.
  unfold NivoB.is_prime.
  destruct (Z.leb_spec n 1) as [H1|H1].
  { right. split; [reflexivity|]. intros [Hp _]. lia. }
  destruct (Z.leb_spec n 3) as [H3|H3].
  { left. split; [reflexivity|].
    assert (E : n = 2 \/ n = 3) by lia.
    destruct E as [-> | ->]; [apply Z.prime_2 | apply Z.prime_3]. }
  destruct (Z.eqb_spec (n mod 2) 0) as [E2|E2].
  { right. split; [reflexivity|]. intros [_ Hp].
    apply (Hp 2); [lia|]. apply Z.mod_divide; [lia | exact E2]. }
  destruct (Z.eqb_spec (n mod 3) 0) as [E3|E3].
  { right. split; [reflexivity|]. intros [_ Hp].
    apply (Hp 3); [lia|]. apply Z.mod_divide; [lia | exact E3]. }
  cbn [orb].
  apply (is_prime_loop_spec (Z.to_nat 7725) 0 n); try assumption; try lia.
  intros d Hd Hdiv.
  assert (Ed : d = 2 \/ d = 3 \/ d = 4) by lia.
  destruct Ed as [-> | [-> | ->]].
  - apply E2. apply Z.mod_divide; [lia | exact Hdiv].
  - apply E3. apply Z.mod_divide; [lia | exact Hdiv].
  - apply E2. apply (divisor_factor 4 n 2 Hdiv); [lia | reflexivity].
Qed.
(** ** Console and exit dispatch *)

Lemma completes_bind_inv {H A B} (p : proc H A) (f : H -> guest -> A -> proc H B) g b :
  completes (proc_bind p f) g b ->
  exists h1 g1 a, completes p g1 a /\ completes (f h1 g1 a) g b.
Proof.
  revert g b. induction p as [h g0 a | h g0 k IH | h g0 k IH | u |]; cbn [proc_bind]; intros g b Hc.
  - exists h, g0, a. split; [constructor | exact Hc].
  - inversion Hc; subst.
    match goal with Hk : completes (proc_bind _ _) _ _ |- _ =>
      destruct (IH _ _ _ Hk) as (h1 & g1 & a & Hp & Hf) end.
    exists h1, g1, a. split; [econstructor; eassumption | exact Hf].
  - inversion Hc; subst.
    match goal with Hk : completes (proc_bind _ _) _ _ |- _ =>
      destruct (IH _ _ _ Hk) as (h1 & g1 & a & Hp & Hf) end.
    exists h1, g1, a. split; [econstructor; eassumption | exact Hf].
  - inversion Hc.
  - inversion Hc.
Qed.

(** C7.  On an I/O exit on port [0x278] (that is not a console exit),
    [exit_io] calls [handle_file] and then runs off the end of its body:
    whenever it completes it has returned no value at all, neither 0 nor
    any other. *)
Theorem C7_exit_io_file_port_returns_nothing {H} `{Host H}
    (c0 : Z) (h : H) (vm : guest) (vm' : guest) (v : option Z) :
  io_port (kvm_run vm) = 0x278 ->
  completes (exit_io c0 h vm) vm' v ->
  v = None.
Proof.
  intros Hport Hc. unfold exit_io in Hc. rewrite Hport in Hc.
  change (0x278 =? 0xE9) with false in Hc. rewrite !andb_false_r in Hc.
  change (0x278 =? 0x278) with true in Hc. cbn match in Hc.
  apply completes_bind_inv in Hc. destruct Hc as (h1 & g1 & a & _ & Hret).
  inversion Hret. reflexivity.
Qed.

Lemma C7_exit_io_file_port_returns_nothing_witness :
  io_port (kvm_run (init_guest 5 0 in_byte)) = 0x278
  /\ completes (exit_io 0 toy0 (init_guest 5 0 in_byte)) (init_guest 5 0 in_byte) None
  /\ @None Z = None.
Proof.
  split; [reflexivity|].
  assert (Hc : completes (exit_io 0 toy0 (init_guest 5 0 in_byte)) (init_guest 5 0 in_byte) None)
    by (vm_compute; constructor).
  split; [exact Hc|].
  exact (C7_exit_io_file_port_returns_nothing 0 toy0 (init_guest 5 0 in_byte)
           (init_guest 5 0 in_byte) None eq_refl Hc).
Defined.

(** The run loop then reads a value that does not exist. *)
Lemma run_guest_after_file_exit :
  exec 1 (run_guest 0 [(0, in_byte)] 0 toy0 (init_guest 5 0 in_byte)) = Crashed NoReturnValue.
Proof. vm_compute. reflexivity. Qed.


(** C8.  On a console input exit whose [read] is short, [exit_io] hands the
    guest whatever its local [c] held before the call: the byte stored in the
    run region is [c0], not the end-of-file mark. *)
Theorem C8_console_short_read_stores_garbage {H} `{Host H}
    (c0 : Z) (h h' : H) (vm : guest) :
  io_direction (kvm_run vm) = KVM_EXIT_IO_IN ->
  io_port (kvm_run vm) = 0xE9 ->
  host_read h (pty_master vm) = (h', None) ->
  exit_io c0 h vm = Ret h' (put_char vm c0) (Some 0)
  /\ data_char (kvm_run (put_char vm c0)) = byte c0.
Proof.
  intros Hdir Hport Hread. unfold exit_io. rewrite Hdir, Hport, Hread.
  split; [reflexivity|].
  unfold data_char, put_char, byte. cbn [kvm_run set_kvm_run io_data set_io_data].
  pose proof (Z.mod_pos_bound (io_data (kvm_run vm)) 256 eq_refl).
  pose proof (Z.mod_pos_bound c0 256 eq_refl).
  rewrite (Z.div_mod (io_data (kvm_run vm)) 256) at 1 by discriminate.
  replace (256 * (io_data (kvm_run vm) / 256) + io_data (kvm_run vm) mod 256
           - io_data (kvm_run vm) mod 256 + c0 mod 256)
    with (c0 mod 256 + (io_data (kvm_run vm) / 256) * 256) by lia.
  rewrite Z.mod_add by discriminate. apply Z.mod_mod. discriminate.
Qed.

Lemma C8_console_short_read_stores_garbage_witness :
  data_char (kvm_run (put_char (init_guest 5 0 console_in) 65)) = byte 65
  /\ byte 65 <> byte EOF.
Proof.
  split; [|discriminate].
  apply (C8_console_short_read_stores_garbage 65 toy0 toy0 (init_guest 5 0 console_in));
    reflexivity.
Defined.

(** ** The run loop *)

Section RunLoop.
Context {H : Type} `{Host H}.

Lemma run_guest_stopped (c0 : Z) (exits : list (Z * run_region)) (stop : Z) (h : H) (vm : guest) :
  stop <> 0 -> run_guest c0 exits stop h vm = Ret h vm stop.
Proof.
  intros Hs. destruct exits as [|[ret r] rest]; [reflexivity|].
  cbn [run_guest]. destruct (Z.eqb_spec stop 0); [contradiction | reflexivity].
Qed.

Lemma run_guest_console_out (c0 : Z) (bytes : list Z) : forall exits (h : H) (vm : guest),
  run_guest c0 (map (fun c => (0, console_out c)) bytes ++ exits) 0 h vm
  = run_guest c0 exits 0 (write_stream bytes h (pty_master vm))
      (match last bytes with
       | Some c => set_kvm_run vm (console_out c)
       | None => vm
       end).
Proof.
  induction bytes as [|c bytes IH]; intros exits h vm; [reflexivity|].
  cbn [map app run_guest write_stream].
  change (0 =? 0) with true. change (0 <? 0) with false. cbv iota.
  change (handlers c0 (exit_reason (console_out c))) with (Some (Some (exit_io (H := H) c0))).
  cbv iota. unfold exit_io at 1.
  cbn [kvm_run set_kvm_run console_out io_direction io_port io_size io_data pty_master].
  change ((KVM_EXIT_IO_OUT =? KVM_EXIT_IO_OUT) && (233 =? 233)) with true.
  change (1 =? 1) with true. cbv iota. cbn [proc_bind].
  rewrite IH. cbn [pty_master set_kvm_run].
  change (data_char (console_out c)) with (byte c).
  destruct bytes as [|c1 bytes]; [reflexivity|].
  cbn [last]. destruct (last (c1 :: bytes)) eqn:E; [reflexivity|].
  apply last_None in E. discriminate.
Qed.



End RunLoop.


(** ** The file engine: dispatch *)

Lemma to_int_u32 d : - 2 ^ 31 <= d < 2 ^ 31 -> to_int (u32 d) = d.
Proof.
  intros Hd. unfold to_int, u32.
  destruct (Z.lt_ge_cases d 0) as [Hneg|Hpos].
  - replace (d mod 2 ^ 32) with (d + 2 ^ 32).
    + replace (d + 2 ^ 32 + 2 ^ 31) with (d + 2 ^ 31 + 1 * 2 ^ 32) by lia.
      rewrite Z.mod_add by lia. rewrite Z.mod_small; lia.
    + apply Z.mod_unique with (q := -1); lia.
  - rewrite (Z.mod_small d) by lia. rewrite Z.mod_small; lia.
Qed.

Section Dispatch.
Context {H : Type} `{Host H}.

Lemma handle_file_out_dword (h : H) (vm : guest) (d : Z) :
  - 2 ^ 31 <= d < 2 ^ 31 ->
  handle_file h (set_kvm_run vm (out_dword d))
  = let vm' := set_kvm_run vm (out_dword d) in
    if lock vm =? 0 then start_file_operation h vm' d
    else if lock vm =? OPEN then opened_file_op_flags h vm' d
    else if d =? FINISH then end_file_operation h vm'
    else get_file_descriptor h vm' d.
Proof.
  intros Hd. unfold handle_file.
  cbn [kvm_run set_kvm_run out_dword file_io io_direction io_size lock].
  change ((KVM_EXIT_IO_OUT =? KVM_EXIT_IO_OUT) && (4 =? 4)) with true. cbn match.
  change (data_int (out_dword d)) with (to_int (u32 d)). now rewrite to_int_u32.
Qed.

Lemma handle_file_out_byte (h : H) (vm : guest) (c : Z) :
  handle_file h (set_kvm_run vm (out_byte c))
  = let vm' := set_kvm_run vm (out_byte c) in
    if lock vm =? OPEN then opened_file_op_name h vm' (byte c)
    else if lock vm =? WRITE then write_file h vm' (byte c)
    else Ret h vm' 0.
Proof.
  unfold handle_file.
  cbn [kvm_run set_kvm_run out_byte file_io io_direction io_size lock].
  change ((KVM_EXIT_IO_OUT =? KVM_EXIT_IO_OUT) && (1 =? 4)) with false.
  change ((KVM_EXIT_IO_OUT =? KVM_EXIT_IO_OUT) && (1 =? 1)) with true. cbn match.
  change (data_char (out_byte c)) with (byte (byte c)).
  unfold byte. now rewrite Z.mod_mod.
Qed.

Lemma handle_file_in_dword (h : H) (vm : guest) :
  handle_file h (set_kvm_run vm in_dword)
  = let vm' := set_kvm_run vm in_dword in
    if lock vm =? CLOSE then close_op_status h vm'
    else if lock vm =? OPEN then opened_file_op_send_fd h vm'
    else Ret h vm' 0.
Proof. reflexivity. Qed.

End Dispatch.

(** ** The file engine: what a handler leaves alone *)

Ltac break_match :=
  match goal with
  | |- context [match ?x with _ => _ end] => destruct x eqn:?
  end.

Lemma cur_inv (vm : guest) a f :
  cur vm = Ok (a, f) -> current_file vm = Some a /\ heap vm !! a = Some f.
Proof.
  unfold cur. destruct (current_file vm) as [b|]; [|discriminate].
  destruct (heap vm !! b) as [f0|] eqn:E; [|discriminate].
  intros [= -> ->]. now split.
Qed.

Lemma cur_intro (vm : guest) a f :
  current_file vm = Some a -> heap vm !! a = Some f -> cur vm = Ok (a, f).
Proof. intros Hc Hh. unfold cur. now rewrite Hc, Hh. Qed.

Lemma store_slot_fields (vm vm' : guest) p v :
  store_slot vm p v = Ok vm' ->
  lock vm' = lock vm /\ current_file vm' = current_file vm
  /\ file_indirect vm' = file_indirect vm /\ heap_next vm' = heap_next vm
  /\ id vm' = id vm /\ kvm_run vm' = kvm_run vm.
Proof.
  destruct p as [|b]; cbn.
  - intros [= <-]. now repeat split.
  - destruct (heap vm !! b); [|discriminate]. intros [= <-]. now repeat split.
Qed.

Lemma unlink_fields fuel : forall (vm vm' : guest) p,
  unlink fuel vm p = Found vm' ->
  lock vm' = lock vm /\ current_file vm' = current_file vm
  /\ file_indirect vm' = file_indirect vm /\ heap_next vm' = heap_next vm
  /\ id vm' = id vm /\ kvm_run vm' = kvm_run vm.
Proof.
  induction fuel as [|fuel IH]; intros vm vm' p; cbn [unlink]; [discriminate|].
  destruct (load_slot vm p) as [[a|]|]; try discriminate.
  destruct (decide (Some a = current_file vm)); [|apply IH].
  destruct (heap vm !! a) as [f|]; [|discriminate].
  destruct (store_slot vm p (next f)) as [vm1|] eqn:E; [|discriminate].
  intros [= <-]. eapply store_slot_fields, E.
Qed.

Lemma free_fields (vm vm' : guest) p :
  free vm p = Ok vm' ->
  lock vm' = lock vm /\ current_file vm' = current_file vm
  /\ file_head vm' = file_head vm
  /\ file_indirect vm' = file_indirect vm /\ heap_next vm' = heap_next vm
  /\ id vm' = id vm /\ kvm_run vm' = kvm_run vm.
Proof.
  destruct p as [a|]; cbn.
  - destruct (heap vm !! a); [|discriminate]. intros [= <-]. now repeat split.
  - intros [= <-]. now repeat split.
Qed.

Section Locks.
Context {H : Type} `{Host H}.

Lemma set_cur_fd_lock (vm vm' : guest) v :
  set_cur_fd vm v = Ok vm' -> lock vm' = lock vm /\ current_file vm' = current_file vm.
Proof.
  unfold set_cur_fd, mbind, res_bind. destruct (cur vm) as [[a f]|]; [|discriminate].
  intros [= <-]. now split.
Qed.

Lemma opened_file_op_flags_lock (h : H) (vm : guest) d :
  keeps_lock vm (opened_file_op_flags h vm d).
Proof.
  unfold opened_file_op_flags, keeps_lock, lift, mbind, res_bind.
  destruct (cur vm) as [[a f]|]; [|exact I].
  destruct (flags f =? -1); [reflexivity|].
  destruct (check_path_exists _ _) as [[h1 local_fd]|]; [|exact I].
  destruct (local_fd <? 0).
  - destruct (cur _) as [[a1 f1]|]; [|exact I].
    destruct (negb _).
    + destruct (create_local_copy _ _) as [h2|]; [|exact I].
      destruct (check_path_exists _ _) as [[h3 v]|]; [|exact I].
      destruct (set_cur_fd _ _) as [vm2|] eqn:E; [|exact I].
      now apply set_cur_fd_lock in E.
    + destruct (c_string _) as [name|]; [|exact I].
      destruct (host_open _ _ _ _) as [h2 v].
      destruct (set_cur_fd _ _) as [vm2|] eqn:E; [|exact I].
      now apply set_cur_fd_lock in E.
  - destruct (set_cur_fd _ _) as [vm2|] eqn:E; [|exact I].
    now apply set_cur_fd_lock in E.
Qed.

Lemma opened_file_op_name_lock (h : H) (vm : guest) c :
  keeps_lock vm (opened_file_op_name h vm c).
Proof.
  unfold opened_file_op_name, keeps_lock, lift, mbind, res_bind.
  destruct (cur vm) as [[a f]|]; [|exact I].
  destruct ((0 <=? cnt f) && (cnt f <? IME_SIZE)); [reflexivity | exact I].
Qed.

Lemma get_file_descriptor_lock (h : H) (vm : guest) d :
  keeps_lock vm (get_file_descriptor h vm d).
Proof.
  unfold get_file_descriptor, keeps_lock.
  destruct (find_fd _ _ _ _); cbn; (reflexivity || exact I).
Qed.

Lemma close_op_status_lock (h : H) (vm : guest) :
  keeps_lock vm (close_op_status h vm).
Proof.
  unfold close_op_status, keeps_lock.
  destruct (match current_file vm with
            | Some _ => _ | None => _ end) as [[h1 st]|]; [|exact I].
  destruct (unlink (S (size (heap vm))) vm head_slot) as [vm1| | |] eqn:Eu; try exact I.
  - destruct (free vm1 (current_file vm1)) as [vm2|] eqn:Ef; [|exact I]. cbn.
    apply free_fields in Ef. apply unlink_fields in Eu. intuition congruence.
  - destruct (free vm (current_file vm)) as [vm2|] eqn:Ef; [|exact I]. cbn.
    apply free_fields in Ef. intuition congruence.
Qed.

Lemma read_file_lock (h : H) (vm : guest) : keeps_lock vm (read_file h vm).
Proof.
  unfold read_file, keeps_lock, lift, mbind, res_bind.
  destruct (current_file vm); [|reflexivity].
  destruct (cur vm) as [[a f]|]; [|exact I].
  destruct (host_read h (fd f)). reflexivity.
Qed.

Lemma write_file_lock (h : H) (vm : guest) c : keeps_lock vm (write_file h vm c).
Proof.
  unfold write_file, keeps_lock, lift, mbind, res_bind.
  destruct (current_file vm); [|reflexivity].
  destruct (cur vm) as [[a f]|]; [exact eq_refl | exact I].
Qed.

Lemma effect_none (vm : guest) (p : proc H Z) : keeps_lock vm p -> lock_effect vm p.
Proof. destruct p; cbn; tauto. Qed.

Lemma start_file_operation_effect (h : H) (vm : guest) op :
  lock vm = 0 -> lock_effect vm (start_file_operation h vm op).
Proof.
  intros Hl. split; [reflexivity|]. split; [assumption|]. intros h'.
  destruct (op =? OPEN); [|exact I].
  cbv zeta. break_match; exact I.
Qed.

Lemma end_file_operation_effect (h : H) (vm g : guest) :
  lock vm <> 0 -> lock g = lock vm -> lock_effect vm (end_file_operation h g).
Proof.
  intros Hl Hg. split; [assumption|]. split; [assumption|].
  intros h'. eexists. split; [reflexivity|]. now split.
Qed.

Lemma handle_file_effect (h : H) (vm : guest) : lock_effect vm (handle_file h vm).
Proof.
  unfold handle_file.
  destruct ((io_direction (kvm_run vm) =? KVM_EXIT_IO_OUT) && (io_size (kvm_run vm) =? 4)).
  { destruct (Z.eqb_spec (lock vm) 0) as [E0|E0];
      [now apply start_file_operation_effect|].
    destruct (lock vm =? OPEN); [apply effect_none, opened_file_op_flags_lock|].
    destruct (data_int (kvm_run vm) =? FINISH);
      [now apply end_file_operation_effect | apply effect_none, get_file_descriptor_lock]. }
  destruct ((io_direction (kvm_run vm) =? KVM_EXIT_IO_OUT) && (io_size (kvm_run vm) =? 1)).
  { destruct (lock vm =? OPEN); [apply effect_none, opened_file_op_name_lock|].
    destruct (lock vm =? WRITE); [apply effect_none, write_file_lock|].
    now apply effect_none. }
  destruct ((io_direction (kvm_run vm) =? KVM_EXIT_IO_IN) && (io_size (kvm_run vm) =? 4)).
  { destruct (lock vm =? CLOSE); [apply effect_none, close_op_status_lock|].
    destruct (Z.eqb_spec (lock vm) OPEN) as [EO|EO]; [|now apply effect_none].
    unfold opened_file_op_send_fd.
    destruct (cur vm) as [[a f]|]; [|now apply effect_none].
    apply end_file_operation_effect; [rewrite EO; discriminate | reflexivity]. }
  destruct ((io_direction (kvm_run vm) =? KVM_EXIT_IO_IN) && (io_size (kvm_run vm) =? 1)).
  { destruct (lock vm =? READ); [apply effect_none, read_file_lock | now apply effect_none]. }
  now apply effect_none.
Qed.

End Locks.

(** ** Handlers run to their end *)

Lemma exec_completes {H A} (p : proc H A) : forall sem sem' h g a,
  exec sem p = Finished sem' h g a -> completes p g a.
Proof.
  induction p as [h0 g0 a0 | h0 g0 k IH | h0 g0 k IH | u |]; intros sem sem' h g a; cbn [exec].
  - intros [= _ _ <- <-]. constructor.
  - destruct (0 <? sem); [|discriminate]. intros E.
    apply (completes_wait _ _ _ h0). eapply IH, E.
  - intros E. apply (completes_post _ _ _ h0). eapply IH, E.
  - discriminate.
  - discriminate.
Qed.

Lemma serve_served {H} `{Host H} (exits : list run_region) :
  forall sem h vm sem' h' vm' v,
    served vm -> serve sem h vm exits = Finished sem' h' vm' v -> served vm'.
Proof.
  induction exits as [|r exits IH]; intros sem h vm sem' h' vm' v Hs; cbn [serve].
  - now intros [= _ _ <- _].
  - destruct (exec sem (handle_file h (set_kvm_run vm r))) as [sem1 h1 vm1 v1| | |] eqn:E;
      try discriminate.
    apply IH. eapply served_file; [apply served_exit, Hs | eapply exec_completes, E].
Qed.
(** ** OPEN: flags, mode and the path chosen *)

Section Open.
Context {H : Type} `{Host H}.

Lemma cur_updated (vm : guest) a f1 :
  current_file vm = Some a ->
  cur (set_heap vm (<[a := f1]> (heap vm))) = Ok (a, f1).
Proof.
  intros Hc. unfold cur. cbn [current_file heap set_heap]. rewrite Hc.
  now rewrite lookup_insert_eq.
Qed.

Lemma opened_file_op_flags_first (h : H) (vm : guest) a f d :
  current_file vm = Some a -> heap vm !! a = Some f -> flags f = -1 ->
  opened_file_op_flags h vm d
  = Ret h (set_heap vm (<[a := set_flags f d]> (heap vm))) 0.
Proof.
  intros Hc Hh Hf. unfold opened_file_op_flags, mbind, res_bind.
  rewrite (cur_intro vm a f Hc Hh), Hf. reflexivity.
Qed.

Lemma opened_file_op_flags_resolve (h : H) (vm : guest) a f name d :
  current_file vm = Some a -> heap vm !! a = Some f ->
  flags f <> -1 -> c_string (ime f) = Ok name ->
  opened_file_op_flags h vm d
  = Ret (fst (resolve h (id vm) name (flags f) (u32 d)))
        (set_heap vm
           (<[a := set_fd (set_mode f (u32 d))
                          (snd (resolve h (id vm) name (flags f) (u32 d)))]>
              (<[a := set_mode f (u32 d)]> (heap vm))))
        0.
Proof.
  intros Hc Hh Hf Hname. unfold opened_file_op_flags, mbind, res_bind.
  rewrite (cur_intro vm a f Hc Hh).
  destruct (Z.eqb_spec (flags f) (-1)) as [E|_]; [contradiction|].
  unfold check_path_exists, create_local_copy, set_cur_fd, resolve, mbind, res_bind.
  rewrite (cur_updated vm a (set_mode f (u32 d)) Hc).
  cbn [ime flags mode set_mode id set_heap]. rewrite Hname.
  destruct (host_access h (sandbox_path (id vm) name)).
  - destruct (host_open h (sandbox_path (id vm) name) (flags f) (u32 d)) as [h1 v1].
    destruct (v1 <? 0); [|reflexivity].
    destruct (negb _).
    + destruct (host_access _ _); [|reflexivity].
      destruct (host_open _ _ _ _) as [h3 v3]. reflexivity.
    + destruct (host_open _ _ _ _) as [h3 v3]. reflexivity.
  - change (-1 <? 0) with true. cbv iota.
    destruct (negb _).
    + destruct (host_access _ _); [|reflexivity].
      destruct (host_open _ _ _ _) as [h3 v3]. reflexivity.
    + destruct (host_open _ _ _ _) as [h3 v3]. reflexivity.
Qed.

(** When the guest's copy exists and [open] accepts it, or when it does not
    exist, the descriptor is the one the specification names. *)
Lemma resolve_existing (h : H) vm_id name fl md :
  host_access h (sandbox_path vm_id name) = true ->
  0 <= snd (host_open h (sandbox_path vm_id name) fl md) ->
  resolve h vm_id name fl md = host_open h (sandbox_path vm_id name) fl md.
Proof.
  intros Ha Hv. unfold resolve. rewrite Ha.
  destruct (host_open h (sandbox_path vm_id name) fl md) as [h1 v1]. cbn in Hv.
  destruct (Z.ltb_spec v1 0); [lia | reflexivity].
Qed.

Lemma resolve_missing_read_only (h : H) vm_id name fl md :
  host_access h (sandbox_path vm_id name) = false ->
  Z.land fl (Z.lor (Z.lor (Z.lor O_RDWR O_WRONLY) O_TRUNC) O_APPEND) = 0 ->
  resolve h vm_id name fl md = host_open h name fl md.
Proof.
  intros Ha Hfl. unfold resolve. rewrite Ha, Hfl. reflexivity.
Qed.

Lemma resolve_missing_write (h : H) vm_id name fl md :
  host_access h (sandbox_path vm_id name) = false ->
  Z.land fl (Z.lor (Z.lor (Z.lor O_RDWR O_WRONLY) O_TRUNC) O_APPEND) <> 0 ->
  host_access (fst (host_open h (sandbox_path vm_id name) O_CREAT 511))
              (sandbox_path vm_id name) = true ->
  resolve h vm_id name fl md
  = host_open (fst (host_open h (sandbox_path vm_id name) O_CREAT 511))
              (sandbox_path vm_id name) fl md.
Proof.
  intros Ha Hfl Hcreated. unfold resolve. rewrite Ha.
  change (-1 <? 0) with true. cbv iota.
  destruct (Z.eqb_spec (Z.land fl (Z.lor (Z.lor (Z.lor O_RDWR O_WRONLY) O_TRUNC) O_APPEND)) 0);
    [contradiction|].
  cbn [negb]. now rewrite Hcreated.
Qed.

End Open.

(** C1.  The guest's copy [vm_0_p] exists on the host but [open] refuses it
    (it returns [-1]); the guest asks for "p" read-only.  The engine then
    opens the shared "p" of the host directory and hands its descriptor, 3,
    to the guest, where the specification has the (failed) opening of the
    existing copy decide the descriptor. *)
Theorem C1_unopenable_copy_falls_through :
  host_access toy_denied_copy (sandbox_path 0 [112]) = true
  /\ snd (host_open toy_denied_copy (sandbox_path 0 [112]) O_RDONLY 0) = -1
  /\ snd (host_open toy_denied_copy [112] O_RDONLY 0) = 3
  /\ exists h' vm',
       serve 1 toy_denied_copy (init_guest 5 0 in_byte)
         ([out_dword OPEN] ++ send_name [112]
          ++ [out_dword O_RDONLY; out_dword 0; in_dword])
       = Finished 1 h' vm' 0
       /\ data_int (kvm_run vm') = 3.
Proof.
  split; [reflexivity|]. split; [reflexivity|]. split; [reflexivity|].
  eexists _, _. split; [vm_compute; reflexivity | reflexivity].
Qed.
(** ** OPEN: the three ordinary ways to a descriptor *)

Section OpenPaths.
Context {H : Type} `{Host H}.

(** X12.  The guest's own copy exists and opens: the descriptor is that of the
    copy, opened with the flags and the mode the guest sent. *)
Theorem open_prefers_own_copy
    (h : H) (vm : guest) (a : Z) (f : file) (name : list Z) (d : Z) :
  current_file vm = Some a -> heap vm !! a = Some f ->
  flags f <> -1 -> c_string (ime f) = Ok name ->
  host_access h (sandbox_path (id vm) name) = true ->
  0 <= snd (host_open h (sandbox_path (id vm) name) (flags f) (u32 d)) ->
  opened_file_op_flags h vm d
  = Ret (fst (host_open h (sandbox_path (id vm) name) (flags f) (u32 d)))
        (set_heap vm
           (<[a := set_fd (set_mode f (u32 d))
                          (snd (host_open h (sandbox_path (id vm) name) (flags f) (u32 d)))]>
              (<[a := set_mode f (u32 d)]> (heap vm))))
        0.
Proof.
  intros Hc Hf Hfl Hname Hacc Hfd.
  rewrite (opened_file_op_flags_resolve h vm a f name d Hc Hf Hfl Hname).
  now rewrite (resolve_existing h (id vm) name (flags f) (u32 d) Hacc Hfd).
Qed.

(** X13.  No copy, and flags without any of [O_RDWR], [O_WRONLY], [O_TRUNC],
    [O_APPEND]: the name is opened as the guest gave it, outside the
    guest's name space, with the guest's flags as they are ([O_CREAT]
    passes the test). *)
Theorem open_without_copy_reads_shared_name
    (h : H) (vm : guest) (a : Z) (f : file) (name : list Z) (d : Z) :
  current_file vm = Some a -> heap vm !! a = Some f ->
  flags f <> -1 -> c_string (ime f) = Ok name ->
  host_access h (sandbox_path (id vm) name) = false ->
  Z.land (flags f) (Z.lor (Z.lor (Z.lor O_RDWR O_WRONLY) O_TRUNC) O_APPEND) = 0 ->
  opened_file_op_flags h vm d
  = Ret (fst (host_open h name (flags f) (u32 d)))
        (set_heap vm
           (<[a := set_fd (set_mode f (u32 d)) (snd (host_open h name (flags f) (u32 d)))]>
              (<[a := set_mode f (u32 d)]> (heap vm))))
        0.
Proof.
  intros Hc Hf Hfl Hname Hacc Hmask.
  rewrite (opened_file_op_flags_resolve h vm a f name d Hc Hf Hfl Hname).
  now rewrite (resolve_missing_read_only h (id vm) name (flags f) (u32 d) Hacc Hmask).
Qed.

(** X14.  No copy, and flags that ask for writing: the copy is created by an
    [open] with [O_CREAT] and mode 0777 whose descriptor is dropped, and,
    if it exists afterwards, opened a second time with the guest's flags
    and mode; that second descriptor is the one stored.  The shared name is
    not opened. *)
Theorem open_for_writing_creates_own_copy
    (h : H) (vm : guest) (a : Z) (f : file) (name : list Z) (d : Z) :
  current_file vm = Some a -> heap vm !! a = Some f ->
  flags f <> -1 -> c_string (ime f) = Ok name ->
  host_access h (sandbox_path (id vm) name) = false ->
  Z.land (flags f) (Z.lor (Z.lor (Z.lor O_RDWR O_WRONLY) O_TRUNC) O_APPEND) <> 0 ->
  host_access (fst (host_open h (sandbox_path (id vm) name) O_CREAT 511))
              (sandbox_path (id vm) name) = true ->
  let h1 := fst (host_open h (sandbox_path (id vm) name) O_CREAT 511) in
  opened_file_op_flags h vm d
  = Ret (fst (host_open h1 (sandbox_path (id vm) name) (flags f) (u32 d)))
        (set_heap vm
           (<[a := set_fd (set_mode f (u32 d))
                          (snd (host_open h1 (sandbox_path (id vm) name) (flags f) (u32 d)))]>
              (<[a := set_mode f (u32 d)]> (heap vm))))
        0.
Proof.
  intros Hc Hf Hfl Hname Hacc Hmask Hcreated. cbv zeta.
  rewrite (opened_file_op_flags_resolve h vm a f name d Hc Hf Hfl Hname).
  now rewrite (resolve_missing_write h (id vm) name (flags f) (u32 d) Hacc Hmask Hcreated).
Qed.

End OpenPaths.
(** ** OPEN: the name *)

Section Name.
Context {H : Type} `{Host H}.

(** The guest just after the handler of its first [OUT dword OPEN]. *)
Lemma first_open_started (sem : Z) (h : H) (pty vm_id : Z) (r : run_region) :
  0 < sem ->
  exists vm1,
    exec sem (handle_file h (set_kvm_run (init_guest pty vm_id r) (out_dword OPEN)))
    = Finished (sem - 1) h vm1 0
    /\ lock vm1 = OPEN /\ current_file vm1 = Some 1
    /\ heap vm1 !! 1 = Some init_file /\ id vm1 = vm_id.
Proof.
  intros Hsem. eexists. rewrite handle_file_out_dword by (unfold OPEN; lia).
  cbn [lock init_guest]. change (0 =? 0) with true. cbv iota zeta.
  unfold start_file_operation. cbn [exec].
  destruct (Z.ltb_spec 0 sem); [|lia].
  change (OPEN =? OPEN) with true. cbv iota zeta. cbn.
  split; [reflexivity|]. repeat split.
Qed.

(** One more byte of the name while there is room. *)
Lemma name_byte_stored (h : H) (vm : guest) a f c :
  lock vm = OPEN -> current_file vm = Some a -> heap vm !! a = Some f ->
  0 <= cnt f < IME_SIZE ->
  handle_file h (set_kvm_run vm (out_byte c))
  = Ret h (set_heap (set_kvm_run vm (out_byte c))
             (<[a := set_name f (cnt f + 1) (<[Z.to_nat (cnt f) := Some (byte c)]> (ime f))]>
                (heap vm))) 0.
Proof.
  intros Hl Hc Hh Hcnt. rewrite handle_file_out_byte, Hl.
  change (OPEN =? OPEN) with true. cbv iota zeta.
  unfold opened_file_op_name, mbind, res_bind.
  rewrite (cur_intro (set_kvm_run vm (out_byte c)) a f Hc Hh).
  destruct (Z.leb_spec 0 (cnt f)); [|lia].
  destruct (Z.ltb_spec (cnt f) IME_SIZE); [|lia]. reflexivity.
Qed.

(** ... and the store past the end of the array when there is none. *)
Lemma name_byte_overruns (h : H) (vm : guest) a f c :
  lock vm = OPEN -> current_file vm = Some a -> heap vm !! a = Some f ->
  IME_SIZE <= cnt f ->
  handle_file h (set_kvm_run vm (out_byte c)) = Undef OutOfBounds.
Proof.
  intros Hl Hc Hh Hcnt. rewrite handle_file_out_byte, Hl.
  change (OPEN =? OPEN) with true. cbv iota zeta.
  unfold opened_file_op_name, mbind, res_bind.
  rewrite (cur_intro (set_kvm_run vm (out_byte c)) a f Hc Hh).
  destruct (Z.ltb_spec (cnt f) IME_SIZE); [lia|]. now rewrite andb_false_r.
Qed.

Lemma serve_name_overrun (bs : list Z) : forall sem (h : H) (vm : guest) a f,
  lock vm = OPEN -> current_file vm = Some a -> heap vm !! a = Some f ->
  0 <= cnt f <= IME_SIZE ->
  IME_SIZE < cnt f + Z.of_nat (length bs) ->
  serve sem h vm (map out_byte bs) = Crashed OutOfBounds.
Proof.
  induction bs as [|c bs IH]; intros sem h vm a f Hl Hc Hh Hcnt Hlen; [cbn in Hlen; lia|].
  cbn [map serve].
  destruct (Z.eq_dec (cnt f) IME_SIZE) as [Efull|Hroom].
  - rewrite (name_byte_overruns h vm a f c) by (assumption || lia). reflexivity.
  - rewrite (name_byte_stored h vm a f c) by (assumption || lia). cbn [exec].
    eapply (IH sem h _ a);
      [assumption | assumption | apply lookup_insert_eq
      | cbn [cnt set_name]; lia | cbn [cnt set_name length] in *; lia].
Qed.

Lemma serve_name_stored (bs : list Z) : forall (pre : list Z) sem (h : H) (vm : guest) a f,
  lock vm = OPEN -> current_file vm = Some a -> heap vm !! a = Some f ->
  cnt f = Z.of_nat (length pre) ->
  ime f = map Some pre ++ replicate (Z.to_nat IME_SIZE - length pre) None ->
  (length pre + length bs <= Z.to_nat IME_SIZE)%nat ->
  exists vm' f',
    serve sem h vm (map out_byte bs) = Finished sem h vm' 0
    /\ lock vm' = OPEN /\ current_file vm' = Some a /\ id vm' = id vm
    /\ heap vm' !! a = Some f'
    /\ cnt f' = Z.of_nat (length (pre ++ map byte bs))
    /\ ime f' = map Some (pre ++ map byte bs)
                ++ replicate (Z.to_nat IME_SIZE - length (pre ++ map byte bs)) None
    /\ flags f' = flags f /\ mode f' = mode f /\ fd f' = fd f.
Proof.
  induction bs as [|c bs IH]; intros pre sem h vm a f Hl Hc Hh Hcnt Hime Hlen.
  { exists vm, f. cbn [map serve]. rewrite app_nil_r. now repeat split. }
  cbn [map serve]. cbn [length] in Hlen.
  change (Z.to_nat IME_SIZE) with 50%nat in *.
  rewrite (name_byte_stored h vm a f c) by (assumption || (unfold IME_SIZE; lia)). cbn [exec].
  destruct (IH (pre ++ [byte c]) sem h
              (set_heap (set_kvm_run vm (out_byte c))
                 (<[a := set_name f (cnt f + 1)
                           (<[Z.to_nat (cnt f) := Some (byte c)]> (ime f))]> (heap vm)))
              a (set_name f (cnt f + 1) (<[Z.to_nat (cnt f) := Some (byte c)]> (ime f))))
    as (vm' & f' & Hs & Hl' & Hc' & Hid' & Hh' & Hcnt' & Hime' & Hfl & Hmd & Hfd).
  - assumption.
  - assumption.
  - apply lookup_insert_eq.
  - cbn [cnt set_name]. rewrite Hcnt, length_app. cbn [length]. lia.
  - cbn [ime set_name]. rewrite Hime, Hcnt, Nat2Z.id.
    rewrite insert_app_r_alt by (rewrite length_map; lia).
    rewrite length_map, Nat.sub_diag, length_app. cbn [length].
    destruct (50 - length pre)%nat as [|k] eqn:Ek; [lia|].
    replace (50 - (length pre + 1))%nat with k by lia.
    cbn. rewrite map_app, <- app_assoc. reflexivity.
  - rewrite length_app. cbn [length]. lia.
  - exists vm', f'. rewrite <- app_assoc in Hcnt', Hime'. cbn [app] in Hcnt', Hime'.
    repeat split; assumption.
Qed.

Lemma c_string_terminated (name : list Z) (rest : list (option Z)) :
  Forall (fun c => c <> 0) name ->
  c_string (map Some (name ++ [0]) ++ rest) = Ok name.
Proof.
  induction 1 as [|c name Hc _ IH]; [reflexivity|].
  cbn [map app c_string]. destruct (Z.eqb_spec c 0); [contradiction|].
  unfold mbind, res_bind. cbn [map app] in IH. now rewrite IH.
Qed.

(** A name of at most 49 bytes and its terminator fit: the engine has
    stored them all, [cnt] is at most 50 and the array reads back as the
    name. *)
Lemma name_accepted (sem : Z) (h : H) (pty vm_id : Z) (r : run_region) (name : list Z) :
  0 < sem ->
  (length name <= 49)%nat ->
  Forall (fun c => byte c <> 0) name ->
  exists vm' f',
    serve sem h (init_guest pty vm_id r) (out_dword OPEN :: send_name name)
    = Finished (sem - 1) h vm' 0
    /\ lock vm' = OPEN /\ current_file vm' = Some 1 /\ heap vm' !! 1 = Some f'
    /\ cnt f' = Z.of_nat (length name) + 1 /\ cnt f' <= IME_SIZE
    /\ c_string (ime f') = Ok (map byte name).
Proof.
  intros Hsem Hlen Hnz.
  destruct (first_open_started sem h pty vm_id r Hsem) as (vm1 & Hs1 & Hl1 & Hc1 & Hh1 & _).
  cbn [serve]. rewrite Hs1.
  destruct (serve_name_stored (name ++ [0]) [] (sem - 1) h vm1 1 init_file)
    as (vm' & f' & Hs & Hl' & Hc' & _ & Hh' & Hcnt' & Hime' & _); try assumption; try reflexivity.
  { change (Z.to_nat IME_SIZE) with 50%nat. rewrite length_app. cbn [length]. lia. }
  unfold send_name. change [out_byte 0] with (map out_byte [0]). rewrite <- map_app, Hs.
  exists vm', f'. cbn [app] in Hcnt', Hime'.
  rewrite map_app in Hcnt', Hime'. cbn [map] in Hcnt', Hime'. change (byte 0) with 0 in *.
  repeat split; try assumption.
  - rewrite Hcnt', length_app, length_map. cbn [length]. lia.
  - rewrite Hcnt', length_app, length_map. cbn [length]. unfold IME_SIZE. lia.
  - rewrite Hime'. apply c_string_terminated. now apply Forall_map.
Qed.

(** C6.  A name of 50 bytes or more is not rejected: after the guest's OPEN
    request, serving the bytes of the name and its terminator ends in a store
    past the end of the 50-byte array [ime], and no descriptor is reported. *)
Theorem C6_long_name_overruns_ime
    (sem : Z) (h : H) (pty vm_id : Z) (r : run_region) (name : list Z) :
  0 < sem ->
  (50 <= length name)%nat ->
  serve sem h (init_guest pty vm_id r) (out_dword OPEN :: send_name name)
  = Crashed OutOfBounds.
Proof.
  intros Hsem Hlen.
  destruct (first_open_started sem h pty vm_id r Hsem) as (vm1 & Hs1 & Hl1 & Hc1 & Hh1 & _).
  cbn [serve]. rewrite Hs1.
  unfold send_name. change [out_byte 0] with (map out_byte [0]). rewrite <- map_app.
  apply (serve_name_overrun _ _ _ _ 1 init_file); try assumption.
  - cbn [cnt init_file]. unfold IME_SIZE. lia.
  - rewrite length_app. cbn [cnt init_file length]. unfold IME_SIZE. lia.
Qed.

End Name.

Lemma C6_long_name_overruns_ime_witness :
  0 < 1 /\ (50 <= length (repeat 97 50))%nat
  /\ serve 1 toy0 (init_guest 5 0 in_byte) (out_dword OPEN :: send_name (repeat 97 50))
     = Crashed OutOfBounds.
Proof.
  split; [reflexivity|]. split; [cbn; lia|].
  apply (C6_long_name_overruns_ime 1 toy0 5 0 in_byte (repeat 97 50)); [reflexivity | cbn; lia].
Defined.
Lemma open_prefers_own_copy_witness :
  let vm := flags_sent own_copy_host [112] O_RDONLY in
  let f := default init_file (heap vm !! 1) in
  let opened := host_open own_copy_host (sandbox_path (id vm) [112]) (flags f) (u32 0) in
  opened_file_op_flags own_copy_host vm 0
  = Ret (fst opened)
        (set_heap vm (<[1 := set_fd (set_mode f (u32 0)) (snd opened)]>
                        (<[1 := set_mode f (u32 0)]> (heap vm))))
        0.
Proof.
  intros vm f.
  apply (open_prefers_own_copy own_copy_host vm 1 f [112] 0);
    [ reflexivity | reflexivity | discriminate | reflexivity | reflexivity
    | vm_compute; discriminate ].
Defined.

Lemma open_without_copy_reads_shared_name_witness :
  let vm := flags_sent tape0 [113] O_CREAT in
  let f := default init_file (heap vm !! 1) in
  let opened := host_open tape0 [113] (flags f) (u32 420) in
  opened_file_op_flags tape0 vm 420
  = Ret (fst opened)
        (set_heap vm (<[1 := set_fd (set_mode f (u32 420)) (snd opened)]>
                        (<[1 := set_mode f (u32 420)]> (heap vm))))
        0.
Proof.
  intros vm f.
  apply (open_without_copy_reads_shared_name tape0 vm 1 f [113] 420);
    [ reflexivity | reflexivity | discriminate | reflexivity | reflexivity | reflexivity ].
Defined.

Lemma open_for_writing_creates_own_copy_witness :
  let vm := flags_sent tape0 [111] 577 in
  let f := default init_file (heap vm !! 1) in
  let h1 := fst (host_open tape0 (sandbox_path (id vm) [111]) O_CREAT 511) in
  let opened := host_open h1 (sandbox_path (id vm) [111]) (flags f) (u32 511) in
  opened_file_op_flags tape0 vm 511
  = Ret (fst opened)
        (set_heap vm (<[1 := set_fd (set_mode f (u32 511)) (snd opened)]>
                        (<[1 := set_mode f (u32 511)]> (heap vm))))
        0.
Proof.
  intros vm f.
  apply (open_for_writing_creates_own_copy tape0 vm 1 f [111] 511);
    [ reflexivity | reflexivity | discriminate | reflexivity | reflexivity
    | discriminate | reflexivity ].
Defined.
(** ** OPEN: the dwords and the end of the operation *)

Section OpenProtocol.
Context {H : Type} `{Host H}.

Lemma completes_keeps_lock {A} (vm vm' : guest) (p : proc H A) (v : A) :
  keeps_lock vm p -> completes p vm' v -> lock vm' = lock vm.
Proof. intros Hk Hc. destruct Hc; cbn in Hk; (assumption || contradiction). Qed.

(** While the lock is OPEN, only the four-byte input ends the operation. *)
Lemma open_ends_on_in_dword (h : H) (vm vm' : guest) (v : Z) :
  lock vm = OPEN ->
  completes (handle_file h vm) vm' v ->
  lock vm' <> OPEN ->
  io_direction (kvm_run vm) = KVM_EXIT_IO_IN /\ io_size (kvm_run vm) = 4
  /\ lock vm' = 0 /\ current_file vm' = None.
Proof.
  intros Hl Hc Hend. unfold handle_file in Hc. rewrite Hl in Hc.
  change (OPEN =? 0) with false in Hc. change (OPEN =? OPEN) with true in Hc.
  change (OPEN =? CLOSE) with false in Hc. change (OPEN =? READ) with false in Hc.
  cbv iota in Hc.
  destruct ((io_direction (kvm_run vm) =? KVM_EXIT_IO_OUT) && (io_size (kvm_run vm) =? 4)).
  { exfalso. apply Hend. rewrite <- Hl.
    eapply completes_keeps_lock; [apply opened_file_op_flags_lock | exact Hc]. }
  destruct ((io_direction (kvm_run vm) =? KVM_EXIT_IO_OUT) && (io_size (kvm_run vm) =? 1)).
  { exfalso. apply Hend. rewrite <- Hl.
    eapply completes_keeps_lock; [apply opened_file_op_name_lock | exact Hc]. }
  destruct ((io_direction (kvm_run vm) =? KVM_EXIT_IO_IN) && (io_size (kvm_run vm) =? 4)) eqn:E.
  - apply andb_true_iff in E. destruct E as [Ed Es].
    apply Z.eqb_eq in Ed, Es. split; [assumption|]. split; [assumption|].
    unfold opened_file_op_send_fd in Hc.
    destruct (cur vm) as [[a f]|]; [|inversion Hc].
    unfold end_file_operation in Hc. inversion Hc; subst.
    match goal with Hk : completes (Ret _ _ _) _ _ |- _ => inversion Hk; subst end.
    now split.
  - exfalso. apply Hend.
    destruct ((io_direction (kvm_run vm) =? KVM_EXIT_IO_IN) && (io_size (kvm_run vm) =? 1));
      inversion Hc; subst; assumption.
Qed.

End OpenProtocol.

(** C10 (as stated) fails when the first dword is [-1]: the second dword is
    then taken as the flags again, the mode stays unset and no path is
    resolved. *)
Lemma C10_flags_minus_one_keeps_waiting :
  exists h' vm' f',
    serve 1 toy0 (init_guest 5 0 in_byte)
      (out_dword OPEN :: send_name [112] ++ [out_dword (-1); out_dword 420])
    = Finished 0 h' vm' 0
    /\ heap vm' !! 1 = Some f'
    /\ flags f' = 420 /\ mode f' <> u32 420 /\ mode f' = u32 (-1) /\ fd f' = -1.
Proof.
  eexists _, _, _. split; [vm_compute; reflexivity|].
  split; [reflexivity|]. split; [reflexivity|]. split; [discriminate|].
  split; [reflexivity | reflexivity].
Qed.
(** ** The list of open files: chains *)

Lemma chain_nil_inv (hp : gmap Z file) p : chain hp p [] -> p = None.
Proof. now inversion 1. Qed.

Lemma chain_NoDup (hp : gmap Z file) p l : chain hp p l -> NoDup l.
Proof. induction 1; constructor; assumption. Qed.

Lemma chain_live (hp : gmap Z file) p l a : chain hp p l -> a ∈ l -> is_Some (hp !! a).
Proof.
  induction 1 as [|b f l Hb Hnot _ IH]; intros Ha.
  - now apply elem_of_nil in Ha.
  - apply elem_of_cons in Ha. destruct Ha as [->|Ha]; [eauto | now apply IH].
Qed.

Lemma chain_functional (hp : gmap Z file) p l : chain hp p l ->
  forall l', chain hp p l' -> l' = l.
Proof.
  induction 1 as [|a f l Ha Hnot _ IH]; intros l' Hl'; inversion Hl'; subst; [reflexivity|].
  f_equal. apply IH. congruence.
Qed.

(** Changing records outside the chain, or contents other than [next]. *)
Lemma chain_same_links (hp hp' : gmap Z file) p l :
  (forall x, x ∈ l -> next <$> hp' !! x = next <$> hp !! x) ->
  chain hp p l -> chain hp' p l.
Proof.
  intros Hsame Hc. induction Hc as [|a f l Ha Hnot Hc IH]; [constructor|].
  pose proof (Hsame a (list_elem_of_here a l)) as Hx. rewrite Ha in Hx. cbn in Hx.
  destruct (hp' !! a) as [f'|] eqn:Ha'; cbn in Hx; [|discriminate].
  injection Hx as Hx. econstructor; [exact Ha' | exact Hnot |].
  rewrite Hx. apply IH. intros x Hxl. apply Hsame. now apply list_elem_of_further.
Qed.

Lemma chain_insert_outside (hp : gmap Z file) p l b f :
  b ∉ l -> chain hp p l -> chain (<[b := f]> hp) p l.
Proof.
  intros Hb. apply chain_same_links. intros x Hx.
  rewrite lookup_insert_ne; [reflexivity | intros ->; contradiction].
Qed.

Lemma chain_delete_outside (hp : gmap Z file) p l b :
  b ∉ l -> chain hp p l -> chain (delete b hp) p l.
Proof.
  intros Hb. apply chain_same_links. intros x Hx.
  rewrite lookup_delete_ne; [reflexivity | intros ->; contradiction].
Qed.

(** Linking a new record behind the last one. *)
Lemma chain_append (hp : gmap Z file) (a b : Z) (f0 fb : file) : forall l0 p,
  chain hp p (l0 ++ [b]) ->
  hp !! b = Some fb -> hp !! a = None -> next f0 = None ->
  chain (<[b := set_next fb (Some a)]> (<[a := f0]> hp)) p (l0 ++ [b; a]).
Proof.
  intros l0 p Hc Hb Ha Hf0.
  assert (Hab : a <> b) by congruence.
  revert p Hc. induction l0 as [|c l0 IH]; intros p Hc; cbn [app] in *.
  - inversion Hc as [|b' fb' l' Hb' Hnot Hrest]; subst.
    econstructor; [apply lookup_insert_eq | | ].
    + intros Hin. apply list_elem_of_singleton in Hin. congruence.
    + cbn [next set_next]. econstructor.
      * rewrite lookup_insert_ne by congruence. apply lookup_insert_eq.
      * apply not_elem_of_nil.
      * rewrite Hf0. constructor.
  - inversion Hc as [|c' fc l' Hc' Hnot Hrest]; subst.
    assert (c <> b).
    { intros ->. apply Hnot. apply elem_of_app. right. apply list_elem_of_here. }
    assert (c <> a) by congruence.
    econstructor.
    + rewrite !lookup_insert_ne by congruence. exact Hc'.
    + intros Hin. apply elem_of_app in Hin. destruct Hin as [Hin|Hin].
      * apply Hnot, elem_of_app. now left.
      * apply elem_of_cons in Hin. destruct Hin as [->|Hin]; [congruence|].
        apply list_elem_of_singleton in Hin. congruence.
    + apply IH. exact Hrest.
Qed.

(** A chain is no longer than the heap is large, so the walks of the
    engine do not run out of fuel on it. *)
Lemma chain_length (hp : gmap Z file) p l : chain hp p l -> (length l <= size hp)%nat.
Proof.
  intros Hc. rewrite <- size_dom. unfold size, set_size. cbn.
  apply submseteq_length, NoDup_submseteq; [eapply chain_NoDup, Hc|].
  intros x Hx. apply elem_of_elements, elem_of_dom. eapply chain_live; eassumption.
Qed.

Lemma files_from_chain (hp : gmap Z file) p l : chain hp p l ->
  forall fuel, (length l <= fuel)%nat -> files_from fuel hp p = l.
Proof.
  induction 1 as [|a f l Ha Hnot _ IH]; intros fuel Hfuel.
  - destruct fuel; reflexivity.
  - destruct fuel as [|fuel]; cbn [length] in Hfuel; [lia|].
    cbn [files_from]. rewrite Ha. f_equal. apply IH. lia.
Qed.

Lemma files_chain (vm : guest) l : chain (heap vm) (file_head vm) l -> files vm = l.
Proof.
  intros Hc. unfold files. eapply files_from_chain; [exact Hc|].
  eapply chain_length, Hc.
Qed.

Lemma find_fd_found (hp : gmap Z file) d a : forall fuel p l,
  chain hp p l -> find_fd fuel hp p d = Found a -> a ∈ l.
Proof.
  induction fuel as [|fuel IH]; intros p l Hc; cbn [find_fd]; [discriminate|].
  destruct Hc as [|b f l Hb Hnot Hc]; [discriminate|].
  rewrite Hb. destruct (fd f =? d).
  - intros [= ->]. apply list_elem_of_here.
  - intros Hf. apply list_elem_of_further. eapply IH; eassumption.
Qed.

(** ** The list of open files: handlers that leave it alone *)

Lemma same_frame_refl (vm : guest) : same_frame vm vm.
Proof. now repeat split. Qed.

Lemma same_frame_trans (vm1 vm2 vm3 : guest) :
  same_frame vm1 vm2 -> same_frame vm2 vm3 -> same_frame vm1 vm3.
Proof.
  intros (A1 & A2 & A3 & A4 & A5 & A6) (B1 & B2 & B3 & B4 & B5 & B6).
  repeat split; try congruence.
Qed.

Lemma same_frame_kvm_run (vm : guest) (r : run_region) : same_frame vm (set_kvm_run vm r).
Proof. now repeat split. Qed.

Lemma same_frame_update (vm : guest) a f f' :
  heap vm !! a = Some f -> next f' = next f ->
  same_frame vm (set_heap vm (<[a := f']> (heap vm))).
Proof.
  intros Ha Hn. repeat split. intros x. cbn [heap set_heap].
  destruct (decide (a = x)) as [->|Hne].
  - rewrite lookup_insert_eq, Ha. cbn. now rewrite Hn.
  - now rewrite lookup_insert_ne.
Qed.

Lemma same_links_is_Some (vm vm' : guest) x :
  same_frame vm vm' -> (is_Some (heap vm' !! x) <-> is_Some (heap vm !! x)).
Proof.
  intros (_ & _ & _ & _ & _ & Hl). specialize (Hl x).
  destruct (heap vm' !! x), (heap vm !! x); cbn in Hl; try discriminate;
    split; intros [? ?]; eauto; discriminate.
Qed.

Lemma same_links_None (vm vm' : guest) x :
  same_frame vm vm' -> heap vm !! x = None -> heap vm' !! x = None.
Proof.
  intros Hf Hx. pose proof (same_links_is_Some vm vm' x Hf) as Hs.
  destruct (heap vm' !! x) eqn:E; [|reflexivity].
  destruct (proj1 Hs (ex_intro _ _ eq_refl)) as [? ?]. congruence.
Qed.

Lemma guest_ok_frame (vm vm' : guest) : same_frame vm vm' -> guest_ok vm -> guest_ok vm'.
Proof.
  intros Hf (l & (Hc & Hlive & Hfresh & Hind) & (C0 & CO & CX)).
  pose proof Hf as (F1 & F2 & F3 & F4 & F5 & F6).
  exists l. split; [split; [|split; [|split]] | split; [|split]].
  - rewrite F3. eapply chain_same_links; [|exact Hc]. intros x _. apply F6.
  - intros a Ha. apply Hlive. now apply (same_links_is_Some vm vm' a Hf).
  - intros a Ha. rewrite F5. now apply Hfresh.
  - rewrite F4, F5. destruct Hind as [Hind | (b & Hb & Hnone & Hlt)]; [now left|].
    right. exists b. split; [assumption|]. split; [|assumption].
    now apply (same_links_None vm vm' b Hf).
  - rewrite F1, F2. exact C0.
  - rewrite F1, F2. exact CO.
  - rewrite F1, F2. intros Hbusy Hnot_open. destruct (CX Hbusy Hnot_open) as [Hn | (a & Ha & [Hin | [Hcl Hfreed]])].
    + now left.
    + right. exists a. split; [assumption|]. now left.
    + right. exists a. split; [assumption|]. right. split; [assumption|].
      now apply (same_links_None vm vm' a Hf).
Qed.

Section Frames.
Context {H : Type} `{Host H}.

Lemma set_cur_fd_frame (vm vm' : guest) v : set_cur_fd vm v = Ok vm' -> same_frame vm vm'.
Proof.
  unfold set_cur_fd, mbind, res_bind. destruct (cur vm) as [[a f]|] eqn:E; [|discriminate].
  apply cur_inv in E. destruct E as [_ Eh].
  intros [= <-]. now apply (same_frame_update vm a f).
Qed.

Lemma opened_file_op_flags_frame (h : H) (vm : guest) d :
  keeps_frame vm (opened_file_op_flags h vm d).
Proof.
  unfold opened_file_op_flags, keeps_frame, lift, mbind, res_bind.
  destruct (cur vm) as [[a f]|] eqn:E; [|exact I].
  apply cur_inv in E. destruct E as [_ Eh].
  destruct (flags f =? -1); [now apply (same_frame_update vm a f)|].
  pose proof (same_frame_update vm a f (set_mode f (u32 d)) Eh eq_refl) as Hf1.
  destruct (check_path_exists _ _) as [[h1 local_fd]|]; [|exact I].
  destruct (local_fd <? 0).
  - destruct (cur _) as [[a1 f1]|]; [|exact I].
    destruct (negb _).
    + destruct (create_local_copy _ _) as [h2|]; [|exact I].
      destruct (check_path_exists _ _) as [[h3 v]|]; [|exact I].
      destruct (set_cur_fd _ _) as [vm2|] eqn:E; [|exact I].
      eapply same_frame_trans; [exact Hf1 | eapply set_cur_fd_frame, E].
    + destruct (c_string _) as [name|]; [|exact I].
      destruct (host_open _ _ _ _) as [h2 v].
      destruct (set_cur_fd _ _) as [vm2|] eqn:E; [|exact I].
      eapply same_frame_trans; [exact Hf1 | eapply set_cur_fd_frame, E].
  - destruct (set_cur_fd _ _) as [vm2|] eqn:E; [|exact I].
    eapply same_frame_trans; [exact Hf1 | eapply set_cur_fd_frame, E].
Qed.

Lemma opened_file_op_name_frame (h : H) (vm : guest) c :
  keeps_frame vm (opened_file_op_name h vm c).
Proof.
  unfold opened_file_op_name, keeps_frame, lift, mbind, res_bind.
  destruct (cur vm) as [[a f]|] eqn:E; [|exact I].
  apply cur_inv in E. destruct E as [_ Eh].
  destruct ((0 <=? cnt f) && (cnt f <? IME_SIZE)); [|exact I].
  now apply (same_frame_update vm a f).
Qed.

Lemma read_file_frame (h : H) (vm : guest) : keeps_frame vm (read_file h vm).
Proof.
  unfold read_file, keeps_frame, lift, mbind, res_bind.
  destruct (current_file vm); [|now repeat split].
  destruct (cur vm) as [[a f]|]; [|exact I].
  destruct (host_read h (fd f)). now repeat split.
Qed.

Lemma write_file_frame (h : H) (vm : guest) c : keeps_frame vm (write_file h vm c).
Proof.
  unfold write_file, keeps_frame, lift, mbind, res_bind.
  destruct (current_file vm); [|now repeat split].
  destruct (cur vm) as [[a f]|]; [apply same_frame_refl | exact I].
Qed.

Lemma completes_keeps_frame {A} (vm vm' : guest) (p : proc H A) (v : A) :
  keeps_frame vm p -> completes p vm' v -> same_frame vm vm'.
Proof. intros Hk Hc. destruct Hc; cbn in Hk; (assumption || contradiction). Qed.

End Frames.

(** ** The list of open files: taking a record out *)

Lemma filter_ne_notin (a : Z) (l : list Z) : a ∉ l -> filter (fun x => x <> a) l = l.
Proof.
  induction l as [|c l IH]; intros Ha; [reflexivity|].
  rewrite filter_cons_True.
  - f_equal. apply IH. intros Hin. apply Ha. now apply list_elem_of_further.
  - intros ->. apply Ha. apply list_elem_of_here.
Qed.

Lemma load_slot_next_inv (vm : guest) b p :
  load_slot vm (next_slot b) = Ok p -> exists fb, heap vm !! b = Some fb /\ next fb = p.
Proof.
  cbn. destruct (heap vm !! b) as [fb|]; [|discriminate].
  intros [= <-]. now exists fb.
Qed.

Lemma unlink_none fuel : forall (vm vm1 : guest) p,
  current_file vm = None -> unlink fuel vm p = Found vm1 -> False.
Proof.
  induction fuel as [|fuel IH]; intros vm vm1 p Hcur; cbn [unlink]; [discriminate|].
  destruct (load_slot vm p) as [[c|]|]; try discriminate.
  rewrite Hcur. destruct (decide (Some c = None)); [discriminate|]. now apply IH.
Qed.

(** [unlink], started at a slot from which the record [a] of [current_file]
    is reachable, finds it and takes it out of the chain.  Only the slot that
    pointed at [a] changes. *)
Lemma unlink_spec (a : Z) (fa : file) : forall l fuel (vm : guest) (s : slot) p,
  current_file vm = Some a -> heap vm !! a = Some fa ->
  load_slot vm s = Ok p -> chain (heap vm) p l ->
  a ∈ l -> (length l < fuel)%nat -> slot_outside s l ->
  exists vm1 p1,
    unlink fuel vm s = Found vm1
    /\ load_slot vm1 s = Ok p1
    /\ chain (heap vm1) p1 (filter (fun x => x <> a) l)
    /\ (forall x, x ∉ l -> s <> next_slot x -> heap vm1 !! x = heap vm !! x)
    /\ (forall x, is_Some (heap vm1 !! x) <-> is_Some (heap vm !! x))
    /\ (s <> head_slot -> file_head vm1 = file_head vm).
Proof.
  induction l as [|c l IH]; intros fuel vm s p Hcur Ha Hload Hc Hin Hfuel Hout.
  { now apply elem_of_nil in Hin. }
  inversion Hc as [|c' fc l' Hcf Hnot Hrest]; subst.
  destruct fuel as [|fuel]; [cbn in Hfuel; lia|]. cbn [length] in Hfuel.
  cbn [unlink]. rewrite Hload, Hcur.
  destruct (decide (Some c = Some a)) as [E|E].
  - injection E as ->. rewrite Ha. assert (fc = fa) by congruence. subst fc.
    rewrite filter_cons_False by (intros Hx; now apply Hx).
    rewrite filter_ne_notin by assumption.
    destruct s as [|b].
    + cbn [store_slot]. eexists _, _. split; [reflexivity|].
      split; [reflexivity|]. split; [exact Hrest|].
      split; [reflexivity|]. split; [reflexivity | congruence].
    + destruct (load_slot_next_inv vm b _ Hload) as (fb & Hb & Hnb).
      cbn [store_slot]. rewrite Hb.
      assert (Hbl : b ∉ l).
      { intros Hx. apply Hout. now apply list_elem_of_further. }
      eexists _, _. split; [reflexivity|]. cbn [load_slot heap set_heap file_head].
      rewrite lookup_insert_eq. split; [reflexivity|].
      split; [now apply chain_insert_outside|].
      split; [|split; [|reflexivity]].
      * intros x _ Hx. apply lookup_insert_ne. congruence.
      * intros x. destruct (decide (b = x)) as [->|Hne].
        -- rewrite lookup_insert_eq, Hb. split; eauto.
        -- now rewrite lookup_insert_ne.
  - assert (Hca : c <> a) by congruence.
    assert (Hal : a ∈ l).
    { apply elem_of_cons in Hin. destruct Hin as [->|Hin]; [contradiction | exact Hin]. }
    destruct (IH fuel vm (next_slot c) (next fc)) as (vm1 & p1 & Hu & Hl1 & Hc1 & Hsame & Hsome & Hhead);
      try assumption; [cbn; now rewrite Hcf | lia |].
    destruct (load_slot_next_inv vm1 c p1 Hl1) as (fc1 & Hc1f & Hn1).
    exists vm1, (Some c). split; [exact Hu|].
    split; [|split; [|split; [|split]]].
    + destruct s as [|b].
      * cbn in Hload |- *. rewrite Hhead by discriminate. exact Hload.
      * cbn in Hload |- *. rewrite Hsame; [exact Hload | | ].
        -- intros Hx. apply Hout. now apply list_elem_of_further.
        -- intros [= ->]. apply Hout. apply list_elem_of_here.
    + rewrite filter_cons_True by exact Hca.
      econstructor; [exact Hc1f | | rewrite Hn1; exact Hc1].
      intros Hx. apply list_elem_of_filter in Hx. destruct Hx as [_ Hx]. contradiction.
    + intros x Hx Hs. apply Hsame.
      * intros Hxl. apply Hx. now apply list_elem_of_further.
      * intros [= ->]. apply Hx. apply list_elem_of_here.
    + exact Hsome.
    + intros _. apply Hhead. discriminate.
Qed.

Lemma last_filter_ne (a b : Z) (l : list Z) :
  last l = Some b -> b <> a -> last (filter (fun x => x <> a) l) = Some b.
Proof.
  intros Hl Hb. apply last_Some in Hl. destruct Hl as [l' ->].
  rewrite filter_app, filter_cons_True by exact Hb. cbn. apply last_snoc.
Qed.

(** ** The lock, [current_file] and the list: every handler keeps them in
    step *)

Ltac guest_simpl_in Hk :=
  cbn [store_slot load_slot free
       pty_master lock id kvm_run file_head file_indirect current_file heap heap_next
       set_lock set_kvm_run set_file_head set_file_indirect set_current_file
       set_heap set_heap_next put_int] in Hk.

Ltac guest_simpl :=
  unfold put_int, set_lock, set_kvm_run, set_file_head, set_file_indirect,
    set_current_file, set_heap, set_heap_next;
  cbn [pty_master lock id kvm_run file_head file_indirect current_file heap heap_next].

Section GuestOk.
Context {H : Type} `{Host H}.

Lemma guest_ok_init pty vm_id r : guest_ok (init_guest pty vm_id r).
Proof.
  exists []. split; [split; [|split; [|split]] | split; [|split]]; cbn.
  - constructor.
  - intros a [f Hf]. rewrite lookup_empty in Hf. discriminate.
  - intros a Ha. now apply elem_of_nil in Ha.
  - now left.
  - reflexivity.
  - discriminate.
  - intros Hne. now contradiction Hne.
Qed.

Lemma guest_ok_idle (vm : guest) :
  guest_ok vm -> guest_ok (set_current_file (set_lock vm 0) None).
Proof.
  intros (l & Hfiles & _). exists l. split; [exact Hfiles|].
  split; [reflexivity|]. split; [discriminate|]. intros Hne. now contradiction Hne.
Qed.

Lemma start_file_operation_ok (h : H) (vm vm' : guest) op v :
  guest_ok vm -> lock vm = 0 ->
  completes (start_file_operation h vm op) vm' v -> guest_ok vm'.
Proof.
  intros (l & (Hc & Hlive & Hfresh & Hind) & (C0 & _ & _)) Hl Hcomp.
  unfold start_file_operation in Hcomp.
  inversion Hcomp as [| ? ? ? h' ? ? Hk |]; subst. cbv beta zeta in Hk.
  destruct (Z.eqb_spec op OPEN) as [->|Hop].
  - set (a := heap_next vm) in *.
    assert (Hnew : heap vm !! a = None).
    { destruct (heap vm !! a) eqn:E; [|reflexivity].
      assert (a < a) by (apply Hfresh, Hlive; eauto). lia. }
    assert (Hal : a ∉ l).
    { intros Hin. assert (a < a) by now apply Hfresh. lia. }
    cbn [file_indirect set_heap_next set_heap set_lock heap heap_next] in Hk.
    fold a in Hk.
    assert (Hgoal : forall hp' hd',
              chain hp' hd' (l ++ [a]) ->
              (forall x, is_Some (hp' !! x) -> x ∈ l ++ [a]) ->
              guest_ok {| pty_master := pty_master vm; lock := OPEN; id := id vm;
                          kvm_run := kvm_run vm; file_head := hd';
                          file_indirect := next_slot a; current_file := Some a;
                          heap := hp'; heap_next := a + 1 |}).
    { intros hp' hd' Hc' Hlive'. exists (l ++ [a]).
      split; [split; [|split; [|split]] | split; [|split]]; cbn.
      - exact Hc'.
      - exact Hlive'.
      - intros x Hx. apply elem_of_app in Hx. destruct Hx as [Hx|Hx].
        + apply Hfresh in Hx. fold a in Hx. lia.
        + apply list_elem_of_singleton in Hx. lia.
      - left. unfold tail_slot. now rewrite last_snoc.
      - discriminate.
      - intros _. exists a. split; [reflexivity|]. apply elem_of_app. right.
        apply list_elem_of_here.
      - intros _ Hne. now contradiction Hne. }
    destruct Hind as [Hind | (b & Hb & Hnone & Hlt)].
    + unfold tail_slot in Hind. destruct (last l) as [b|] eqn:El.
      * apply last_Some in El. destruct El as [l0 ->].
        assert (Hbl : b ∈ l0 ++ [b]) by (apply elem_of_app; right; apply list_elem_of_here).
        destruct (chain_live _ _ _ b Hc Hbl) as [fb Hfb].
        assert (Hba : b <> a) by (intros ->; contradiction).
        rewrite Hind in Hk. guest_simpl_in Hk.
        rewrite lookup_insert_ne in Hk by congruence. rewrite Hfb in Hk.
        inversion Hk; subst. guest_simpl. apply Hgoal.
        -- rewrite <- app_assoc. cbn [app]. now apply chain_append.
        -- intros x Hx. destruct (decide (b = x)) as [->|Hbx].
           { apply elem_of_app. now left. }
           rewrite lookup_insert_ne in Hx by assumption.
           destruct (decide (a = x)) as [->|Hax].
           { apply elem_of_app. right. apply list_elem_of_here. }
           rewrite lookup_insert_ne in Hx by assumption.
           apply elem_of_app. left. now apply Hlive.
      * apply last_None in El. subst l.
        apply chain_nil_inv in Hc.
        rewrite Hind in Hk. guest_simpl_in Hk.
        inversion Hk; subst. guest_simpl. apply Hgoal.
        -- cbn [app]. econstructor; [apply lookup_insert_eq | apply not_elem_of_nil | constructor].
        -- intros x Hx. destruct (decide (a = x)) as [->|Hax].
           { apply list_elem_of_here. }
           rewrite lookup_insert_ne in Hx by assumption.
           apply Hlive in Hx. now apply elem_of_nil in Hx.
    + rewrite Hb in Hk. guest_simpl_in Hk.
      rewrite lookup_insert_ne in Hk by (fold a in Hlt; lia).
      rewrite Hnone in Hk. inversion Hk.
  - inversion Hk; subst. exists l.
    split; [now repeat split|]. cbn.
    split; [intros _; now apply C0|]. split; [intros; contradiction|].
    intros _ _. left. now apply C0.
Qed.

Lemma get_file_descriptor_ok (h : H) (vm vm' : guest) d v :
  guest_ok vm -> lock vm <> 0 -> lock vm <> OPEN ->
  completes (get_file_descriptor h vm d) vm' v -> guest_ok vm'.
Proof.
  intros Hok Hbusy Hnot_open Hcomp. unfold get_file_descriptor in Hcomp.
  destruct (find_fd _ _ _ _) as [a| | |] eqn:E; inversion Hcomp; subst; [|exact Hok].
  destruct Hok as (l & Hfiles & _). exists l. split; [exact Hfiles|].
  split; [intros; contradiction|]. split; [intros; contradiction|].
  intros _ _. right. exists a. split; [reflexivity|]. left.
  destruct Hfiles as (Hc & _). eapply find_fd_found; eassumption.
Qed.

Lemma close_op_status_ok (h : H) (vm vm' : guest) v :
  guest_ok vm -> lock vm = CLOSE ->
  completes (close_op_status h vm) vm' v -> guest_ok vm'.
Proof.
  intros Hok Hl Hcomp. unfold close_op_status in Hcomp.
  destruct (current_file vm) as [a|] eqn:Hcur.
  - unfold mbind, res_bind in Hcomp.
    destruct (cur vm) as [[a' fa]|] eqn:Ecur; [|inversion Hcomp].
    apply cur_inv in Ecur. destruct Ecur as [Ea Hfa].
    assert (a' = a) by congruence. subst a'.
    destruct (host_close h (fd fa)) as [h1 st].
    destruct Hok as (l & (Hc & Hlive & Hfresh & Hind) & (_ & _ & CX)).
    assert (Hal : a ∈ l) by (apply Hlive; eauto).
    assert (Hlen : (length l < S (size (heap vm)))%nat)
      by (pose proof (chain_length _ _ _ Hc); lia).
    destruct (unlink_spec a fa l (S (size (heap vm))) vm head_slot (file_head vm)
                Hcur Hfa eq_refl Hc Hal Hlen I)
      as (vm1 & p1 & Hu & Hl1 & Hc1 & Hsame & Hsome & _).
    rewrite Hu in Hcomp.
    destruct (unlink_fields _ _ _ _ Hu) as (U1 & U2 & U3 & U4 & _).
    rewrite U2, Hcur in Hcomp. cbn [free] in Hcomp.
    destruct (heap vm1 !! a) as [fa1|] eqn:Ha1;
      [|exfalso; destruct (proj2 (Hsome a) (ex_intro _ fa Hfa)); congruence].
    inversion Hcomp; subst.
    apply (guest_ok_frame (set_heap vm1 (delete a (heap vm1)))); [now repeat split|].
    cbn in Hl1. injection Hl1 as Hl1.
    exists (filter (fun x => x <> a) l).
    split; [split; [|split; [|split]] | split; [|split]];
      cbn [heap set_heap file_head file_indirect heap_next lock current_file].
    + rewrite Hl1. apply chain_delete_outside; [|exact Hc1].
      intros Hx. apply list_elem_of_filter in Hx. destruct Hx as [Hx _]. now apply Hx.
    + intros x Hx. destruct (decide (a = x)) as [->|Hax].
      { rewrite lookup_delete_eq in Hx. destruct Hx; discriminate. }
      rewrite lookup_delete_ne in Hx by assumption.
      apply list_elem_of_filter. split; [congruence|]. apply Hlive. now apply Hsome.
    + intros x Hx. apply list_elem_of_filter in Hx. rewrite U4. apply Hfresh, Hx.
    + rewrite U3, U4. destruct Hind as [Hind | (b & Hb & Hnone & Hlt)].
      * unfold tail_slot in Hind |- *. destruct (last l) as [b|] eqn:El.
        -- destruct (decide (b = a)) as [->|Hba].
           ++ right. exists a. split; [exact Hind|]. split; [apply lookup_delete_eq|].
              now apply Hfresh.
           ++ left. now rewrite (last_filter_ne a b l El Hba).
        -- apply last_None in El. subst l. now apply elem_of_nil in Hal.
      * right. exists b. split; [exact Hb|]. split; [|exact Hlt].
        destruct (decide (a = b)) as [->|Hab]; [apply lookup_delete_eq|].
        rewrite lookup_delete_ne by assumption.
        destruct (heap vm1 !! b) eqn:Eb; [|reflexivity].
        destruct (proj1 (Hsome b) (ex_intro _ _ Eb)). congruence.
    + rewrite U1, Hl. discriminate.
    + rewrite U1, Hl. discriminate.
    + intros _ _. right. exists a. rewrite U2. split; [exact Hcur|]. right.
      split; [now rewrite U1 | apply lookup_delete_eq].
  - destruct (unlink _ _ _) as [vm1| | |] eqn:Hu; try (inversion Hcomp; fail).
    + exfalso. eapply unlink_none; eassumption.
    + cbn [free] in Hcomp. inversion Hcomp; subst.
      eapply guest_ok_frame; [|exact Hok]. now repeat split.
Qed.

Lemma handle_file_ok (h : H) (vm vm' : guest) v :
  guest_ok vm -> completes (handle_file h vm) vm' v -> guest_ok vm'.
Proof.
  intros Hok Hcomp. unfold handle_file in Hcomp.
  destruct ((io_direction (kvm_run vm) =? KVM_EXIT_IO_OUT) && (io_size (kvm_run vm) =? 4)).
  { destruct (Z.eqb_spec (lock vm) 0) as [E0|E0];
      [eapply start_file_operation_ok; eassumption|].
    destruct (Z.eqb_spec (lock vm) OPEN) as [EO|EO].
    { eapply guest_ok_frame; [|exact Hok].
      eapply completes_keeps_frame; [apply opened_file_op_flags_frame | exact Hcomp]. }
    destruct (data_int (kvm_run vm) =? FINISH).
    - unfold end_file_operation in Hcomp. inversion Hcomp as [| |? ? ? ? ? ? Hk]; subst.
      inversion Hk; subst. now apply guest_ok_idle.
    - eapply get_file_descriptor_ok; eassumption. }
  destruct ((io_direction (kvm_run vm) =? KVM_EXIT_IO_OUT) && (io_size (kvm_run vm) =? 1)).
  { destruct (lock vm =? OPEN).
    { eapply guest_ok_frame; [|exact Hok].
      eapply completes_keeps_frame; [apply opened_file_op_name_frame | exact Hcomp]. }
    destruct (lock vm =? WRITE).
    { eapply guest_ok_frame; [|exact Hok].
      eapply completes_keeps_frame; [apply write_file_frame | exact Hcomp]. }
    inversion Hcomp; subst. exact Hok. }
  destruct ((io_direction (kvm_run vm) =? KVM_EXIT_IO_IN) && (io_size (kvm_run vm) =? 4)).
  { destruct (Z.eqb_spec (lock vm) CLOSE) as [EC|EC];
      [eapply close_op_status_ok; eassumption|].
    destruct (lock vm =? OPEN); [|inversion Hcomp; subst; exact Hok].
    unfold opened_file_op_send_fd in Hcomp.
    destruct (cur vm) as [[a f]|]; [|inversion Hcomp].
    unfold end_file_operation in Hcomp. inversion Hcomp as [| |? ? ? ? ? ? Hk]; subst.
    inversion Hk; subst.
    apply guest_ok_idle. eapply guest_ok_frame; [|exact Hok]. now repeat split. }
  destruct ((io_direction (kvm_run vm) =? KVM_EXIT_IO_IN) && (io_size (kvm_run vm) =? 1)).
  { destruct (lock vm =? READ); [|inversion Hcomp; subst; exact Hok].
    eapply guest_ok_frame; [|exact Hok].
    eapply completes_keeps_frame; [apply read_file_frame | exact Hcomp]. }
  inversion Hcomp; subst. exact Hok.
Qed.

(** On a well-formed list the search for a descriptor comes back: the fuel
    of [find_fd] is enough and no freed record is met. *)
Lemma find_fd_returns (hp : gmap Z file) d : forall fuel p l,
  chain hp p l -> (length l < fuel)%nat ->
  find_fd fuel hp p d = NotFound \/ exists a, find_fd fuel hp p d = Found a.
Proof.
  induction fuel as [|fuel IH]; intros p l Hc Hfuel; [lia|].
  destruct Hc as [|b f l Hb Hnot Hc]; cbn [find_fd]; [now left|].
  rewrite Hb. destruct (fd f =? d); [right; eauto|].
  eapply IH; [exact Hc | cbn [length] in Hfuel; lia].
Qed.

Lemma get_file_descriptor_returns (h : H) (vm : guest) d :
  guest_ok vm -> exists vm', get_file_descriptor h vm d = Ret h vm' 0.
Proof.
  intros (l & (Hc & _) & _). unfold get_file_descriptor.
  destruct (find_fd_returns (heap vm) d (S (size (heap vm))) (file_head vm) l Hc) as [-> | [a ->]];
    [pose proof (chain_length _ _ _ Hc); lia | eauto ..].
Qed.

Lemma served_ok (vm : guest) : served vm -> guest_ok vm.
Proof.
  induction 1 as [pty vm_id r | vm r _ IH | vm h vm' v _ IH Hcomp].
  - apply guest_ok_init.
  - eapply guest_ok_frame; [apply same_frame_kvm_run | exact IH].
  - eapply handle_file_ok; eassumption.
Qed.

(** [close_op_status] touches neither the lock nor [current_file]. *)
Lemma close_op_status_current (h : H) (vm vm' : guest) v :
  completes (close_op_status h vm) vm' v ->
  lock vm' = lock vm /\ current_file vm' = current_file vm.
Proof.
  unfold close_op_status. intros Hc.
  destruct (_ : res (H * Z)) as [[h1 st]|u]; [|inversion Hc].
  destruct (unlink _ _ _) as [vm1| | |] eqn:Hu; try (inversion Hc; fail).
  - destruct (unlink_fields _ _ _ _ Hu) as (U1 & U2 & _).
    destruct (free vm1 (current_file vm1)) as [vm2|] eqn:Hf; [|inversion Hc].
    destruct (free_fields _ _ _ Hf) as (F1 & F2 & _).
    inversion Hc; subst. cbn [lock current_file put_int set_kvm_run]. split; congruence.
  - destruct (free vm (current_file vm)) as [vm2|] eqn:Hf; [|inversion Hc].
    destruct (free_fields _ _ _ Hf) as (F1 & F2 & _).
    inversion Hc; subst. cbn [lock current_file put_int set_kvm_run]. now split.
Qed.

(** What a handler does to [current_file]: it leaves it and the lock as
    they are, or clears it, or an OPEN has begun, or it now points at a
    live record. *)
Lemma handle_file_current (h : H) (vm vm' : guest) v :
  guest_ok vm -> completes (handle_file h vm) vm' v ->
  (lock vm' = lock vm /\ current_file vm' = current_file vm)
  \/ current_file vm' = None
  \/ lock vm' = OPEN
  \/ (exists b, current_file vm' = Some b /\ is_Some (heap vm' !! b)).
Proof.
  intros Hok Hcomp. unfold handle_file in Hcomp.
  assert (Hframe : forall p : proc H Z, keeps_frame vm p -> completes p vm' v ->
            lock vm' = lock vm /\ current_file vm' = current_file vm).
  { intros p Hk Hc. destruct (completes_keeps_frame vm vm' p v Hk Hc) as (Hl & Hcur & _).
    now split. }
  destruct ((io_direction (kvm_run vm) =? KVM_EXIT_IO_OUT) && (io_size (kvm_run vm) =? 4)).
  { destruct (Z.eqb_spec (lock vm) 0) as [E0|E0].
    { unfold start_file_operation in Hcomp.
      inversion Hcomp as [| ? ? ? h' ? ? Hk |]; subst. cbv beta zeta in Hk.
      destruct (Z.eqb_spec (data_int (kvm_run vm)) OPEN) as [Eop|Eop].
      - destruct (store_slot _ _ _) as [vm2|] eqn:Es; [|inversion Hk].
        inversion Hk; subst. right; right; left.
        destruct (store_slot_fields _ _ _ _ Es) as (L & _).
        cbn [lock set_current_file set_file_indirect]. rewrite L. exact Eop.
      - inversion Hk; subst. right; left. cbn [current_file set_lock].
        destruct Hok as (l & _ & (C0 & _)). now apply C0. }
    destruct (Z.eqb_spec (lock vm) OPEN) as [EO|EO].
    { left. eapply Hframe; [apply opened_file_op_flags_frame | exact Hcomp]. }
    destruct (data_int (kvm_run vm) =? FINISH).
    - unfold end_file_operation in Hcomp. inversion Hcomp as [| |? ? ? ? ? ? Hk]; subst.
      inversion Hk; subst. right; left. reflexivity.
    - unfold get_file_descriptor in Hcomp.
      destruct (find_fd _ _ _ _) as [b| | |] eqn:E; inversion Hcomp; subst.
      + right; right; right. exists b. split; [reflexivity|].
        cbn [heap set_current_file].
        destruct Hok as (l & (Hc & _) & _).
        eapply chain_live; [exact Hc | eapply find_fd_found; eassumption].
      + left. now split. }
  destruct ((io_direction (kvm_run vm) =? KVM_EXIT_IO_OUT) && (io_size (kvm_run vm) =? 1)).
  { destruct (lock vm =? OPEN).
    { left. eapply Hframe; [apply opened_file_op_name_frame | exact Hcomp]. }
    destruct (lock vm =? WRITE).
    { left. eapply Hframe; [apply write_file_frame | exact Hcomp]. }
    inversion Hcomp; subst. left. now split. }
  destruct ((io_direction (kvm_run vm) =? KVM_EXIT_IO_IN) && (io_size (kvm_run vm) =? 4)).
  { destruct (lock vm =? CLOSE).
    { left. eapply close_op_status_current, Hcomp. }
    destruct (lock vm =? OPEN); [|inversion Hcomp; subst; left; now split].
    unfold opened_file_op_send_fd in Hcomp.
    destruct (cur vm) as [[a f]|]; [|inversion Hcomp].
    unfold end_file_operation in Hcomp. inversion Hcomp as [| |? ? ? ? ? ? Hk]; subst.
    inversion Hk; subst. right; left. reflexivity. }
  destruct ((io_direction (kvm_run vm) =? KVM_EXIT_IO_IN) && (io_size (kvm_run vm) =? 1)).
  { destruct (lock vm =? READ); [|inversion Hcomp; subst; left; now split].
    left. eapply Hframe; [apply read_file_frame | exact Hcomp]. }
  inversion Hcomp; subst. left. now split.
Qed.

(** A [current_file] that is not live is met under CLOSE only. *)
Lemma dangling_lock (vm : guest) a :
  guest_ok vm -> current_file vm = Some a -> heap vm !! a = None -> lock vm = CLOSE.
Proof.
  intros (l & (Hc & _) & (C0 & CO & CX)) Hcur Hdead.
  destruct (Z.eq_dec (lock vm) 0) as [E0|E0]; [rewrite (C0 E0) in Hcur; discriminate|].
  destruct (Z.eq_dec (lock vm) OPEN) as [EO|EO].
  { destruct (CO EO) as (b & Hb & Hbl). assert (b = a) by congruence. subst b.
    destruct (chain_live _ _ _ a Hc Hbl) as [f Hf]. congruence. }
  destruct (CX E0 EO) as [Hn | (b & Hb & [Hbl | [Hl _]])].
  - congruence.
  - assert (b = a) by congruence. subst b.
    destruct (chain_live _ _ _ a Hc Hbl) as [f Hf]. congruence.
  - exact Hl.
Qed.

(** C5 (as amended).  Between two handlers, for every guest: either
    [file_lock] is IDLE and [current_file] is none; or [file_lock] is OPEN
    and [current_file] is a member of [files]; or [file_lock] is some other
    value that is not 0 (the dword that started the operation, which the
    engine stores unchecked), and then [current_file] is none (no
    descriptor sent yet, or none matched), a member of [files], or, under
    CLOSE, a record that is no longer live.  Such a record is the one a
    handler of this CLOSE has removed and freed: whenever a handler leaves
    [current_file] at a record that is not live, the lock is CLOSE before
    and after it, and the record was a member of [files] before that
    handler or [current_file] was already pointing at it. *)
Theorem C5_lock_and_current_file (vm : guest) :
  served vm ->
  lock_file_invariant vm
  /\ forall h vm' v a,
       completes (handle_file h vm) vm' v ->
       current_file vm' = Some a -> heap vm' !! a = None ->
       lock vm = CLOSE /\ lock vm' = CLOSE
       /\ (a ∈ files vm \/ (current_file vm = Some a /\ heap vm !! a = None)).
Proof.
  intros Hs. pose proof (served_ok vm Hs) as Hok. split.
  - destruct Hok as (l & (Hc & _) & (C0 & CO & CX)).
    rewrite <- (files_chain vm l Hc) in CO, CX. unfold lock_file_invariant.
    destruct (Z.eq_dec (lock vm) 0) as [E0|E0]; [left; split; [exact E0 | now apply C0]|].
    destruct (Z.eq_dec (lock vm) OPEN) as [EO|EO];
      [right; left; split; [exact EO | now apply CO]|].
    right; right. split; [exact E0|]. split; [exact EO | now apply CX].
  - intros h vm' v a Hcomp Hcur Hdead.
    pose proof (handle_file_ok h vm vm' v Hok Hcomp) as Hok'.
    pose proof (dangling_lock vm' a Hok' Hcur Hdead) as Hl'.
    destruct (handle_file_current h vm vm' v Hok Hcomp)
      as [[Hl Hc] | [Hn | [Ho | (b & Hb & Hlive)]]].
    + split; [congruence|]. split; [exact Hl'|].
      rewrite Hcur in Hc. symmetry in Hc.
      destruct (heap vm !! a) as [f|] eqn:Ha; [left | right; now split].
      destruct Hok as (l & (Hch & Hall & _) & _).
      rewrite (files_chain vm l Hch). apply Hall. eauto.
    + congruence.
    + rewrite Ho in Hl'. discriminate.
    + assert (b = a) by congruence. subst b. destruct Hlive as [f Hf]. congruence.
Qed.

End GuestOk.
(** ** OPEN: what the engine does with each exit *)

Section OpenServed.
Context {H : Type} `{Host H}.

(** C10 (as amended).  In every state the engine reaches with the lock at
    OPEN, [current_file] is a live record and a 32-bit OUT is data, the
    value 0 included: its handler makes no semaphore call and leaves the
    lock at OPEN and [current_file] in place, or stops in the undefined
    behaviour of the path resolution.  While the flags of the record are
    still the [-1] of [init_file], the dword is stored as the flags and
    nothing else happens, whatever has been sent of the name.  Once the
    flags differ from [-1], the dword is stored as the mode and the path is
    resolved with both, the name being read as a C string: this is defined
    when the name was sent with its NUL.  No exit but the 32-bit IN ends
    the operation: that one reports the descriptor, posts the permit and
    then clears the lock and [current_file]. *)
Theorem C10_open_takes_dwords_as_data (vm : guest) :
  served vm ->
  lock vm = OPEN ->
  exists a f,
    current_file vm = Some a /\ heap vm !! a = Some f
    /\ (forall h d, - 2 ^ 31 <= d < 2 ^ 31 ->
          match handle_file h (set_kvm_run vm (out_dword d)) with
          | Ret _ vm' _ => lock vm' = OPEN /\ current_file vm' = Some a
          | Undef _ => flags f <> -1
          | _ => False
          end)
    /\ (flags f = -1 ->
        forall h d, - 2 ^ 31 <= d < 2 ^ 31 ->
          handle_file h (set_kvm_run vm (out_dword d))
          = Ret h (set_heap (set_kvm_run vm (out_dword d)) (<[a := set_flags f d]> (heap vm))) 0)
    /\ (flags f <> -1 ->
        forall h d name, - 2 ^ 31 <= d < 2 ^ 31 -> c_string (ime f) = Ok name ->
          exists vm2,
            handle_file h (set_kvm_run vm (out_dword d))
            = Ret (fst (resolve h (id vm) name (flags f) (u32 d))) vm2 0
            /\ lock vm2 = OPEN /\ current_file vm2 = Some a
            /\ heap vm2 !! a
               = Some (set_fd (set_mode f (u32 d))
                              (snd (resolve h (id vm) name (flags f) (u32 d)))))
    /\ (forall h r vm' v,
          completes (handle_file h (set_kvm_run vm r)) vm' v ->
          lock vm' <> OPEN ->
          io_direction r = KVM_EXIT_IO_IN /\ io_size r = 4
          /\ lock vm' = 0 /\ current_file vm' = None)
    /\ (forall h, exists k,
          handle_file h (set_kvm_run vm in_dword)
          = SemPost h (put_int (set_kvm_run vm in_dword) (fd f)) k
          /\ forall h', exists vm',
               k h' = Ret h' vm' 0 /\ lock vm' = 0 /\ current_file vm' = None
               /\ io_data (kvm_run vm') = u32 (fd f)).
Proof.
  intros Hs Hl.
  destruct (served_ok vm Hs) as (l & (Hch & _) & (_ & CO & _)).
  destruct (CO Hl) as (a & Hc & Hal).
  destruct (chain_live _ _ _ a Hch Hal) as [f Hh].
  exists a, f. split; [exact Hc|]. split; [exact Hh|].
  assert (Hdisp : forall h d, - 2 ^ 31 <= d < 2 ^ 31 ->
            handle_file h (set_kvm_run vm (out_dword d))
            = opened_file_op_flags h (set_kvm_run vm (out_dword d)) d).
  { intros h d Hd. rewrite handle_file_out_dword by assumption. rewrite Hl.
    change (OPEN =? 0) with false. change (OPEN =? OPEN) with true. reflexivity. }
  split; [|split; [|split; [|split]]].
  - intros h d Hd. rewrite Hdisp by assumption.
    destruct (Z.eq_dec (flags f) (-1)) as [Ef|Ef].
    + rewrite (opened_file_op_flags_first h (set_kvm_run vm (out_dword d)) a f d Hc Hh Ef).
      now split.
    + pose proof (opened_file_op_flags_frame h (set_kvm_run vm (out_dword d)) d) as Hfr.
      unfold opened_file_op_flags in *.
      destruct (_ : res (H * guest * Z)) as [[[h1 g1] v1]|u]; cbn [lift keeps_frame] in *.
      * destruct Hfr as (Hl1 & Hc1 & _). cbn [lock current_file set_kvm_run] in Hl1, Hc1.
        split; congruence.
      * exact Ef.
  - intros Ef h d Hd. rewrite Hdisp by assumption.
    exact (opened_file_op_flags_first h (set_kvm_run vm (out_dword d)) a f d Hc Hh Ef).
  - intros Ef h d name Hd Hname. eexists. split.
    { rewrite Hdisp by assumption.
      rewrite (opened_file_op_flags_resolve h _ a f name d);
        [reflexivity | exact Hc | exact Hh | exact Ef | exact Hname]. }
    cbn [lock current_file heap set_heap set_kvm_run id].
    split; [assumption|]. split; [assumption|]. apply lookup_insert_eq.
  - intros h r vm' v Hcomp Hend.
    apply (open_ends_on_in_dword h (set_kvm_run vm r) vm' v); assumption.
  - intros h. eexists. split.
    { rewrite handle_file_in_dword, Hl.
      change (OPEN =? CLOSE) with false. change (OPEN =? OPEN) with true. cbv iota zeta.
      unfold opened_file_op_send_fd.
      rewrite (cur_intro (set_kvm_run vm in_dword) a f Hc Hh). reflexivity. }
    intros h'. eexists. split; [reflexivity|]. now repeat split.
Qed.

End OpenServed.

Lemma open_started_served : @served toy_host _ open_started.
Proof.
  apply (serve_served [out_dword OPEN] 1 toy0 (init_guest 5 0 in_byte)
           0 toy0 open_started 0); [apply served_init | vm_compute; reflexivity].
Qed.

Lemma C10_open_takes_dwords_as_data_witness :
  @served toy_host _ open_started /\ lock open_started = OPEN
  /\ handle_file toy0 (set_kvm_run open_started (out_dword FINISH))
     = Ret toy0 (set_heap (set_kvm_run open_started (out_dword FINISH))
                   (<[1 := set_flags open_started_file FINISH]> (heap open_started))) 0.
Proof.
  split; [exact open_started_served|]. split; [reflexivity|].
  destruct (C10_open_takes_dwords_as_data open_started open_started_served eq_refl)
    as (a & f & Hc & Hh & _ & Hfirst & _).
  injection Hc as <-.
  assert (Ef : Some f = Some open_started_file) by (rewrite <- Hh; vm_compute; reflexivity).
  injection Ef as ->.
  apply (Hfirst eq_refl toy0 FINISH). unfold FINISH. lia.
Defined.
Lemma close_started_served : @served toy_host _ close_started.
Proof.
  eapply (served_file (set_kvm_run (init_guest 5 0 in_byte) (out_dword CLOSE)) toy0 _ 0).
  - apply served_exit, served_init.
  - apply (completes_wait _ _ _ toy0). constructor.
Qed.

Lemma C5_lock_and_current_file_witness :
  @served toy_host _ close_started /\ lock_file_invariant close_started.
Proof.
  split; [exact close_started_served|].
  exact (proj1 (C5_lock_and_current_file close_started close_started_served)).
Defined.

(** C5 (as stated) fails in the ordinary course of a CLOSE: after the
    handler of [OUT dword CLOSE] the lock is CLOSE and [current_file] is
    still none; it is set only when the descriptor arrives. *)
Lemma C5_close_has_no_current_file :
  @served toy_host _ close_started
  /\ lock close_started = CLOSE
  /\ current_file close_started = None
  /\ ~ lock_file_invariant_literal close_started.
Proof.
  split; [exact close_started_served|]. split; [reflexivity|]. split; [reflexivity|].
  intros [[Hl _] | [_ (a & Ha & _)]]; discriminate.
Qed.

(** The first dword of an operation becomes the lock as it is: here the
    guest sends 99, which names no operation, and the lock is 99 until a
    FINISH arrives. *)
Lemma operation_code_unchecked :
  exists vm : guest,
    @served toy_host _ vm /\ lock vm = 99 /\ current_file vm = None
    /\ lock_file_invariant vm /\ ~ lock_file_invariant_literal vm.
Proof.
  exists (set_lock (set_kvm_run (init_guest 5 0 in_byte) (out_dword 99)) 99).
  split.
  { eapply (served_file (set_kvm_run (init_guest 5 0 in_byte) (out_dword 99)) toy0 _ 0).
    - apply served_exit, served_init.
    - apply (completes_wait _ _ _ toy0). constructor. }
  split; [reflexivity|]. split; [reflexivity|]. split.
  - right; right. split; [discriminate|]. split; [discriminate | now left].
  - intros [[Hl _] | [[Hl | [Hl | [Hl | Hl]]] _]]; discriminate.
Qed.
(** ** Several guests: the permit *)

Section Token.
Context {H : Type} `{Host H}.

Lemma permits_held_nonneg (ts : list (thread H)) : 0 <= permits_held ts.
Proof. induction ts as [|t ts IH]; cbn; [lia | destruct (holds_permit t); lia]. Qed.

Lemma permits_held_insert (ts : list (thread H)) : forall i t t',
  ts !! i = Some t ->
  permits_held (<[i := t']> ts)
  = permits_held ts - (if holds_permit t then 1 else 0) + (if holds_permit t' then 1 else 0).
Proof.
  induction ts as [|t0 ts IH]; intros [|i] t t' Hi; simpl in *; try discriminate.
  - injection Hi as ->. lia.
  - rewrite (IH i t t' Hi). lia.
Qed.

Lemma one_holder (ts : list (thread H)) : forall i t,
  ts !! i = Some t -> holds_permit t = true -> 1 <= permits_held ts.
Proof.
  induction ts as [|t0 ts IH]; intros [|i] t Hi Ht; cbn in *; try discriminate.
  - injection Hi as ->. rewrite Ht. pose proof (permits_held_nonneg ts). lia.
  - specialize (IH i t Hi Ht). destruct (holds_permit t0); lia.
Qed.

Lemma two_holders (ts : list (thread H)) : forall i j ti tj,
  i <> j -> ts !! i = Some ti -> ts !! j = Some tj ->
  holds_permit ti = true -> holds_permit tj = true ->
  2 <= permits_held ts.
Proof.
  induction ts as [|t0 ts IH]; intros [|i] [|j] ti tj Hne Hi Hj Hti Htj;
    cbn in *; try discriminate; try congruence.
  - injection Hi as ->. rewrite Hti. pose proof (one_holder ts j tj Hj Htj). lia.
  - injection Hj as ->. rewrite Htj. pose proof (one_holder ts i ti Hi Hti). lia.
  - assert (2 <= permits_held ts) by (eapply (IH i j); eauto).
    destruct (holds_permit t0); lia.
Qed.

Lemma boot_guests_idle ptys : forall n,
  permits_held (map (@InGuest H) (boot_guests n ptys)) = 0
  /\ Forall thread_ok (map (@InGuest H) (boot_guests n ptys)).
Proof.
  induction ptys as [|pty ptys IH]; intros n; cbn; [split; [reflexivity | constructor]|].
  destruct (IH (n + 1)) as [-> Hok]. split; [reflexivity|]. constructor; [exact I | exact Hok].
Qed.

Lemma token_invariant_boot (h : H) ptys : token_invariant (boot h ptys).
Proof.
  unfold token_invariant, boot. cbn [file_mutex threads].
  destruct (boot_guests_idle ptys 0) as [-> Hok]. repeat split; (lia || assumption).
Qed.

Lemma token_invariant_settle (sys sys' : system H) i t p :
  token_invariant sys ->
  threads sys !! i = Some t ->
  settle sys i p = Some sys' ->
  match p with
  | Ret _ g _ => (if holds_permit (InGuest (H := H) g) then 1 else 0)
                 <= (if holds_permit t then 1 else 0)
  | SemWait _ g k => lock g = 0 /\ (forall h, quiet (k h))
  | SemPost _ g k => holds_permit t = true
                     /\ forall h, exists g', k h = Ret h g' 0 /\ lock g' = 0
                                             /\ current_file g' = None
  | _ => True
  end ->
  token_invariant sys'.
Proof.
  intros (Hpos & Hsum & Hok) Hi Hs Hp.
  destruct p as [h g a | h g k | h g k | u |]; cbn in Hs; inversion Hs; subst sys'; clear Hs;
    unfold token_invariant; cbn [file_mutex threads];
    rewrite (permits_held_insert _ _ _ _ Hi).
  - repeat split; [lia | lia |]. apply Forall_insert; [assumption | exact I].
  - repeat split; [lia | cbn [holds_permit]; destruct (holds_permit t); lia |].
    apply Forall_insert; assumption.
  - destruct Hp as [Ht Hk]. rewrite Ht. cbn [holds_permit].
    repeat split; [lia | lia |]. apply Forall_insert; assumption.
Qed.

(** Off the file port [exit_io] makes no semaphore call and changes
    nothing of the guest but its run region. *)
Lemma exit_io_off_file_port (c0 : Z) (h : H) (vm : guest) :
  io_port (kvm_run vm) <> 0x278 ->
  match exit_io c0 h vm with
  | Ret _ vm' _ => exists r, vm' = set_kvm_run vm r
  | SemWait _ _ _ | SemPost _ _ _ => False
  | _ => True
  end.
Proof.
  intros Hport. unfold exit_io.
  destruct ((io_direction (kvm_run vm) =? KVM_EXIT_IO_OUT) && (io_port (kvm_run vm) =? 0xE9)).
  { destruct (io_size (kvm_run vm) =? 1); [|exact I].
    exists (kvm_run vm). now destruct vm. }
  destruct ((io_direction (kvm_run vm) =? KVM_EXIT_IO_IN) && (io_port (kvm_run vm) =? 0xE9)).
  { destruct (host_read h (pty_master vm)) as [h1 got]. eexists. reflexivity. }
  destruct (Z.eqb_spec (io_port (kvm_run vm)) 0x278); [contradiction|].
  exists (kvm_run vm). now destruct vm.
Qed.

Lemma token_invariant_step (sys sys' : system H) (e : event H) :
  token_invariant sys -> sched sys e = Some sys' -> token_invariant sys'.
Proof.
  intros Hinv Hs. pose proof Hinv as (Hpos & Hsum & Hok).
  destruct e as [i r | i | i | h | i c0 r]; cbn in Hs.
  - destruct (threads sys !! i) as [[g| | |]|] eqn:Hi; try discriminate.
    eapply token_invariant_settle; [eassumption .. |].
    pose proof (handle_file_effect (host sys) (set_kvm_run g r)) as Heff.
    destruct (handle_file _ _) as [h' g' a | h' g' k | h' g' k | |]; cbn in Heff; try exact I.
    + cbn [holds_permit]. rewrite Heff. cbn. lia.
    + destruct Heff as (-> & Hl & Hq). split; assumption.
    + destruct Heff as (Hl & _ & Hk). split; [|assumption]. cbn in Hl |- *.
      destruct (Z.eqb_spec (lock g) 0); [contradiction | reflexivity].
  - destruct (threads sys !! i) as [[g|g k|g k|g k]|] eqn:Hi; try discriminate.
    destruct (Z.ltb_spec 0 (file_mutex sys)); [|discriminate].
    injection Hs as <-. unfold token_invariant. cbn [file_mutex threads].
    rewrite (permits_held_insert _ _ _ _ Hi). cbn [holds_permit].
    repeat split; [lia | lia |].
    apply Forall_insert; [assumption|]. exact (Forall_lookup_1 _ _ _ _ Hok Hi).
  - destruct (threads sys !! i) as [[g|g k|g k|g k]|] eqn:Hi; try discriminate.
    + pose proof (Forall_lookup_1 _ _ _ _ Hok Hi) as [Hl Hq].
      eapply token_invariant_settle; [eassumption .. |].
      specialize (Hq (host sys)).
      destruct (k (host sys)) as [h' g' a| | | |]; cbn in Hq; try contradiction; try exact I.
      cbn [holds_permit]. destruct (negb _); lia.
    + pose proof (Forall_lookup_1 _ _ _ _ Hok Hi) as Hk.
      eapply token_invariant_settle; [eassumption .. |].
      destruct (Hk (host sys)) as (g' & -> & Hl & _).
      cbn [holds_permit]. rewrite Hl. cbn. lia.
  - injection Hs as <-. exact Hinv.
  - destruct (threads sys !! i) as [[g| | |]|] eqn:Hi; try discriminate.
    destruct (Z.eqb_spec (io_port r) 0x278) as [|Hport]; [discriminate|].
    pose proof (exit_io_off_file_port c0 (host sys) (set_kvm_run g r) Hport) as Hio.
    destruct (exit_io _ _ _) as [h' g' a| | | |]; try discriminate.
    destruct Hio as [r' ->]. injection Hs as <-.
    unfold token_invariant. cbn [file_mutex threads].
    rewrite (permits_held_insert _ _ _ _ Hi). cbn [holds_permit set_kvm_run lock].
    repeat split; [lia | destruct (negb _); lia |].
    apply Forall_insert; [assumption | exact I].
Qed.

Lemma reachable_token_invariant (sys : system H) : reachable sys -> token_invariant sys.
Proof.
  induction 1 as [h ptys | sys e sys' _ IH Hs];
    [apply token_invariant_boot | eapply token_invariant_step; eassumption].
Qed.

Lemma reachable_sched_all (es : list (event H)) : forall sys sys',
  reachable sys -> sched_all sys es = Some sys' -> reachable sys'.
Proof.
  induction es as [|e es IH]; intros sys sys' Hr Hs; cbn in Hs.
  - now injection Hs as <-.
  - destruct (sched sys e) as [sys1|] eqn:E; [|discriminate].
    eapply IH; [|eassumption]. econstructor; eassumption.
Qed.



End Token.


(** ** Several guests: who touches the host *)

Section HostAccess.
Context {H : Type} `{Host H}.

(** A handler started with the lock IDLE leaves the host alone; the
    semaphore calls are made on the host as it was found. *)
Lemma handle_file_host (h : H) (vm : guest) :
  match handle_file h vm with
  | Ret h' _ _ => lock vm = 0 -> h' = h
  | SemWait h' _ k | SemPost h' _ k => h' = h /\ passes_host k
  | _ => True
  end.
Proof.
  unfold handle_file.
  destruct ((io_direction (kvm_run vm) =? KVM_EXIT_IO_OUT) && (io_size (kvm_run vm) =? 4)).
  { destruct (Z.eqb_spec (lock vm) 0) as [L0|L0].
    - unfold start_file_operation. split; [reflexivity|]. intros h0.
      destruct (_ =? OPEN); [|reflexivity].
      destruct (store_slot _ _ _); [reflexivity | exact I].
    - destruct (lock vm =? OPEN).
      + unfold opened_file_op_flags.
        destruct (_ : res (H * guest * Z)) as [[[h1 g1] a1]|]; cbn; [intros; contradiction | exact I].
      + destruct (_ =? FINISH).
        * unfold end_file_operation. split; [reflexivity|]. intros h0. reflexivity.
        * unfold get_file_descriptor. destruct (find_fd _ _ _ _); cbn; try exact I;
            intros; contradiction. }
  destruct ((io_direction (kvm_run vm) =? KVM_EXIT_IO_OUT) && (io_size (kvm_run vm) =? 1)).
  { destruct (Z.eqb_spec (lock vm) OPEN) as [LO|LO].
    - unfold opened_file_op_name.
      destruct (_ : res (H * guest * Z)) as [[[h1 g1] a1]|]; cbn; [|exact I].
      intros L0. rewrite L0 in LO. discriminate.
    - destruct (Z.eqb_spec (lock vm) WRITE) as [LW|LW]; [|reflexivity].
      unfold write_file. destruct (current_file vm); [|intros; reflexivity].
      destruct (_ : res (H * guest * Z)) as [[[h1 g1] a1]|]; cbn; [|exact I].
      intros L0. rewrite L0 in LW. discriminate. }
  destruct ((io_direction (kvm_run vm) =? KVM_EXIT_IO_IN) && (io_size (kvm_run vm) =? 4)).
  { destruct (Z.eqb_spec (lock vm) CLOSE) as [LC|LC].
    - assert (Hbusy : lock vm <> 0) by (rewrite LC; discriminate).
      pose proof (close_op_status_lock h vm) as Hq.
      destruct (close_op_status h vm); cbn in Hq; try exact I; try contradiction.
    - destruct (Z.eqb_spec (lock vm) OPEN) as [LO|LO]; [|reflexivity].
      unfold opened_file_op_send_fd. destruct (cur vm) as [[a f]|]; [|exact I].
      unfold end_file_operation. split; [reflexivity|]. intros h0. reflexivity. }
  destruct ((io_direction (kvm_run vm) =? KVM_EXIT_IO_IN) && (io_size (kvm_run vm) =? 1)).
  { destruct (Z.eqb_spec (lock vm) READ) as [LR|LR]; [|reflexivity].
    unfold read_file. destruct (current_file vm).
    - destruct (_ : res (H * guest * Z)) as [[[h1 g1] a1]|]; cbn; [|exact I].
      intros L0. rewrite L0 in LR. discriminate.
    - intros L0. rewrite L0 in LR. discriminate. }
  reflexivity.
Qed.

(** Off the file port the only host calls of [exit_io] are the one
    [write] or [read] of a console exit, on the console descriptor of the
    guest. *)
Lemma exit_io_console_host (c0 : Z) (h : H) (vm : guest) :
  io_port (kvm_run vm) <> 0x278 ->
  match exit_io c0 h vm with
  | Ret h' _ _ =>
      h' = h
      \/ (io_port (kvm_run vm) = 0xE9
          /\ (h' = host_write h (pty_master vm) (data_char (kvm_run vm))
              \/ h' = fst (host_read h (pty_master vm))))
  | _ => True
  end.
Proof.
  intros Hport. unfold exit_io.
  destruct (Z.eqb_spec (io_port (kvm_run vm)) 0xE9) as [E9|E9].
  - rewrite !andb_true_r.
    destruct (io_direction (kvm_run vm) =? KVM_EXIT_IO_OUT).
    { destruct (io_size (kvm_run vm) =? 1); [|exact I]. right. split; [exact E9 | now left]. }
    destruct (io_direction (kvm_run vm) =? KVM_EXIT_IO_IN).
    { destruct (host_read h (pty_master vm)) as [h1 got]. right. split; [exact E9 | now right]. }
    destruct (Z.eqb_spec (io_port (kvm_run vm)) 0x278); [contradiction | now left].
  - rewrite !andb_false_r.
    destruct (Z.eqb_spec (io_port (kvm_run vm)) 0x278); [contradiction | now left].
Qed.

Lemma thread_passes_settle (sys sys' : system H) i p :
  Forall thread_passes (threads sys) ->
  settle sys i p = Some sys' ->
  match p with
  | SemWait _ _ k | SemPost _ _ k => passes_host k
  | _ => True
  end ->
  Forall thread_passes (threads sys').
Proof.
  intros Hok Hs Hp.
  destruct p as [h g a | h g k | h g k | u |]; cbn in Hs; inversion Hs; subst sys'; clear Hs;
    cbn [threads]; apply Forall_insert; (assumption || exact I).
Qed.

Lemma thread_passes_step (sys sys' : system H) (e : event H) :
  Forall thread_passes (threads sys) -> sched sys e = Some sys' ->
  Forall thread_passes (threads sys').
Proof.
  intros Hok Hs. destruct e as [i r | i | i | h | i c0 r]; cbn in Hs.
  - destruct (threads sys !! i) as [[g| | |]|] eqn:Hi; try discriminate.
    eapply thread_passes_settle; [eassumption .. |].
    pose proof (handle_file_host (host sys) (set_kvm_run g r)) as Hh.
    destruct (handle_file _ _); try exact I; apply Hh.
  - destruct (threads sys !! i) as [[g|g k|g k|g k]|] eqn:Hi; try discriminate.
    destruct (0 <? file_mutex sys); [|discriminate].
    injection Hs as <-. cbn [threads].
    apply Forall_insert; [assumption|]. exact (Forall_lookup_1 _ _ _ _ Hok Hi).
  - destruct (threads sys !! i) as [[g|g k|g k|g k]|] eqn:Hi; try discriminate;
      pose proof (Forall_lookup_1 _ _ _ _ Hok Hi (host sys)) as Hk;
      (eapply thread_passes_settle; [eassumption .. |]);
      destruct (k (host sys)); (exact I || contradiction).
  - injection Hs as <-. exact Hok.
  - destruct (threads sys !! i) as [[g| | |]|] eqn:Hi; try discriminate.
    destruct (io_port r =? 0x278); [discriminate|].
    destruct (exit_io _ _ _) as [h' g' a| | | |]; try discriminate.
    injection Hs as <-. cbn [threads]. apply Forall_insert; [assumption | exact I].
Qed.

Lemma reachable_thread_passes (sys : system H) :
  reachable sys -> Forall thread_passes (threads sys).
Proof.
  induction 1 as [h ptys | sys e sys' _ IH Hs]; [|eapply thread_passes_step; eassumption].
  unfold boot. cbn [threads]. apply Forall_map.
  apply Forall_forall. intros g _. exact I.
Qed.


End HostAccess.


(** ** The guest's file routines: one trap at a time *)

Lemma norm_fields (vm t : guest) :
  norm vm = norm t ->
  lock vm = lock t /\ current_file vm = current_file t
  /\ file_head vm = file_head t /\ file_indirect vm = file_indirect t
  /\ heap vm = heap t /\ heap_next vm = heap_next t
  /\ id vm = id t /\ pty_master vm = pty_master t.
Proof.
  intros E.
  repeat split;
    [ apply (f_equal lock) in E | apply (f_equal current_file) in E
    | apply (f_equal file_head) in E | apply (f_equal file_indirect) in E
    | apply (f_equal heap) in E | apply (f_equal heap_next) in E
    | apply (f_equal id) in E | apply (f_equal pty_master) in E ]; exact E.
Qed.

Lemma norm_intro (vm t : guest) :
  lock vm = lock t -> current_file vm = current_file t ->
  file_head vm = file_head t -> file_indirect vm = file_indirect t ->
  heap vm = heap t -> heap_next vm = heap_next t ->
  id vm = id t -> pty_master vm = pty_master t ->
  norm vm = norm t.
Proof.
  destruct vm, t. cbn. intros. subst. reflexivity.
Qed.

Section Traps.
Context {H : Type} `{Host H}.

(** A trap sees the guest's file state only. *)
Lemma trap_norm (r : run_region) (sem : Z) (h : H) (vm t : guest) :
  norm vm = norm t -> trap r sem h vm = trap r sem h t.
Proof.
  intros E. unfold trap.
  change (set_kvm_run vm r) with (set_kvm_run (norm vm) r).
  rewrite E. reflexivity.
Qed.

Lemma trap_served (r : run_region) (sem sem' : Z) (h h' : H) (vm vm' g : guest) :
  served vm -> trap r sem h vm = Finished sem' h' vm' g -> served vm' /\ g = vm'.
Proof.
  intros Hs. unfold trap.
  destruct (exec sem (handle_file h (set_kvm_run vm r))) as [s1 h1 g1 a1| | |] eqn:E;
    try discriminate.
  intros [= _ _ <- <-]. split; [|reflexivity].
  eapply served_file; [apply served_exit, Hs | eapply exec_completes, E].
Qed.

Lemma trap_ret (r : run_region) (sem : Z) (h h' : H) (vm vm' : guest) (v : Z) :
  handle_file h (set_kvm_run vm r) = Ret h' vm' v ->
  trap r sem h vm = Finished sem h' vm' vm'.
Proof. intros E. unfold trap. now rewrite E. Qed.

(** *** Four-byte output *)

Lemma port_out_start (op sem : Z) (h : H) (vm : guest) :
  lock vm = 0 -> 0 < sem -> - 2 ^ 31 <= op < 2 ^ 31 -> op <> OPEN ->
  port_out op sem h vm
  = Finished (sem - 1) h (set_lock (set_kvm_run vm (out_dword op)) op) tt.
Proof.
  intros Hl Hsem Hop Hne. unfold port_out, trap, mbind, gprog_bind, mret, gprog_ret.
  rewrite handle_file_out_dword by exact Hop. cbv zeta. rewrite Hl.
  change (0 =? 0) with true. cbv iota.
  unfold start_file_operation. cbn [exec].
  destruct (Z.ltb_spec 0 sem); [|lia].
  destruct (Z.eqb_spec op OPEN); [contradiction|]. reflexivity.
Qed.

Lemma port_out_blocked (op sem : Z) (h : H) (vm : guest) :
  lock vm = 0 -> sem <= 0 -> - 2 ^ 31 <= op < 2 ^ 31 ->
  port_out op sem h vm = Blocked h (set_kvm_run vm (out_dword op)).
Proof.
  intros Hl Hsem Hop. unfold port_out, trap, mbind, gprog_bind.
  rewrite handle_file_out_dword by exact Hop. cbv zeta. rewrite Hl.
  change (0 =? 0) with true. cbv iota.
  unfold start_file_operation. cbn [exec].
  destruct (Z.ltb_spec 0 sem); [lia|]. reflexivity.
Qed.

Lemma port_out_finish (sem : Z) (h : H) (vm : guest) :
  lock vm <> 0 -> lock vm <> OPEN ->
  port_out FINISH sem h vm
  = Finished (sem + 1) h
      (set_current_file (set_lock (set_kvm_run vm (out_dword FINISH)) 0) None) tt.
Proof.
  intros H0' HO. unfold port_out, trap, mbind, gprog_bind, mret, gprog_ret.
  rewrite handle_file_out_dword by (unfold FINISH; lia). cbv zeta.
  destruct (Z.eqb_spec (lock vm) 0); [contradiction|].
  destruct (Z.eqb_spec (lock vm) OPEN); [contradiction|].
  change (FINISH =? FINISH) with true. cbv iota. reflexivity.
Qed.

Lemma port_out_select (d sem : Z) (h : H) (vm : guest) :
  lock vm <> 0 -> lock vm <> OPEN -> - 2 ^ 31 <= d < 2 ^ 31 -> d <> 0 ->
  port_out d sem h vm
  = match find_fd (S (size (heap vm))) (heap vm) (file_head vm) d with
    | Found a => Finished sem h (set_current_file (set_kvm_run vm (out_dword d)) (Some a)) tt
    | NotFound => Finished sem h (set_kvm_run vm (out_dword d)) tt
    | Dangling => Crashed UseAfterFree
    | OutOfFuel => Looping
    end.
Proof.
  intros H0' HO Hd Hne. unfold port_out, trap, mbind, gprog_bind, mret, gprog_ret.
  rewrite handle_file_out_dword by exact Hd. cbv zeta.
  destruct (Z.eqb_spec (lock vm) 0); [contradiction|].
  destruct (Z.eqb_spec (lock vm) OPEN); [contradiction|].
  destruct (Z.eqb_spec d FINISH); [contradiction|].
  unfold get_file_descriptor. cbn [heap file_head set_kvm_run].
  destruct (find_fd _ _ _ _); reflexivity.
Qed.

(** *** Dispatch on the data area as the exit left it *)

Lemma data_char_put_char (vm : guest) (c : Z) :
  data_char (kvm_run (put_char vm c)) = byte c.
Proof.
  unfold put_char, data_char. cbn [kvm_run set_kvm_run set_io_data io_data].
  apply byte_over.
Qed.

Lemma handle_file_out_byte_over (h : H) (vm : guest) (held c : Z) :
  handle_file h (set_kvm_run vm (out_byte_over held c))
  = let vm' := set_kvm_run vm (out_byte_over held c) in
    if lock vm =? OPEN then opened_file_op_name h vm' (byte c)
    else if lock vm =? WRITE then write_file h vm' (byte c)
    else Ret h vm' 0.
Proof.
  unfold handle_file.
  cbn [kvm_run set_kvm_run out_byte_over file_io io_direction io_size lock].
  change ((KVM_EXIT_IO_OUT =? KVM_EXIT_IO_OUT) && (1 =? 4)) with false.
  change ((KVM_EXIT_IO_OUT =? KVM_EXIT_IO_OUT) && (1 =? 1)) with true. cbn match.
  change (data_char (out_byte_over held c)) with (byte (held - byte held + byte c)).
  now rewrite byte_over.
Qed.

Lemma handle_file_in_dword_over (h : H) (vm : guest) (held : Z) :
  handle_file h (set_kvm_run vm (in_dword_over held))
  = let vm' := set_kvm_run vm (in_dword_over held) in
    if lock vm =? CLOSE then close_op_status h vm'
    else if lock vm =? OPEN then opened_file_op_send_fd h vm'
    else Ret h vm' 0.
Proof. reflexivity. Qed.

Lemma handle_file_in_byte_over (h : H) (vm : guest) (held : Z) :
  handle_file h (set_kvm_run vm (in_byte_over held))
  = let vm' := set_kvm_run vm (in_byte_over held) in
    if lock vm =? READ then read_file h vm' else Ret h vm' 0.
Proof. reflexivity. Qed.

(** *** One-byte input under READ *)

Lemma port_inb_read (sem : Z) (h : H) (vm : guest) (a : Z) (f : file) :
  lock vm = READ -> current_file vm = Some a -> heap vm !! a = Some f ->
  port_inb sem h vm
  = Finished sem (fst (host_read h (fd f)))
      (put_char (set_kvm_run vm (in_byte_over (io_data (kvm_run vm))))
         (match snd (host_read h (fd f)) with Some c => c | None => EOF end))
      (byte (match snd (host_read h (fd f)) with Some c => c | None => EOF end)).
Proof.
  intros Hl Hc Hh. unfold port_inb, mbind, gprog_bind, mret, gprog_ret.
  set (r := in_byte_over (io_data (kvm_run vm))).
  assert (E : handle_file h (set_kvm_run vm r)
              = Ret (fst (host_read h (fd f)))
                  (put_char (set_kvm_run vm r)
                     (match snd (host_read h (fd f)) with Some c => c | None => EOF end)) 0).
  { unfold r. rewrite handle_file_in_byte_over. cbv zeta. rewrite Hl.
    change (READ =? READ) with true. cbv iota.
    unfold read_file. cbn [current_file set_kvm_run]. rewrite Hc.
    unfold mbind, res_bind.
    rewrite (cur_intro _ a f) by assumption.
    destruct (host_read h (fd f)) as [h1 r1]. reflexivity. }
  rewrite (trap_ret _ _ _ _ _ _ _ E). now rewrite data_char_put_char.
Qed.

Lemma port_inb_read_none (sem : Z) (h : H) (vm : guest) :
  lock vm = READ -> current_file vm = None ->
  port_inb sem h vm
  = Finished sem h (put_char (set_kvm_run vm (in_byte_over (io_data (kvm_run vm)))) EOF)
      (byte EOF).
Proof.
  intros Hl Hc. unfold port_inb, mbind, gprog_bind, mret, gprog_ret.
  set (r := in_byte_over (io_data (kvm_run vm))).
  assert (E : handle_file h (set_kvm_run vm r) = Ret h (put_char (set_kvm_run vm r) EOF) 0).
  { unfold r. rewrite handle_file_in_byte_over. cbv zeta. rewrite Hl.
    change (READ =? READ) with true. cbv iota.
    unfold read_file. cbn [current_file set_kvm_run]. now rewrite Hc. }
  rewrite (trap_ret _ _ _ _ _ _ _ E). now rewrite data_char_put_char.
Qed.

(** ... and outside READ, where the handler leaves the data area alone. *)
Lemma port_inb_ignored (sem : Z) (h : H) (vm : guest) :
  lock vm <> READ ->
  port_inb sem h vm
  = Finished sem h (set_kvm_run vm (in_byte_over (io_data (kvm_run vm))))
      (byte (io_data (kvm_run vm))).
Proof.
  intros Hl. unfold port_inb, mbind, gprog_bind, mret, gprog_ret.
  set (r := in_byte_over (io_data (kvm_run vm))).
  assert (E : handle_file h (set_kvm_run vm r) = Ret h (set_kvm_run vm r) 0).
  { unfold r. rewrite handle_file_in_byte_over. cbv zeta.
    destruct (Z.eqb_spec (lock vm) READ); [contradiction | reflexivity]. }
  now rewrite (trap_ret _ _ _ _ _ _ _ E).
Qed.

(** *** One-byte output under WRITE *)

Lemma port_outb_write (c sem : Z) (h : H) (vm : guest) (a : Z) (f : file) :
  lock vm = WRITE -> current_file vm = Some a -> heap vm !! a = Some f ->
  port_outb c sem h vm
  = Finished sem (host_write h (fd f) (byte c))
      (set_kvm_run vm (out_byte_over (io_data (kvm_run vm)) c)) tt.
Proof.
  intros Hl Hc Hh. unfold port_outb, mbind, gprog_bind, mret, gprog_ret.
  set (r := out_byte_over (io_data (kvm_run vm)) c).
  assert (E : handle_file h (set_kvm_run vm r)
              = Ret (host_write h (fd f) (byte c)) (set_kvm_run vm r) 0).
  { unfold r. rewrite handle_file_out_byte_over. cbv zeta. rewrite Hl.
    change (WRITE =? OPEN) with false. change (WRITE =? WRITE) with true. cbv iota.
    unfold write_file. cbn [current_file set_kvm_run]. rewrite Hc.
    unfold mbind, res_bind. now rewrite (cur_intro _ a f) by assumption. }
  now rewrite (trap_ret _ _ _ _ _ _ _ E).
Qed.

Lemma port_outb_write_none (c sem : Z) (h : H) (vm : guest) :
  lock vm = WRITE -> current_file vm = None ->
  port_outb c sem h vm
  = Finished sem h
      (put_char (set_kvm_run vm (out_byte_over (io_data (kvm_run vm)) c)) EOF) tt.
Proof.
  intros Hl Hc. unfold port_outb, mbind, gprog_bind, mret, gprog_ret.
  set (r := out_byte_over (io_data (kvm_run vm)) c).
  assert (E : handle_file h (set_kvm_run vm r) = Ret h (put_char (set_kvm_run vm r) EOF) 0).
  { unfold r. rewrite handle_file_out_byte_over. cbv zeta. rewrite Hl.
    change (WRITE =? OPEN) with false. change (WRITE =? WRITE) with true. cbv iota.
    unfold write_file. cbn [current_file set_kvm_run]. now rewrite Hc. }
  now rewrite (trap_ret _ _ _ _ _ _ _ E).
Qed.

Lemma port_outb_ignored (c sem : Z) (h : H) (vm : guest) :
  lock vm <> OPEN -> lock vm <> WRITE ->
  port_outb c sem h vm
  = Finished sem h (set_kvm_run vm (out_byte_over (io_data (kvm_run vm)) c)) tt.
Proof.
  intros HO HW. unfold port_outb, mbind, gprog_bind, mret, gprog_ret.
  set (r := out_byte_over (io_data (kvm_run vm)) c).
  assert (E : handle_file h (set_kvm_run vm r) = Ret h (set_kvm_run vm r) 0).
  { unfold r. rewrite handle_file_out_byte_over. cbv zeta.
    destruct (Z.eqb_spec (lock vm) OPEN); [contradiction|].
    destruct (Z.eqb_spec (lock vm) WRITE); [contradiction | reflexivity]. }
  now rewrite (trap_ret _ _ _ _ _ _ _ E).
Qed.

(** *** Four-byte input outside CLOSE and OPEN *)

Lemma port_in_ignored (sem : Z) (h : H) (vm : guest) :
  lock vm <> CLOSE -> lock vm <> OPEN ->
  port_in sem h vm
  = Finished sem h (set_kvm_run vm (in_dword_over (io_data (kvm_run vm))))
      (to_int (io_data (kvm_run vm))).
Proof.
  intros HC HO. unfold port_in, mbind, gprog_bind, mret, gprog_ret.
  set (r := in_dword_over (io_data (kvm_run vm))).
  assert (E : handle_file h (set_kvm_run vm r) = Ret h (set_kvm_run vm r) 0).
  { unfold r. rewrite handle_file_in_dword_over. cbv zeta.
    destruct (Z.eqb_spec (lock vm) CLOSE); [contradiction|].
    destruct (Z.eqb_spec (lock vm) OPEN); [contradiction | reflexivity]. }
  now rewrite (trap_ret _ _ _ _ _ _ _ E).
Qed.

End Traps.
(** ** The guest's file routines: READ and WRITE *)

Lemma find_fd_fd (hp : gmap Z file) (d a : Z) : forall fuel p,
  find_fd fuel hp p d = Found a -> exists f, hp !! a = Some f /\ fd f = d.
Proof.
  induction fuel as [|fuel IH]; intros p; cbn [find_fd]; [discriminate|].
  destruct p as [b|]; [|discriminate].
  destruct (hp !! b) as [f|] eqn:E; [|discriminate].
  destruct (Z.eqb_spec (fd f) d) as [Ed|_]; [|apply IH].
  intros [= <-]. now exists f.
Qed.

Lemma idle_again (vm : guest) (c : option Z) :
  lock vm = 0 -> current_file vm = None ->
  forall op, norm (set_current_file (set_lock (set_current_file (set_lock vm op) c) 0) None)
             = norm vm.
Proof.
  intros Hl Hc op. apply norm_intro; cbn; congruence.
Qed.

Section ReadWrite.
Context {H : Type} `{Host H}.

Lemma port_out_norm (v sem : Z) (h : H) (vm t : guest) :
  norm vm = norm t -> port_out v sem h vm = port_out v sem h t.
Proof.
  intros E. unfold port_out, mbind, gprog_bind. now rewrite (trap_norm _ _ _ vm t E).
Qed.

Lemma read_loop_known (count : nat) : forall sem (h : H) (vm : guest) a f,
  lock vm = READ -> current_file vm = Some a -> heap vm !! a = Some f ->
  exists vm',
    read_loop count sem h vm
    = Finished sem (fst (read_stream count h (fd f))) vm' (snd (read_stream count h (fd f)))
    /\ norm vm' = norm vm.
Proof.
  induction count as [|count IH]; intros sem h vm a f Hl Hc Hh.
  { exists vm. split; reflexivity. }
  cbn [read_loop read_stream]. unfold mbind at 1. unfold gprog_bind.
  rewrite (port_inb_read sem h vm a f Hl Hc Hh).
  destruct (host_read h (fd f)) as [h1 r]. cbn [fst snd].
  destruct r as [c|].
  - destruct (byte c =? byte EOF).
    + eexists. split; reflexivity.
    + destruct (IH sem h1
                  (put_char (set_kvm_run vm (in_byte_over (io_data (kvm_run vm)))) c) a f
                  Hl Hc Hh) as (vm' & E & Hn).
      unfold mbind, gprog_bind. rewrite E.
      destruct (read_stream count h1 (fd f)) as [h2 buf]. cbn [fst snd].
      exists vm'. split; [reflexivity | exact Hn].
  - change (byte EOF =? byte EOF) with true. cbv iota.
    eexists. split; reflexivity.
Qed.

Lemma write_loop_known (buf : list Z) : forall sem (h : H) (vm : guest) a f,
  lock vm = WRITE -> current_file vm = Some a -> heap vm !! a = Some f ->
  exists vm',
    write_loop buf sem h vm
    = Finished sem (write_stream buf h (fd f)) vm' (Z.of_nat (length buf))
    /\ norm vm' = norm vm.
Proof.
  induction buf as [|c buf IH]; intros sem h vm a f Hl Hc Hh.
  { exists vm. split; reflexivity. }
  cbn [write_loop write_stream]. unfold mbind at 1. unfold gprog_bind.
  rewrite (port_outb_write c sem h vm a f Hl Hc Hh).
  destruct (IH sem (host_write h (fd f) (byte c))
              (set_kvm_run vm (out_byte_over (io_data (kvm_run vm)) c)) a f Hl Hc Hh)
    as (vm' & E & Hn).
  unfold mbind, gprog_bind. rewrite E. exists vm'.
  split; [|exact Hn]. unfold mret, gprog_ret. f_equal. cbn [length]. lia.
Qed.

(** X18.  The guest's [read] on a descriptor the engine finds in its list: the
    bytes are those a direct read of the host descriptor gives, up to
    [count], the end of the file or the first byte 0xFF; the permit is back
    and the file state of the guest is as before. *)
Theorem guest_read_streams_host
    (sem : Z) (h : H) (vm : guest) (d a : Z) (count : nat) :
  lock vm = 0 -> current_file vm = None -> 0 < sem ->
  - 2 ^ 31 <= d < 2 ^ 31 -> d <> 0 ->
  find_fd (S (size (heap vm))) (heap vm) (file_head vm) d = Found a ->
  exists vm',
    guest_read d count sem h vm
    = Finished sem (fst (read_stream count h d)) vm' (snd (read_stream count h d))
    /\ norm vm' = norm vm.
Proof.
  intros Hl Hc Hsem Hd Hd0 Hfind.
  destruct (find_fd_fd _ _ _ _ _ Hfind) as (f & Hf & Hfd).
  unfold guest_read. unfold mbind at 1. unfold gprog_bind.
  rewrite port_out_start by (assumption || (unfold READ, OPEN; lia)).
  unfold mbind at 1. unfold gprog_bind.
  rewrite port_out_select by (cbn [lock set_lock]; (assumption || discriminate)).
  cbn [heap file_head set_lock set_kvm_run]. rewrite Hfind.
  unfold mbind at 1. unfold gprog_bind.
  destruct (read_loop_known count (sem - 1) h
              (set_current_file
                 (set_kvm_run (set_lock (set_kvm_run vm (out_dword READ)) READ) (out_dword d))
                 (Some a)) a f) as (vm1 & E & Hn); [reflexivity | reflexivity | exact Hf |].
  rewrite E, Hfd. unfold mbind, gprog_bind.
  rewrite (port_out_norm _ _ _ _ _ Hn).
  rewrite port_out_finish by (cbn; discriminate).
  eexists. split; [unfold mret, gprog_ret; f_equal; lia|].
  apply norm_intro; cbn; congruence.
Qed.

(** X19.  The guest's [write] on such a descriptor: the bytes reach the host
    descriptor one by one, in order, and the count is returned. *)
Theorem guest_write_streams_host
    (sem : Z) (h : H) (vm : guest) (d a : Z) (buf : list Z) :
  lock vm = 0 -> current_file vm = None -> 0 < sem ->
  - 2 ^ 31 <= d < 2 ^ 31 -> d <> 0 ->
  find_fd (S (size (heap vm))) (heap vm) (file_head vm) d = Found a ->
  exists vm',
    guest_write d buf sem h vm
    = Finished sem (write_stream buf h d) vm' (Z.of_nat (length buf))
    /\ norm vm' = norm vm.
Proof.
  intros Hl Hc Hsem Hd Hd0 Hfind.
  destruct (find_fd_fd _ _ _ _ _ Hfind) as (f & Hf & Hfd).
  unfold guest_write. unfold mbind at 1. unfold gprog_bind.
  rewrite port_out_start by (assumption || (unfold WRITE, OPEN; lia)).
  unfold mbind at 1. unfold gprog_bind.
  rewrite port_out_select by (cbn [lock set_lock]; (assumption || discriminate)).
  cbn [heap file_head set_lock set_kvm_run]. rewrite Hfind.
  unfold mbind at 1. unfold gprog_bind.
  destruct (write_loop_known buf (sem - 1) h
              (set_current_file
                 (set_kvm_run (set_lock (set_kvm_run vm (out_dword WRITE)) WRITE) (out_dword d))
                 (Some a)) a f) as (vm1 & E & Hn); [reflexivity | reflexivity | exact Hf |].
  rewrite E, Hfd. unfold mbind, gprog_bind.
  rewrite (port_out_norm _ _ _ _ _ Hn).
  rewrite port_out_finish by (cbn; discriminate).
  eexists. split; [unfold mret, gprog_ret; f_equal; lia|].
  apply norm_intro; cbn; congruence.
Qed.

End ReadWrite.
(** ** The guest's file routines: CLOSE *)

Lemma store_slot_keeps_fd (vm vm' : guest) p v :
  store_slot vm p v = Ok vm' -> forall x, fd <$> heap vm' !! x = fd <$> heap vm !! x.
Proof.
  destruct p as [|b]; cbn.
  - intros [= <-] x. reflexivity.
  - destruct (heap vm !! b) as [fb|] eqn:Hb; [|discriminate]. intros [= <-] x. cbn.
    destruct (decide (b = x)) as [->|Hne].
    + now rewrite lookup_insert_eq, Hb.
    + now rewrite lookup_insert_ne.
Qed.

Lemma unlink_keeps_fd fuel : forall (vm vm' : guest) p,
  unlink fuel vm p = Found vm' -> forall x, fd <$> heap vm' !! x = fd <$> heap vm !! x.
Proof.
  induction fuel as [|fuel IH]; intros vm vm' p; cbn [unlink]; [discriminate|].
  destruct (load_slot vm p) as [[a|]|]; try discriminate.
  destruct (decide (Some a = current_file vm)); [|apply IH].
  destruct (heap vm !! a) as [f|]; [|discriminate].
  destruct (store_slot vm p (next f)) as [vm1|] eqn:E; [|discriminate].
  intros [= <-]. eapply store_slot_keeps_fd, E.
Qed.

(** With no [current_file] the walk of [close_op_status] goes to the end of
    the list and changes nothing. *)
Lemma unlink_no_current (l : list Z) : forall fuel (vm : guest) (s : slot) p,
  current_file vm = None -> load_slot vm s = Ok p -> chain (heap vm) p l ->
  (length l < fuel)%nat -> unlink fuel vm s = NotFound.
Proof.
  induction l as [|c l IH]; intros fuel vm s p Hcur Hload Hc Hfuel;
    (destruct fuel as [|fuel]; [cbn in Hfuel; lia|]); cbn [unlink]; rewrite Hload.
  - apply chain_nil_inv in Hc. now subst p.
  - inversion Hc as [|c' fc l' Hcf Hnot Hrest]; subst. rewrite Hcur.
    destruct (decide (Some c = None)); [discriminate|].
    apply (IH fuel vm (next_slot c) (next fc)); try assumption.
    + cbn. now rewrite Hcf.
    + cbn [length] in Hfuel. lia.
Qed.

Section Preserve.
Context {H : Type} `{Host H}.

Lemma keeps_ok_ret {A} (a : A) : keeps_ok (H := H) (mret a).
Proof. intros sem h vm sem' h' vm' v Hok [= _ _ <- _]. exact Hok. Qed.

Lemma keeps_ok_bind {A B} (m : gprog H A) (f : A -> gprog H B) :
  keeps_ok m -> (forall a, keeps_ok (f a)) -> keeps_ok (m ≫= f).
Proof.
  intros Hm Hf sem h vm sem' h' vm' v Hok. unfold mbind, gprog_bind.
  destruct (m sem h vm) as [s1 h1 g1 a1| | |] eqn:E; try discriminate.
  intros E2. eapply Hf; [eapply Hm; [exact Hok | exact E] | exact E2].
Qed.

Lemma keeps_ok_trap (r : run_region) : keeps_ok (trap r).
Proof.
  intros sem h vm sem' h' vm' v Hok. unfold trap.
  destruct (exec sem (handle_file h (set_kvm_run vm r))) as [s1 h1 g1 a1| | |] eqn:E;
    try discriminate.
  intros [= _ _ <- _].
  eapply handle_file_ok; [|eapply exec_completes, E].
  eapply guest_ok_frame; [apply same_frame_kvm_run | exact Hok].
Qed.

Lemma keeps_ok_port_out (v : Z) : keeps_ok (port_out v).
Proof. apply keeps_ok_bind; [apply keeps_ok_trap | intros; apply keeps_ok_ret]. Qed.

Lemma keeps_ok_port_outb (v : Z) : keeps_ok (port_outb v).
Proof.
  intros sem h vm sem' h' vm' x Hok. unfold port_outb.
  apply (keeps_ok_bind (trap (out_byte_over (io_data (kvm_run vm)) v)) (fun _ => mret tt));
    [apply keeps_ok_trap | intros; apply keeps_ok_ret | exact Hok].
Qed.

Lemma keeps_ok_port_in : keeps_ok port_in.
Proof.
  intros sem h vm sem' h' vm' x Hok. unfold port_in.
  apply (keeps_ok_bind (trap (in_dword_over (io_data (kvm_run vm))))
           (fun vm' => mret (data_int (kvm_run vm'))));
    [apply keeps_ok_trap | intros; apply keeps_ok_ret | exact Hok].
Qed.

Lemma keeps_ok_port_inb : keeps_ok port_inb.
Proof.
  intros sem h vm sem' h' vm' x Hok. unfold port_inb.
  apply (keeps_ok_bind (trap (in_byte_over (io_data (kvm_run vm))))
           (fun vm' => mret (data_char (kvm_run vm'))));
    [apply keeps_ok_trap | intros; apply keeps_ok_ret | exact Hok].
Qed.

Lemma keeps_ok_send_chars (name : list Z) : keeps_ok (send_chars name).
Proof.
  induction name as [|c name IH]; cbn [send_chars]; [apply keeps_ok_ret|].
  destruct (byte c =? 0); [apply keeps_ok_ret|].
  apply keeps_ok_bind; [apply keeps_ok_port_outb | intros; exact IH].
Qed.

Lemma keeps_ok_read_loop (count : nat) : keeps_ok (read_loop count).
Proof.
  induction count as [|count IH]; cbn [read_loop]; [apply keeps_ok_ret|].
  apply keeps_ok_bind; [apply keeps_ok_port_inb|]. intros c.
  destruct (c =? byte EOF); [apply keeps_ok_ret|].
  apply keeps_ok_bind; [exact IH | intros; apply keeps_ok_ret].
Qed.

Lemma keeps_ok_write_loop (buf : list Z) : keeps_ok (write_loop buf).
Proof.
  induction buf as [|c buf IH]; cbn [write_loop]; [apply keeps_ok_ret|].
  apply keeps_ok_bind; [apply keeps_ok_port_outb|]. intros _.
  apply keeps_ok_bind; [exact IH | intros; apply keeps_ok_ret].
Qed.

Ltac keeps_ok_steps :=
  repeat (first [ apply keeps_ok_ret | apply keeps_ok_port_out | apply keeps_ok_port_outb
                | apply keeps_ok_port_in | apply keeps_ok_port_inb
                | apply keeps_ok_send_chars | apply keeps_ok_read_loop
                | apply keeps_ok_write_loop
                | apply keeps_ok_bind; [|intros ?] ]).

Lemma keeps_ok_guest_open (name : list Z) (flags mode : Z) :
  keeps_ok (guest_open name flags mode).
Proof. unfold guest_open. keeps_ok_steps. Qed.

Lemma keeps_ok_guest_close (d : Z) : keeps_ok (guest_close d).
Proof. unfold guest_close. keeps_ok_steps. Qed.

Lemma keeps_ok_guest_read (d : Z) (count : nat) : keeps_ok (guest_read d count).
Proof. unfold guest_read. keeps_ok_steps. Qed.

Lemma keeps_ok_guest_write (d : Z) (buf : list Z) : keeps_ok (guest_write d buf).
Proof. unfold guest_write. keeps_ok_steps. Qed.

(** X24.  The four file routines of the guest library leave the list of open
    files of their guest well formed whenever they return, whatever the
    arguments and whatever the host answers. *)
Theorem guest_routines_keep_list_well_formed (vm : guest) :
  guest_ok vm ->
  forall (sem : Z) (h : H) (sem' : Z) (h' : H) (vm' : guest),
    (forall name flags mode v,
        guest_open name flags mode sem h vm = Finished sem' h' vm' v -> guest_ok vm')
    /\ (forall d v, guest_close d sem h vm = Finished sem' h' vm' v -> guest_ok vm')
    /\ (forall d count v, guest_read d count sem h vm = Finished sem' h' vm' v -> guest_ok vm')
    /\ (forall d buf v, guest_write d buf sem h vm = Finished sem' h' vm' v -> guest_ok vm').
Proof.
  intros Hok sem h sem' h' vm'. repeat split.
  - intros name flags mode v E. exact (keeps_ok_guest_open _ _ _ _ _ _ _ _ _ _ Hok E).
  - intros d v E. exact (keeps_ok_guest_close _ _ _ _ _ _ _ _ Hok E).
  - intros d count v E. exact (keeps_ok_guest_read _ _ _ _ _ _ _ _ _ Hok E).
  - intros d buf v E. exact (keeps_ok_guest_write _ _ _ _ _ _ _ _ _ Hok E).
Qed.

(** *** CLOSE of a descriptor in the list *)

Lemma port_in_close (sem : Z) (h : H) (vm : guest) (l : list Z) (a : Z) (f : file) :
  lock vm = CLOSE -> current_file vm = Some a -> heap vm !! a = Some f ->
  chain (heap vm) (file_head vm) l -> a ∈ l ->
  exists vm',
    port_in sem h vm
    = Finished sem (fst (host_close h (fd f))) vm' (to_int (u32 (snd (host_close h (fd f)))))
    /\ lock vm' = CLOSE /\ current_file vm' = Some a
    /\ file_indirect vm' = file_indirect vm /\ heap_next vm' = heap_next vm
    /\ id vm' = id vm
    /\ chain (heap vm') (file_head vm') (filter (fun x => x <> a) l)
    /\ heap vm' !! a = None
    /\ (forall x, x <> a -> fd <$> heap vm' !! x = fd <$> heap vm !! x).
Proof.
  intros Hl Hc Hf Hch Hal.
  unfold port_in, trap, mbind, gprog_bind, mret, gprog_ret.
  set (r := in_dword_over (io_data (kvm_run vm))).
  unfold r at 1. rewrite handle_file_in_dword_over. fold r. cbv zeta. rewrite Hl.
  change (CLOSE =? CLOSE) with true. cbv iota.
  unfold close_op_status. cbn [current_file set_kvm_run]. rewrite Hc.
  unfold mbind, res_bind. rewrite (cur_intro (set_kvm_run vm r) a f Hc Hf).
  destruct (host_close h (fd f)) as [h1 st]. cbn [fst snd].
  assert (Hlen : (length l < S (size (heap vm)))%nat)
    by (pose proof (chain_length _ _ _ Hch); lia).
  destruct (unlink_spec a f l (S (size (heap vm))) (set_kvm_run vm r) head_slot
              (file_head vm) Hc Hf eq_refl Hch Hal Hlen I)
    as (vm1 & p1 & Hu & Hl1 & Hc1 & Hsame & Hsome & _).
  cbn [heap set_kvm_run]. rewrite Hu.
  destruct (unlink_fields _ _ _ _ Hu) as (U1 & U2 & U3 & U4 & U5 & _).
  pose proof (unlink_keeps_fd _ _ _ _ Hu) as Ufd.
  cbn [lock current_file file_indirect heap_next id heap set_kvm_run] in U1, U2, U3, U4, U5, Ufd.
  rewrite U2, Hc. cbn [free].
  destruct (heap vm1 !! a) as [fa1|] eqn:Ha1;
    [|exfalso; destruct (proj2 (Hsome a) (ex_intro _ f Hf)); congruence].
  cbn [exec]. eexists. split; [reflexivity|].
  cbn in Hl1. injection Hl1 as Hl1.
  unfold put_int.
  cbn [lock current_file file_indirect heap_next id heap file_head set_heap set_kvm_run].
  repeat split; try congruence.
  - rewrite Hl1. apply chain_delete_outside; [|exact Hc1].
    intros Hx. apply list_elem_of_filter in Hx. destruct Hx as [Hx _]. now apply Hx.
  - apply lookup_delete_eq.
  - intros x Hx. rewrite lookup_delete_ne by congruence. apply Ufd.
Qed.

(** X17.  The guest's [close] of a descriptor the engine finds in its list, at
    record [a]: the host descriptor is closed and the status of that call
    returned; the record is taken out of the list and freed, the other
    records keep their order and descriptors; the permit is back.
    [file_indirect] is left as it was. *)
Theorem guest_close_removes_record
    (sem : Z) (h : H) (vm : guest) (d a : Z) :
  guest_ok vm -> lock vm = 0 -> 0 < sem ->
  - 2 ^ 31 <= d < 2 ^ 31 -> d <> 0 ->
  find_fd (S (size (heap vm))) (heap vm) (file_head vm) d = Found a ->
  exists vm',
    guest_close d sem h vm
    = Finished sem (fst (host_close h d)) vm' (to_int (u32 (snd (host_close h d))))
    /\ lock vm' = 0 /\ current_file vm' = None
    /\ files vm' = filter (fun x => x <> a) (files vm)
    /\ heap vm' !! a = None
    /\ (forall x, x <> a -> fd <$> heap vm' !! x = fd <$> heap vm !! x)
    /\ file_indirect vm' = file_indirect vm /\ heap_next vm' = heap_next vm
    /\ guest_ok vm'.
Proof.
  intros Hok Hl Hsem Hd Hd0 Hfind.
  destruct (find_fd_fd _ _ _ _ _ Hfind) as (f & Hf & Hfd).
  pose proof Hok as (l & (Hch & _) & _).
  pose proof (find_fd_found _ _ _ _ _ _ Hch Hfind) as Hal.
  assert (Erun : exists vm',
    guest_close d sem h vm
    = Finished sem (fst (host_close h d)) vm' (to_int (u32 (snd (host_close h d))))
    /\ lock vm' = 0 /\ current_file vm' = None
    /\ files vm' = filter (fun x => x <> a) (files vm)
    /\ heap vm' !! a = None
    /\ (forall x, x <> a -> fd <$> heap vm' !! x = fd <$> heap vm !! x)
    /\ file_indirect vm' = file_indirect vm /\ heap_next vm' = heap_next vm).
  { unfold guest_close. unfold mbind at 1. unfold gprog_bind.
    rewrite port_out_start by (assumption || (unfold CLOSE, OPEN; lia)).
    unfold mbind at 1. unfold gprog_bind.
    rewrite port_out_select by (cbn [lock set_lock]; (assumption || discriminate)).
    cbn [heap file_head set_lock set_kvm_run]. rewrite Hfind.
    unfold mbind at 1. unfold gprog_bind.
    destruct (port_in_close (sem - 1) h
                (set_current_file
                   (set_kvm_run (set_lock (set_kvm_run vm (out_dword CLOSE)) CLOSE)
                      (out_dword d)) (Some a)) l a f eq_refl eq_refl Hf Hch Hal)
      as (vm1 & E & L1 & C1 & I1 & N1 & _ & Ch1 & Ha1 & Fd1).
    rewrite E. unfold mbind, gprog_bind.
    rewrite port_out_finish by (rewrite L1; discriminate).
    unfold mret, gprog_ret.
    exists (set_current_file (set_lock (set_kvm_run vm1 (out_dword FINISH)) 0) None).
    rewrite Hfd. split; [f_equal; lia|].
    cbn [lock current_file file_indirect heap_next heap set_current_file set_lock set_kvm_run].
    repeat split; try assumption.
    rewrite (files_chain vm l Hch). apply files_chain. exact Ch1. }
  destruct Erun as (vm' & E & R). exists vm'. split; [exact E|].
  repeat (split; [apply R|]). exact (keeps_ok_guest_close _ _ _ _ _ _ _ _ Hok E).
Qed.

End Preserve.
(** ** The guest's file routines: descriptors the engine does not know *)

Section Unknown.
Context {H : Type} `{Host H}.

Lemma port_in_close_none (sem : Z) (h : H) (vm : guest) (l : list Z) :
  lock vm = CLOSE -> current_file vm = None ->
  chain (heap vm) (file_head vm) l ->
  port_in sem h vm
  = Finished sem h (put_int (set_kvm_run vm (in_dword_over (io_data (kvm_run vm)))) (-1)) (-1).
Proof.
  intros Hl Hc Hch.
  unfold port_in, trap, mbind, gprog_bind, mret, gprog_ret.
  set (r := in_dword_over (io_data (kvm_run vm))).
  unfold r at 1. rewrite handle_file_in_dword_over. fold r. cbv zeta. rewrite Hl.
  change (CLOSE =? CLOSE) with true. cbv iota.
  unfold close_op_status. cbn [current_file set_kvm_run]. rewrite Hc.
  assert (Hlen : (length l < S (size (heap vm)))%nat)
    by (pose proof (chain_length _ _ _ Hch); lia).
  cbn [heap set_kvm_run].
  rewrite (unlink_no_current l (S (size (heap vm))) (set_kvm_run vm r) head_slot
             (file_head vm) Hc eq_refl Hch Hlen).
  cbn [free current_file set_kvm_run exec]. reflexivity.
Qed.

Lemma read_loop_none (count : nat) (sem : Z) (h : H) (vm : guest) :
  lock vm = READ -> current_file vm = None ->
  exists vm', read_loop count sem h vm = Finished sem h vm' [] /\ norm vm' = norm vm.
Proof.
  intros Hl Hc. destruct count as [|count]; [exists vm; split; reflexivity|].
  cbn [read_loop]. unfold mbind, gprog_bind.
  rewrite (port_inb_read_none sem h vm Hl Hc).
  change (byte EOF =? byte EOF) with true. cbv iota.
  eexists. split; reflexivity.
Qed.

Lemma write_loop_none (buf : list Z) : forall (sem : Z) (h : H) (vm : guest),
  lock vm = WRITE -> current_file vm = None ->
  exists vm',
    write_loop buf sem h vm = Finished sem h vm' (Z.of_nat (length buf))
    /\ norm vm' = norm vm.
Proof.
  induction buf as [|c buf IH]; intros sem h vm Hl Hc; [exists vm; split; reflexivity|].
  cbn [write_loop]. unfold mbind at 1. unfold gprog_bind.
  rewrite (port_outb_write_none c sem h vm Hl Hc).
  destruct (IH sem h (put_char (set_kvm_run vm (out_byte_over (io_data (kvm_run vm)) c)) EOF)
              Hl Hc) as (vm' & E & Hn).
  unfold mbind, gprog_bind. rewrite E. exists vm'.
  split; [|exact Hn]. unfold mret, gprog_ret. f_equal. cbn [length]. lia.
Qed.

(** X20.  A descriptor that is in no record of the list: [close] returns -1,
    [read] returns no byte and [write] returns the full count although
    nothing was written.  In all three cases the host is not called, the
    permit is back and the file state of the guest is as before. *)
Theorem unknown_descriptor_reaches_no_file
    (sem : Z) (h : H) (vm : guest) (d : Z) (count : nat) (buf : list Z) :
  guest_ok vm -> lock vm = 0 -> 0 < sem ->
  - 2 ^ 31 <= d < 2 ^ 31 -> d <> 0 ->
  find_fd (S (size (heap vm))) (heap vm) (file_head vm) d = NotFound ->
  exists vm1 vm2 vm3,
    guest_close d sem h vm = Finished sem h vm1 (-1)
    /\ guest_read d count sem h vm = Finished sem h vm2 []
    /\ guest_write d buf sem h vm = Finished sem h vm3 (Z.of_nat (length buf))
    /\ norm vm1 = norm vm /\ norm vm2 = norm vm /\ norm vm3 = norm vm.
Proof.
  intros Hok Hl Hsem Hd Hd0 Hfind.
  destruct Hok as (l & (Hch & _) & (C0 & _)). pose proof (C0 Hl) as Hc.
  assert (Eclose : exists vm1,
             guest_close d sem h vm = Finished sem h vm1 (-1) /\ norm vm1 = norm vm).
  { unfold guest_close. unfold mbind at 1. unfold gprog_bind.
    rewrite port_out_start by (assumption || (unfold CLOSE, OPEN; lia)).
    unfold mbind at 1. unfold gprog_bind.
    rewrite port_out_select by (cbn [lock set_lock]; (assumption || discriminate)).
    cbn [heap file_head set_lock set_kvm_run]. rewrite Hfind.
    unfold mbind at 1. unfold gprog_bind.
    rewrite (port_in_close_none (sem - 1) h _ l) by (exact Hc || exact Hch || reflexivity).
    unfold mbind, gprog_bind.
    rewrite port_out_finish by (cbn; discriminate).
    eexists. split; [unfold mret, gprog_ret; f_equal; lia|].
    apply norm_intro; cbn; congruence. }
  assert (Eread : exists vm2,
             guest_read d count sem h vm = Finished sem h vm2 [] /\ norm vm2 = norm vm).
  { unfold guest_read. unfold mbind at 1. unfold gprog_bind.
    rewrite port_out_start by (assumption || (unfold READ, OPEN; lia)).
    unfold mbind at 1. unfold gprog_bind.
    rewrite port_out_select by (cbn [lock set_lock]; (assumption || discriminate)).
    cbn [heap file_head set_lock set_kvm_run]. rewrite Hfind.
    unfold mbind at 1. unfold gprog_bind.
    destruct (read_loop_none count (sem - 1) h
                (set_kvm_run (set_lock (set_kvm_run vm (out_dword READ)) READ) (out_dword d))
                eq_refl Hc) as (vm2 & E & Hn).
    rewrite E. unfold mbind, gprog_bind.
    rewrite (port_out_norm _ _ _ _ _ Hn).
    rewrite port_out_finish by (cbn; discriminate).
    eexists. split; [unfold mret, gprog_ret; f_equal; lia|].
    apply norm_intro; cbn; congruence. }
  assert (Ewrite : exists vm3,
             guest_write d buf sem h vm = Finished sem h vm3 (Z.of_nat (length buf))
             /\ norm vm3 = norm vm).
  { unfold guest_write. unfold mbind at 1. unfold gprog_bind.
    rewrite port_out_start by (assumption || (unfold WRITE, OPEN; lia)).
    unfold mbind at 1. unfold gprog_bind.
    rewrite port_out_select by (cbn [lock set_lock]; (assumption || discriminate)).
    cbn [heap file_head set_lock set_kvm_run]. rewrite Hfind.
    unfold mbind at 1. unfold gprog_bind.
    destruct (write_loop_none buf (sem - 1) h
                (set_kvm_run (set_lock (set_kvm_run vm (out_dword WRITE)) WRITE) (out_dword d))
                eq_refl Hc) as (vm3 & E & Hn).
    rewrite E. unfold mbind, gprog_bind.
    rewrite (port_out_norm _ _ _ _ _ Hn).
    rewrite port_out_finish by (cbn; discriminate).
    eexists. split; [unfold mret, gprog_ret; f_equal; lia|].
    apply norm_intro; cbn; congruence. }
  destruct Eclose as (vm1 & E1 & N1), Eread as (vm2 & E2 & N2), Ewrite as (vm3 & E3 & N3).
  exists vm1, vm2, vm3. now repeat split.
Qed.

(** *** Descriptor 0

    The engine reads a dword 0 as FINISH even where the guest library sends
    it as a descriptor. *)

Lemma read_loop_idle (count : nat) : forall (sem : Z) (h : H) (vm : guest),
  lock vm = 0 -> io_data (kvm_run vm) = 0 ->
  exists vm',
    read_loop count sem h vm = Finished sem h vm' (replicate count 0)
    /\ norm vm' = norm vm.
Proof.
  induction count as [|count IH]; intros sem h vm Hl Hd; [exists vm; split; reflexivity|].
  cbn [read_loop replicate]. unfold mbind at 1. unfold gprog_bind.
  rewrite port_inb_ignored by (rewrite Hl; discriminate).
  rewrite Hd. change (byte 0 =? byte EOF) with false. cbv iota.
  destruct (IH sem h (set_kvm_run vm (in_byte_over 0)) Hl eq_refl) as (vm' & E & Hn).
  unfold mbind, gprog_bind. rewrite E. exists vm'. split; [reflexivity | exact Hn].
Qed.

Lemma write_loop_idle (buf : list Z) : forall (sem : Z) (h : H) (vm : guest),
  lock vm = 0 ->
  exists vm',
    write_loop buf sem h vm = Finished sem h vm' (Z.of_nat (length buf))
    /\ norm vm' = norm vm.
Proof.
  induction buf as [|c buf IH]; intros sem h vm Hl; [exists vm; split; reflexivity|].
  cbn [write_loop]. unfold mbind at 1. unfold gprog_bind.
  rewrite port_outb_ignored by (rewrite Hl; discriminate).
  destruct (IH sem h (set_kvm_run vm (out_byte_over (io_data (kvm_run vm)) c)) Hl)
    as (vm' & E & Hn).
  unfold mbind, gprog_bind. rewrite E. exists vm'.
  split; [|exact Hn]. unfold mret, gprog_ret. f_equal. cbn [length]. lia.
Qed.

(** X21.  With descriptor 0 the operation ends at once, the data phase runs in
    the idle state ([close] returns the stale data word, [read] fills the
    buffer with stale bytes, [write] drops the bytes), and the dword FINISH
    that follows starts an operation 0: it takes the permit and leaves the
    lock IDLE.  The host is not called and the permit is not given back. *)
Theorem descriptor_zero_loses_permit
    (sem : Z) (h : H) (vm : guest) (count : nat) (buf : list Z) :
  lock vm = 0 -> current_file vm = None -> 0 < sem ->
  exists vm1 vm2 vm3,
    guest_close 0 sem h vm = Finished (sem - 1) h vm1 0
    /\ guest_read 0 count sem h vm = Finished (sem - 1) h vm2 (replicate count 0)
    /\ guest_write 0 buf sem h vm = Finished (sem - 1) h vm3 (Z.of_nat (length buf))
    /\ norm vm1 = norm vm /\ norm vm2 = norm vm /\ norm vm3 = norm vm.
Proof.
  intros Hl Hc Hsem.
  assert (Eclose : exists vm1,
             guest_close 0 sem h vm = Finished (sem - 1) h vm1 0 /\ norm vm1 = norm vm).
  { unfold guest_close. unfold mbind at 1. unfold gprog_bind.
    rewrite port_out_start by (assumption || (unfold CLOSE, OPEN; lia)).
    unfold mbind at 1. unfold gprog_bind.
    rewrite (port_out_finish (sem - 1)) by (cbn; discriminate).
    unfold mbind at 1. unfold gprog_bind.
    rewrite port_in_ignored by (cbn; discriminate).
    unfold mbind, gprog_bind.
    rewrite (port_out_start FINISH) by (reflexivity || lia || (unfold FINISH, OPEN; lia)).
    eexists. split; [unfold mret, gprog_ret; f_equal; lia|].
    apply norm_intro; cbn; unfold FINISH; congruence. }
  assert (Eread : exists vm2,
             guest_read 0 count sem h vm = Finished (sem - 1) h vm2 (replicate count 0)
             /\ norm vm2 = norm vm).
  { unfold guest_read. unfold mbind at 1. unfold gprog_bind.
    rewrite port_out_start by (assumption || (unfold READ, OPEN; lia)).
    unfold mbind at 1. unfold gprog_bind.
    rewrite (port_out_finish (sem - 1)) by (cbn; discriminate).
    unfold mbind at 1. unfold gprog_bind.
    destruct (read_loop_idle count (sem - 1 + 1) h
                (set_current_file
                   (set_lock
                      (set_kvm_run (set_lock (set_kvm_run vm (out_dword READ)) READ)
                         (out_dword FINISH)) 0) None) eq_refl eq_refl) as (vm2 & E & Hn).
    rewrite E. unfold mbind, gprog_bind.
    rewrite (port_out_norm _ _ _ _ _ Hn).
    rewrite (port_out_start FINISH) by (reflexivity || lia || (unfold FINISH, OPEN; lia)).
    eexists. split; [unfold mret, gprog_ret; f_equal; lia|].
    apply norm_intro; cbn; unfold FINISH; congruence. }
  assert (Ewrite : exists vm3,
             guest_write 0 buf sem h vm = Finished (sem - 1) h vm3 (Z.of_nat (length buf))
             /\ norm vm3 = norm vm).
  { unfold guest_write. unfold mbind at 1. unfold gprog_bind.
    rewrite port_out_start by (assumption || (unfold WRITE, OPEN; lia)).
    unfold mbind at 1. unfold gprog_bind.
    rewrite (port_out_finish (sem - 1)) by (cbn; discriminate).
    unfold mbind at 1. unfold gprog_bind.
    destruct (write_loop_idle buf (sem - 1 + 1) h
                (set_current_file
                   (set_lock
                      (set_kvm_run (set_lock (set_kvm_run vm (out_dword WRITE)) WRITE)
                         (out_dword FINISH)) 0) None) eq_refl) as (vm3 & E & Hn).
    rewrite E. unfold mbind, gprog_bind.
    rewrite (port_out_norm _ _ _ _ _ Hn).
    rewrite (port_out_start FINISH) by (reflexivity || lia || (unfold FINISH, OPEN; lia)).
    eexists. split; [unfold mret, gprog_ret; f_equal; lia|].
    apply norm_intro; cbn; unfold FINISH; congruence. }
  destruct Eclose as (vm1 & E1 & N1), Eread as (vm2 & E2 & N2), Ewrite as (vm3 & E3 & N3).
  exists vm1, vm2, vm3. now repeat split.
Qed.

(** X22.  Once the permit is gone, the first trap of any file routine waits for
    it for ever: with the single permit of [file_mutex], [close(0)]
    followed by any routine of the library never returns. *)
Theorem file_routine_blocks_without_permit
    (sem : Z) (h : H) (vm : guest)
    (name buf : list Z) (flags mode d : Z) (count : nat) :
  lock vm = 0 -> sem <= 0 ->
  guest_open name flags mode sem h vm = Blocked h (set_kvm_run vm (out_dword OPEN))
  /\ guest_close d sem h vm = Blocked h (set_kvm_run vm (out_dword CLOSE))
  /\ guest_read d count sem h vm = Blocked h (set_kvm_run vm (out_dword READ))
  /\ guest_write d buf sem h vm = Blocked h (set_kvm_run vm (out_dword WRITE)).
Proof.
  intros Hl Hsem.
  unfold guest_open, guest_close, guest_read, guest_write.
  repeat split; unfold mbind at 1; unfold gprog_bind;
    rewrite port_out_blocked by (assumption || (unfold OPEN, CLOSE, READ, WRITE; lia));
    reflexivity.
Qed.

End Unknown.
(** ** The guest's file routines: OPEN *)

Lemma only_record_refl (a : Z) (vm : guest) : only_record a vm vm.
Proof. now repeat split. Qed.

Lemma only_record_trans (a : Z) (vm1 vm2 vm3 : guest) :
  only_record a vm1 vm2 -> only_record a vm2 vm3 -> only_record a vm1 vm3.
Proof.
  intros (A1 & A2 & A3 & A4 & A5 & A6) (B1 & B2 & B3 & B4 & B5 & B6).
  repeat split; try congruence.
  intros x Hx. rewrite B5 by exact Hx. now apply A5.
Qed.

Lemma only_record_update (a : Z) (vm : guest) (r : run_region) (f f' : file) :
  heap vm !! a = Some f -> next f' = next f ->
  only_record a vm (set_heap (set_kvm_run vm r) (<[a := f']> (heap vm))).
Proof.
  intros Hf Hn. repeat split; cbn [heap set_heap set_kvm_run].
  - intros x Hx. now rewrite lookup_insert_ne by congruence.
  - rewrite lookup_insert_eq, Hf. cbn. now rewrite Hn.
Qed.

Lemma only_record_chain (a : Z) (vm vm' : guest) (l : list Z) :
  only_record a vm vm' ->
  chain (heap vm) (file_head vm) l -> chain (heap vm') (file_head vm') l.
Proof.
  intros (A1 & _ & _ & _ & A5 & A6) Hc. rewrite A1.
  eapply chain_same_links; [|exact Hc].
  intros x _. destruct (decide (x = a)) as [->|Hx]; [exact A6|]. now rewrite A5.
Qed.

Section OpenRoutine.
Context {H : Type} `{Host H}.

(** The start of an OPEN in any well-formed idle state whose
    [file_indirect] is the tail slot. *)
Lemma port_out_open (sem : Z) (h : H) (vm : guest) (l : list Z) :
  lock vm = 0 -> 0 < sem -> files_ok vm l -> file_indirect vm = tail_slot l ->
  exists vm1,
    port_out OPEN sem h vm = Finished (sem - 1) h vm1 tt
    /\ lock vm1 = OPEN /\ current_file vm1 = Some (heap_next vm)
    /\ heap vm1 !! heap_next vm = Some init_file
    /\ id vm1 = id vm /\ file_indirect vm1 = next_slot (heap_next vm)
    /\ heap_next vm1 = heap_next vm + 1
    /\ chain (heap vm1) (file_head vm1) (l ++ [heap_next vm])
    /\ (forall x, x <> heap_next vm -> fd <$> heap vm1 !! x = fd <$> heap vm !! x)
    /\ (forall x, is_Some (heap vm1 !! x) -> x ∈ l ++ [heap_next vm]).
Proof.
  intros Hl Hsem (Hc & Hlive & Hfresh & _) Hind.
  set (a := heap_next vm).
  assert (Hnew : heap vm !! a = None).
  { destruct (heap vm !! a) eqn:E; [|reflexivity].
    assert (a < a) by (apply Hfresh, Hlive; eauto). lia. }
  assert (Hal : a ∉ l).
  { intros Hin. assert (a < a) by now apply Hfresh. lia. }
  unfold port_out, trap, mbind, gprog_bind, mret, gprog_ret.
  rewrite handle_file_out_dword by (unfold OPEN; lia). cbv zeta. rewrite Hl.
  change (0 =? 0) with true. cbv iota.
  unfold start_file_operation. cbn [exec].
  destruct (Z.ltb_spec 0 sem); [|lia].
  change (OPEN =? OPEN) with true. cbv iota zeta.
  cbn [file_indirect set_heap_next set_heap set_lock set_kvm_run heap heap_next].
  fold a. rewrite Hind. unfold tail_slot.
  destruct (last l) as [b|] eqn:El.
  - apply last_Some in El. destruct El as [l0 ->].
    assert (Hbl : b ∈ l0 ++ [b]) by (apply elem_of_app; right; apply list_elem_of_here).
    destruct (chain_live _ _ _ b Hc Hbl) as [fb Hfb].
    assert (Hba : b <> a) by (intros ->; contradiction).
    cbn [store_slot heap set_heap_next set_heap set_lock set_kvm_run].
    rewrite lookup_insert_ne by congruence. rewrite Hfb. cbn [exec].
    eexists. split; [reflexivity|].
    cbn [lock current_file heap id file_indirect heap_next file_head
         set_current_file set_file_indirect set_heap set_heap_next set_lock set_kvm_run].
    split; [reflexivity|]. split; [reflexivity|].
    split; [rewrite lookup_insert_ne by congruence; apply lookup_insert_eq|].
    split; [reflexivity|]. split; [reflexivity|]. split; [reflexivity|].
    split; [|split].
    + rewrite <- app_assoc. cbn [app]. now apply chain_append.
    + intros x Hx. destruct (decide (b = x)) as [->|Hbx].
      * now rewrite lookup_insert_eq, Hfb.
      * rewrite lookup_insert_ne by assumption. now rewrite lookup_insert_ne by congruence.
    + intros x Hx. destruct (decide (b = x)) as [->|Hbx].
      { apply elem_of_app. now left. }
      rewrite lookup_insert_ne in Hx by assumption.
      destruct (decide (a = x)) as [->|Hax].
      { apply elem_of_app. right. apply list_elem_of_here. }
      rewrite lookup_insert_ne in Hx by assumption.
      apply elem_of_app. left. now apply Hlive.
  - apply last_None in El. subst l. apply chain_nil_inv in Hc.
    cbn [store_slot exec]. eexists. split; [reflexivity|].
    cbn [lock current_file heap id file_indirect heap_next file_head
         set_current_file set_file_indirect set_heap set_heap_next set_lock set_kvm_run
         set_file_head].
    split; [reflexivity|]. split; [reflexivity|].
    split; [apply lookup_insert_eq|].
    split; [reflexivity|]. split; [reflexivity|]. split; [reflexivity|].
    split; [|split].
    + cbn [app]. econstructor; [apply lookup_insert_eq | apply not_elem_of_nil | constructor].
    + intros x Hx. now rewrite lookup_insert_ne by congruence.
    + intros x Hx. destruct (decide (a = x)) as [->|Hax].
      { apply list_elem_of_here. }
      rewrite lookup_insert_ne in Hx by assumption.
      apply Hlive in Hx. now apply elem_of_nil in Hx.
Qed.

(** ... and in a state whose [file_indirect] points into a freed record. *)
Lemma port_out_open_dangling (sem : Z) (h : H) (vm : guest) (b : Z) :
  lock vm = 0 -> 0 < sem ->
  file_indirect vm = next_slot b -> heap vm !! b = None -> b <> heap_next vm ->
  port_out OPEN sem h vm = Crashed UseAfterFree.
Proof.
  intros Hl Hsem Hind Hb Hne.
  unfold port_out, trap, mbind, gprog_bind, mret, gprog_ret.
  rewrite handle_file_out_dword by (unfold OPEN; lia). cbv zeta. rewrite Hl.
  change (0 =? 0) with true. cbv iota.
  unfold start_file_operation. cbn [exec].
  destruct (Z.ltb_spec 0 sem); [|lia].
  change (OPEN =? OPEN) with true. cbv iota zeta.
  cbn [file_indirect set_heap_next set_heap set_lock set_kvm_run heap heap_next].
  rewrite Hind. cbn [store_slot heap set_heap_next set_heap set_lock set_kvm_run].
  rewrite lookup_insert_ne by congruence. rewrite Hb. reflexivity.
Qed.

(** One more byte of the name while there is room. *)
Lemma port_outb_name (c sem : Z) (h : H) (vm : guest) (a : Z) (f : file) :
  lock vm = OPEN -> current_file vm = Some a -> heap vm !! a = Some f ->
  0 <= cnt f < IME_SIZE ->
  port_outb c sem h vm
  = Finished sem h
      (set_heap (set_kvm_run vm (out_byte_over (io_data (kvm_run vm)) c))
         (<[a := set_name f (cnt f + 1) (<[Z.to_nat (cnt f) := Some (byte c)]> (ime f))]>
            (heap vm))) tt.
Proof.
  intros Hl Hc Hh Hcnt. unfold port_outb, mbind, gprog_bind, mret, gprog_ret.
  set (r := out_byte_over (io_data (kvm_run vm)) c).
  assert (E : handle_file h (set_kvm_run vm r)
              = Ret h (set_heap (set_kvm_run vm r)
                         (<[a := set_name f (cnt f + 1)
                                   (<[Z.to_nat (cnt f) := Some (byte c)]> (ime f))]>
                            (heap vm))) 0).
  { unfold r. rewrite handle_file_out_byte_over. cbv zeta. rewrite Hl.
    change (OPEN =? OPEN) with true. cbv iota.
    unfold opened_file_op_name, mbind, res_bind.
    rewrite (cur_intro (set_kvm_run vm _) a f Hc Hh).
    destruct (Z.leb_spec 0 (cnt f)); [|lia].
    destruct (Z.ltb_spec (cnt f) IME_SIZE); [|lia]. reflexivity. }
  now rewrite (trap_ret _ _ _ _ _ _ _ E).
Qed.

Lemma name_array_extended (pre : list Z) (c : Z) :
  (length pre < 50)%nat ->
  <[length pre := Some c]> (map Some pre ++ replicate (50 - length pre) None)
  = map Some (pre ++ [c]) ++ replicate (50 - length (pre ++ [c])) (None : option Z).
Proof.
  intros Hlen.
  rewrite insert_app_r_alt by (rewrite length_map; lia).
  rewrite length_map, Nat.sub_diag, length_app. cbn [length].
  destruct (50 - length pre)%nat as [|k] eqn:Ek; [lia|].
  replace (50 - (length pre + 1))%nat with k by lia.
  cbn. rewrite map_app, <- app_assoc. reflexivity.
Qed.

(** The loop of [open] over the name stores its bytes in the record of
    [current_file] and changes nothing else. *)
Lemma send_chars_stored (name : list Z) : forall (pre : list Z) sem (h : H) (vm : guest) a f,
  lock vm = OPEN -> current_file vm = Some a -> heap vm !! a = Some f ->
  cnt f = Z.of_nat (length pre) ->
  ime f = map Some pre ++ replicate (50 - length pre) None ->
  (length pre + length name <= 50)%nat ->
  Forall (fun c => byte c <> 0) name ->
  exists vm' f',
    send_chars name sem h vm = Finished sem h vm' tt
    /\ lock vm' = OPEN /\ current_file vm' = Some a
    /\ heap vm' !! a = Some f'
    /\ cnt f' = Z.of_nat (length (pre ++ map byte name))
    /\ ime f' = map Some (pre ++ map byte name)
                ++ replicate (50 - length (pre ++ map byte name)) None
    /\ flags f' = flags f /\ mode f' = mode f /\ fd f' = fd f
    /\ only_record a vm vm'.
Proof.
  induction name as [|c name IH]; intros pre sem h vm a f Hl Hc Hh Hcnt Hime Hlen Hnz.
  { exists vm, f. cbn [send_chars map]. rewrite app_nil_r.
    repeat split; try assumption; try reflexivity. }
  inversion Hnz as [|c' name' Hc0 Hrest]; subst.
  cbn [send_chars]. destruct (Z.eqb_spec (byte c) 0); [contradiction|].
  cbn [length] in Hlen. unfold mbind, gprog_bind.
  rewrite (port_outb_name c sem h vm a f Hl Hc Hh) by (unfold IME_SIZE; lia).
  set (f1 := set_name f (cnt f + 1) (<[Z.to_nat (cnt f) := Some (byte c)]> (ime f))).
  set (vm1 := set_heap (set_kvm_run vm _) (<[a := f1]> (heap vm))).
  destruct (IH (pre ++ [byte c]) sem h vm1 a f1)
    as (vm' & f' & Hs & Hl' & Hc' & Hh' & Hcnt' & Hime' & Hfl & Hmd & Hfd & Hrec).
  - exact Hl.
  - exact Hc.
  - apply lookup_insert_eq.
  - unfold f1. cbn [cnt set_name]. rewrite Hcnt, length_app. cbn [length]. lia.
  - unfold f1. cbn [ime set_name]. rewrite Hime, Hcnt, Nat2Z.id.
    apply name_array_extended. lia.
  - rewrite length_app. cbn [length]. lia.
  - exact Hrest.
  - exists vm', f'. rewrite <- app_assoc in Hcnt', Hime'. cbn [app map] in Hcnt', Hime' |- *.
    split; [exact Hs|]. repeat (split; [assumption|]).
    eapply only_record_trans; [|exact Hrec].
    apply (only_record_update a vm _ f); [exact Hh | reflexivity].
Qed.

(** Flags, mode and the descriptor: the end of an OPEN once the name is
    in. *)
Lemma open_flags_mode_fd (sem : Z) (h : H) (vm : guest) (a : Z) (f : file)
    (name : list Z) (fl md : Z) :
  lock vm = OPEN -> current_file vm = Some a -> heap vm !! a = Some f ->
  flags f = -1 -> c_string (ime f) = Ok name ->
  - 2 ^ 31 <= fl < 2 ^ 31 -> - 2 ^ 31 <= md < 2 ^ 31 -> fl <> -1 ->
  exists vm' f',
    (port_out fl ≫= fun _ => port_out md ≫= fun _ => port_in) sem h vm
    = Finished (sem + 1) (fst (resolve h (id vm) name fl (u32 md))) vm'
        (to_int (u32 (snd (resolve h (id vm) name fl (u32 md)))))
    /\ lock vm' = 0 /\ current_file vm' = None
    /\ only_record a vm vm'
    /\ heap vm' !! a = Some f'
    /\ fd f' = snd (resolve h (id vm) name fl (u32 md))
    /\ flags f' = fl /\ mode f' = u32 md.
Proof.
  intros Hl Hc Hf Hfl Hname Hfl_range Hmd_range Hne.
  unfold mbind at 1. unfold gprog_bind.
  unfold port_out at 1. unfold trap, mbind at 1, gprog_bind, mret, gprog_ret.
  rewrite handle_file_out_dword by exact Hfl_range. cbv zeta. rewrite Hl.
  change (OPEN =? 0) with false. change (OPEN =? OPEN) with true. cbv iota.
  rewrite (opened_file_op_flags_first h (set_kvm_run vm (out_dword fl)) a f fl Hc Hf Hfl).
  cbn [exec].
  set (vm1 := set_heap (set_kvm_run vm (out_dword fl)) (<[a:=set_flags f fl]> (heap _))).
  assert (Hf1 : heap vm1 !! a = Some (set_flags f fl)) by apply lookup_insert_eq.
  unfold mbind at 1. unfold gprog_bind.
  unfold port_out at 1. unfold trap, mbind at 1, gprog_bind, mret, gprog_ret.
  rewrite handle_file_out_dword by exact Hmd_range. cbv zeta.
  change (lock vm1) with (lock vm). rewrite Hl.
  change (OPEN =? 0) with false. change (OPEN =? OPEN) with true. cbv iota.
  rewrite (opened_file_op_flags_resolve h (set_kvm_run vm1 (out_dword md)) a
             (set_flags f fl) name md Hc Hf1 Hne Hname).
  cbn [exec flags set_flags id set_kvm_run].
  change (id vm1) with (id vm).
  set (r := resolve h (id vm) name fl (u32 md)).
  set (f2 := set_fd (set_mode (set_flags f fl) (u32 md)) (snd r)).
  set (vm2 := set_heap (set_kvm_run vm1 (out_dword md)) _).
  assert (Hf2 : heap vm2 !! a = Some f2) by apply lookup_insert_eq.
  unfold port_in, trap, mbind, gprog_bind, mret, gprog_ret.
  set (r3 := in_dword_over (io_data (kvm_run vm2))).
  unfold r3 at 1. rewrite handle_file_in_dword_over. fold r3. cbv zeta.
  change (lock vm2) with (lock vm). rewrite Hl.
  change (OPEN =? CLOSE) with false. change (OPEN =? OPEN) with true. cbv iota.
  unfold opened_file_op_send_fd.
  rewrite (cur_intro (set_kvm_run vm2 r3) a f2 Hc Hf2).
  unfold end_file_operation. cbn [exec].
  eexists _, f2. split; [reflexivity|].
  split; [reflexivity|]. split; [reflexivity|].
  split; [|split; [exact Hf2 | now repeat split]].
  repeat split; cbn.
  - intros x Hx. now rewrite !lookup_insert_ne by congruence.
  - rewrite lookup_insert_eq, Hf. reflexivity.
Qed.

(** X16.  The guest's [open] of a name of at most 49 bytes, none of them
    NUL, with flags other than [-1], in an idle state whose [file_indirect]
    is the tail slot and with the permit free: the value returned is the
    descriptor the path resolution arrives at (as a C [int]); a record with
    that descriptor, the flags and the mode is linked behind the records
    there were, which keep their descriptors; the permit is back and
    [file_indirect] is the tail slot again.  (Flags of [-1] are what the
    engine takes for flags still to come: the mode is then stored as the
    flags and no path is resolved.) *)
Theorem guest_open_appends_record
    (sem : Z) (h : H) (vm : guest) (name : list Z) (fl md : Z) :
  guest_ok vm -> lock vm = 0 -> file_indirect vm = tail_slot (files vm) ->
  0 < sem ->
  (length name <= 49)%nat -> Forall (fun c => byte c <> 0) name ->
  - 2 ^ 31 <= fl < 2 ^ 31 -> - 2 ^ 31 <= md < 2 ^ 31 -> fl <> -1 ->
  exists vm' f',
    guest_open name fl md sem h vm
    = Finished sem (fst (resolve h (id vm) (map byte name) fl (u32 md))) vm'
        (to_int (u32 (snd (resolve h (id vm) (map byte name) fl (u32 md)))))
    /\ lock vm' = 0 /\ current_file vm' = None
    /\ files vm' = files vm ++ [heap_next vm]
    /\ heap vm' !! heap_next vm = Some f'
    /\ fd f' = snd (resolve h (id vm) (map byte name) fl (u32 md))
    /\ flags f' = fl /\ mode f' = u32 md
    /\ (forall x, x <> heap_next vm -> fd <$> heap vm' !! x = fd <$> heap vm !! x)
    /\ file_indirect vm' = tail_slot (files vm')
    /\ heap_next vm' = heap_next vm + 1
    /\ guest_ok vm'.
Proof.
  intros Hok Hl Hind Hsem Hlen Hnz Hfl Hmd Hne.
  pose proof Hok as (l & Hfiles & _).
  pose proof Hfiles as (Hch & _).
  rewrite (files_chain vm l Hch) in *.
  set (a := heap_next vm).
  destruct (port_out_open sem h vm l Hl Hsem Hfiles Hind)
    as (vm1 & E1 & L1 & C1 & F1 & I1 & Ind1 & N1 & Ch1 & Fd1 & _).
  fold a in E1, C1, F1, Ind1, N1, Ch1, Fd1.
  destruct (send_chars_stored name [] (sem - 1) h vm1 a init_file)
    as (vmN & fN & EN & LN & CN & FN & HcntN & HimeN & HflN & _ & _ & O1N);
    try assumption; try reflexivity; [cbn [length]; lia|].
  cbn [app] in HcntN, HimeN.
  assert (Hroom : 0 <= cnt fN < IME_SIZE).
  { rewrite HcntN, length_map. unfold IME_SIZE. lia. }
  pose proof (port_outb_name 0 (sem - 1) h vmN a fN LN CN FN Hroom) as E0.
  set (f2 := set_name fN (cnt fN + 1) (<[Z.to_nat (cnt fN) := Some (byte 0)]> (ime fN))) in E0.
  set (vm2 := set_heap (set_kvm_run vmN _) (<[a := f2]> (heap vmN))) in E0.
  assert (L2 : lock vm2 = OPEN) by exact LN.
  assert (C2 : current_file vm2 = Some a) by exact CN.
  assert (F2 : heap vm2 !! a = Some f2) by apply lookup_insert_eq.
  assert (I2 : id vm2 = id vm).
  { destruct O1N as (_ & _ & _ & IdN & _). cbn. congruence. }
  assert (Hfl2 : flags f2 = -1) by (unfold f2; cbn [flags set_name]; exact HflN).
  assert (O12 : only_record a vm1 vm2).
  { eapply only_record_trans; [exact O1N|].
    apply (only_record_update a vmN _ fN); [exact FN | reflexivity]. }
  assert (Hname : c_string (ime f2) = Ok (map byte name)).
  { unfold f2. cbn [ime set_name]. rewrite HimeN, HcntN, Nat2Z.id.
    rewrite name_array_extended by (rewrite length_map; lia).
    change (byte 0) with 0.
    apply c_string_terminated. now apply Forall_map. }
  destruct (open_flags_mode_fd (sem - 1) (h) vm2 a f2 (map byte name) fl md
              L2 C2 F2 Hfl2 Hname Hfl Hmd Hne)
    as (vm3 & f3 & E3 & L3 & C3 & O23 & F3 & Hfd3 & Hflags3 & Hmode3).
  rewrite I2 in E3, Hfd3.
  pose proof (only_record_trans a _ _ _ O12 O23) as O13.
  assert (Erun : guest_open name fl md sem h vm
                 = Finished sem (fst (resolve h (id vm) (map byte name) fl (u32 md))) vm3
                     (to_int (u32 (snd (resolve h (id vm) (map byte name) fl (u32 md)))))).
  { unfold guest_open. unfold mbind at 1. unfold gprog_bind. rewrite E1.
    unfold mbind at 1. unfold gprog_bind. rewrite EN.
    unfold mbind at 1. unfold gprog_bind. rewrite E0.
    revert E3. unfold mbind, gprog_bind. intros E3. rewrite E3. f_equal. lia. }
  pose proof (only_record_chain a vm1 vm3 _ O13 Ch1) as Ch3.
  destruct O13 as (P1 & P2 & P3 & P4 & P5 & P6).
  exists vm3, f3. split; [exact Erun|].
  split; [exact L3|]. split; [exact C3|].
  split; [now apply files_chain|].
  split; [exact F3|]. split; [exact Hfd3|]. split; [exact Hflags3|]. split; [exact Hmode3|].
  split; [intros x Hx; rewrite P5 by exact Hx; now apply Fd1|].
  split; [rewrite (files_chain vm3 _ Ch3), P2, Ind1; unfold tail_slot; now rewrite last_snoc|].
  split; [congruence|].
  exact (keeps_ok_guest_open _ _ _ _ _ _ _ _ _ _ Hok Erun).
Qed.

(** X23.  Closing the file that was opened last leaves [file_indirect] pointing
    into the record just freed; the next [open] stores the address of its
    new record through it. *)
Theorem open_after_closing_last_uses_freed_record
    (sem : Z) (h : H) (vm : guest) (d a : Z) (name : list Z) (fl md : Z) :
  guest_ok vm -> lock vm = 0 -> file_indirect vm = tail_slot (files vm) ->
  0 < sem -> - 2 ^ 31 <= d < 2 ^ 31 -> d <> 0 ->
  find_fd (S (size (heap vm))) (heap vm) (file_head vm) d = Found a ->
  last (files vm) = Some a ->
  (guest_close d ≫= fun _ => guest_open name fl md) sem h vm = Crashed UseAfterFree.
Proof.
  intros Hok Hl Hind Hsem Hd Hd0 Hfind Hlast.
  pose proof Hok as (l & (Hch & _ & Hfresh & _) & _).
  pose proof (find_fd_found _ _ _ _ _ _ Hch Hfind) as Hal.
  destruct (find_fd_fd _ _ _ _ _ Hfind) as (f & Hf & Hfd).
  unfold mbind at 1. unfold gprog_bind.
  unfold guest_close. unfold mbind at 1. unfold gprog_bind.
  rewrite port_out_start by (assumption || (unfold CLOSE, OPEN; lia)).
  unfold mbind at 1. unfold gprog_bind.
  rewrite port_out_select by (cbn [lock set_lock]; (assumption || discriminate)).
  cbn [heap file_head set_lock set_kvm_run]. rewrite Hfind.
  unfold mbind at 1. unfold gprog_bind.
  destruct (port_in_close (sem - 1) h
              (set_current_file
                 (set_kvm_run (set_lock (set_kvm_run vm (out_dword CLOSE)) CLOSE)
                    (out_dword d)) (Some a)) l a f eq_refl eq_refl Hf Hch Hal)
    as (vm1 & E & L1 & C1 & I1 & N1 & _ & Ch1 & Ha1 & Fd1).
  rewrite E. unfold mbind at 1. unfold gprog_bind.
  rewrite port_out_finish by (rewrite L1; discriminate).
  unfold mret, gprog_ret. unfold guest_open. unfold mbind at 1. unfold gprog_bind.
  cbn [file_indirect heap_next set_current_file set_kvm_run set_lock] in I1, N1.
  rewrite (port_out_open_dangling _ _ _ a); try reflexivity.
  - lia.
  - cbn [file_indirect set_current_file set_kvm_run set_lock]. rewrite I1, Hind.
    unfold tail_slot. now rewrite Hlast.
  - exact Ha1.
  - cbn [heap_next set_current_file set_kvm_run set_lock]. rewrite N1.
    apply Hfresh in Hal. lia.
Qed.

End OpenRoutine.
(** ** The guest's file routines: the search for a descriptor *)

Lemma find_fd_chain (hp : gmap Z file) (d : Z) : forall l fuel p,
  chain hp p l -> (length l < fuel)%nat ->
  find_fd fuel hp p d
  = match List.find (has_fd hp d) l with Some a => Found a | None => NotFound end.
Proof.
  induction l as [|c l IH]; intros fuel p Hc Hfuel;
    (destruct fuel as [|fuel]; [cbn in Hfuel; lia|]).
  - apply chain_nil_inv in Hc. subst p. reflexivity.
  - inversion Hc as [|c' fc l' Hcf Hnot Hrest]; subst.
    cbn [find_fd List.find]. unfold has_fd at 1. rewrite Hcf.
    destruct (fd fc =? d); [reflexivity|].
    apply IH; [exact Hrest | cbn [length] in Hfuel; lia].
Qed.

(** X15.  The search of [get_file_descriptor] in a well-formed list returns the
    first record, in list order, whose descriptor is the one asked for, and
    nothing when there is none; it neither runs into a freed record nor
    loops. *)
Theorem find_fd_first_match (vm : guest) (d : Z) :
  guest_ok vm ->
  find_fd (S (size (heap vm))) (heap vm) (file_head vm) d
  = match List.find (has_fd (heap vm) d) (files vm) with
    | Some a => Found a
    | None => NotFound
    end.
Proof.
  intros (l & (Hc & _) & _). rewrite (files_chain vm l Hc).
  apply find_fd_chain; [exact Hc|]. pose proof (chain_length _ _ _ Hc). lia.
Qed.

(** ** The guest's file routines: examples *)

Lemma opened_guest_ok : guest_ok opened_guest.
Proof.
  apply (keeps_ok_guest_open [112] O_RDONLY 0 1 tape0 (init_guest 5 0 in_byte)
           1 opened_host opened_guest 3); [apply guest_ok_init | reflexivity].
Qed.

Lemma find_fd_first_match_witness :
  find_fd (S (size (heap opened_guest))) (heap opened_guest) (file_head opened_guest) 3
  = match List.find (has_fd (heap opened_guest) 3) (files opened_guest) with
    | Some a => Found a
    | None => NotFound
    end.
Proof. exact (find_fd_first_match opened_guest 3 opened_guest_ok). Defined.

Lemma guest_read_streams_host_witness :
  exists vm',
    guest_read 3 20 1 opened_host opened_guest
    = Finished 1 (fst (read_stream 20 opened_host 3)) vm' (snd (read_stream 20 opened_host 3))
    /\ norm vm' = norm opened_guest.
Proof.
  apply (guest_read_streams_host 1 opened_host opened_guest 3 1 20);
    [reflexivity | reflexivity | lia | lia | lia | reflexivity].
Defined.

Lemma guest_write_streams_host_witness :
  exists vm',
    guest_write 3 [79; 75] 1 opened_host opened_guest
    = Finished 1 (write_stream [79; 75] opened_host 3) vm' 2
    /\ norm vm' = norm opened_guest.
Proof.
  apply (guest_write_streams_host 1 opened_host opened_guest 3 1 [79; 75]);
    [reflexivity | reflexivity | lia | lia | lia | reflexivity].
Defined.

Lemma guest_routines_keep_list_well_formed_witness :
  guest_ok opened_guest
  /\ forall (sem : Z) (h : tape_host) (sem' : Z) (h' : tape_host) (vm' : guest),
    (forall name flags mode v,
        guest_open name flags mode sem h opened_guest = Finished sem' h' vm' v -> guest_ok vm')
    /\ (forall d v, guest_close d sem h opened_guest = Finished sem' h' vm' v -> guest_ok vm')
    /\ (forall d count v,
           guest_read d count sem h opened_guest = Finished sem' h' vm' v -> guest_ok vm')
    /\ (forall d buf v,
           guest_write d buf sem h opened_guest = Finished sem' h' vm' v -> guest_ok vm').
Proof.
  split; [exact opened_guest_ok|].
  exact (guest_routines_keep_list_well_formed opened_guest opened_guest_ok).
Defined.

Lemma guest_close_removes_record_witness :
  exists vm',
    guest_close 3 1 opened_host opened_guest
    = Finished 1 (fst (host_close opened_host 3)) vm'
        (to_int (u32 (snd (host_close opened_host 3))))
    /\ lock vm' = 0 /\ current_file vm' = None
    /\ files vm' = filter (fun x => x <> 1) (files opened_guest)
    /\ heap vm' !! 1 = None
    /\ (forall x, x <> 1 -> fd <$> heap vm' !! x = fd <$> heap opened_guest !! x)
    /\ file_indirect vm' = file_indirect opened_guest
    /\ heap_next vm' = heap_next opened_guest
    /\ guest_ok vm'.
Proof.
  apply (guest_close_removes_record 1 opened_host opened_guest 3 1);
    [exact opened_guest_ok | reflexivity | lia | lia | lia | reflexivity].
Defined.

Lemma unknown_descriptor_reaches_no_file_witness :
  exists vm1 vm2 vm3,
    guest_close 7 1 opened_host opened_guest = Finished 1 opened_host vm1 (-1)
    /\ guest_read 7 20 1 opened_host opened_guest = Finished 1 opened_host vm2 []
    /\ guest_write 7 [79; 75] 1 opened_host opened_guest = Finished 1 opened_host vm3 2
    /\ norm vm1 = norm opened_guest /\ norm vm2 = norm opened_guest
    /\ norm vm3 = norm opened_guest.
Proof.
  apply (unknown_descriptor_reaches_no_file 1 opened_host opened_guest 7 20 [79; 75]);
    [exact opened_guest_ok | reflexivity | lia | lia | lia | reflexivity].
Defined.

Lemma descriptor_zero_loses_permit_witness :
  exists vm1 vm2 vm3,
    guest_close 0 1 opened_host opened_guest = Finished (1 - 1) opened_host vm1 0
    /\ guest_read 0 2 1 opened_host opened_guest
       = Finished (1 - 1) opened_host vm2 (replicate 2 0)
    /\ guest_write 0 [79; 75] 1 opened_host opened_guest
       = Finished (1 - 1) opened_host vm3 2
    /\ norm vm1 = norm opened_guest /\ norm vm2 = norm opened_guest
    /\ norm vm3 = norm opened_guest.
Proof.
  apply (descriptor_zero_loses_permit 1 opened_host opened_guest 2 [79; 75]);
    [reflexivity | reflexivity | lia].
Defined.

Lemma file_routine_blocks_without_permit_witness :
  guest_open [112] O_RDONLY 0 0 opened_host opened_guest
  = Blocked opened_host (set_kvm_run opened_guest (out_dword OPEN))
  /\ guest_close 3 0 opened_host opened_guest
     = Blocked opened_host (set_kvm_run opened_guest (out_dword CLOSE))
  /\ guest_read 3 20 0 opened_host opened_guest
     = Blocked opened_host (set_kvm_run opened_guest (out_dword READ))
  /\ guest_write 3 [79] 0 opened_host opened_guest
     = Blocked opened_host (set_kvm_run opened_guest (out_dword WRITE)).
Proof.
  apply (file_routine_blocks_without_permit 0 opened_host opened_guest
           [112] [79] O_RDONLY 0 3 20); [reflexivity | lia].
Defined.

Lemma guest_open_appends_record_witness :
  exists vm' f',
    guest_open [111] 577 511 1 opened_host opened_guest
    = Finished 1 (fst (resolve opened_host (id opened_guest) (map byte [111]) 577 (u32 511)))
        vm'
        (to_int (u32 (snd (resolve opened_host (id opened_guest) (map byte [111]) 577
                             (u32 511)))))
    /\ lock vm' = 0 /\ current_file vm' = None
    /\ files vm' = files opened_guest ++ [heap_next opened_guest]
    /\ heap vm' !! heap_next opened_guest = Some f'
    /\ fd f' = snd (resolve opened_host (id opened_guest) (map byte [111]) 577 (u32 511))
    /\ flags f' = 577 /\ mode f' = u32 511
    /\ (forall x, x <> heap_next opened_guest ->
                  fd <$> heap vm' !! x = fd <$> heap opened_guest !! x)
    /\ file_indirect vm' = tail_slot (files vm')
    /\ heap_next vm' = heap_next opened_guest + 1
    /\ guest_ok vm'.
Proof.
  apply (guest_open_appends_record 1 opened_host opened_guest [111] 577 511);
    [ exact opened_guest_ok | reflexivity | reflexivity | lia | cbn; lia
    | repeat constructor; discriminate | lia | lia | lia ].
Defined.

Lemma open_after_closing_last_uses_freed_record_witness :
  (guest_close 3 ≫= fun _ => guest_open [112] O_RDONLY 0) 1 opened_host opened_guest
  = Crashed UseAfterFree.
Proof.
  apply (open_after_closing_last_uses_freed_record 1 opened_host opened_guest 3 1
           [112] O_RDONLY 0);
    [ exact opened_guest_ok | reflexivity | reflexivity | lia | lia | lia
    | reflexivity | reflexivity ].
Defined.
